(** * Minibroker: the broker engine of pkg/minibroker/minibroker.go

    A shallow embedding of the catalog builder, the instance record store
    and the provision / bind / deprovision / poll operations, followed by
    the properties of the specification that are settled on it.

    Go strings are byte strings; they are embedded as [string] (a list of
    8-bit characters).  Go maps are finite maps ([gmap]); a lookup of an
    absent key in a [map[string]string] yields the empty string
    ([strIndex] below). *)

From Stdlib Require Import ZArith Ascii String List Lia.
From stdpp Require Import base option list gmap strings fin_maps.

Local Open Scope string_scope.
Local Open Scope list_scope.
Set Warnings "-register-all".

(* ================================================================== *)
(** ** Go's string functions used by the broker *)
(* ================================================================== *)

Module GoStrings.

(** [mapBytes f s] applies [f] to every byte of [s]. *)
Fixpoint mapBytes (f : ascii -> ascii) (s : string) : string :=
  match s with
  | EmptyString => EmptyString
  | String c rest => String (f c) (mapBytes f rest)
  end.



Definition isUpper (c : ascii) : bool :=
  Nat.leb 65 (nat_of_ascii c) && Nat.leb (nat_of_ascii c) 90.

Definition isLower (c : ascii) : bool :=
  Nat.leb 97 (nat_of_ascii c) && Nat.leb (nat_of_ascii c) 122.

Definition isDigit (c : ascii) : bool :=
  Nat.leb 48 (nat_of_ascii c) && Nat.leb (nat_of_ascii c) 57.

Definition toLowerByte (c : ascii) : ascii :=
  if isUpper c then ascii_of_nat (nat_of_ascii c + 32) else c.

(** [strings.ToLower]: for an ASCII string Go lower-cases byte by byte
    ('A'..'Z' are shifted by 32); a string with a byte above 127 goes
    through the Unicode tables, which are outside this embedding. *)
Definition ToLower (s : string) : string := mapBytes toLowerByte s.

(** [strings.HasPrefix s prefix]. *)
Fixpoint HasPrefix (s prefix : string) {struct prefix} : bool :=
  match prefix, s with
  | EmptyString, _ => true
  | String _ _, EmptyString => false
  | String a prefix', String b s' =>
      if Ascii.eqb a b then HasPrefix s' prefix' else false
  end.

(** The loop of [strings.Replace] for a non-empty [old]: at most [n]
    leftmost, non-overlapping occurrences of [old] are replaced by [new]
    (all of them when [n] is negative).  [skip] counts the bytes of the
    occurrence just replaced that are still to be dropped. *)
Fixpoint replaceLoop (old new : string) (n : Z) (skip : nat) (s : string) : string :=
  match s with
  | EmptyString => EmptyString
  | String c rest =>
      match skip with
      | S k => replaceLoop old new n k rest
      | O =>
          if (n =? 0)%Z then s
          else if HasPrefix s old
               then new +:+ replaceLoop old new (n - 1) (String.length old - 1) rest
               else String c (replaceLoop old new n 0 rest)
      end
  end.

(** With an empty [old], Go inserts [new] at the start and after each
    character, up to [n] times. *)
Fixpoint replaceEmpty (new : string) (n : Z) (s : string) : string :=
  if (n =? 0)%Z then s
  else new +:+ match s with
              | EmptyString => EmptyString
              | String c rest => String c (replaceEmpty new (n - 1) rest)
              end.

(** [strings.Replace s old new n]. *)
Definition Replace (s old new : string) (n : Z) : string :=
  if String.eqb old new then s
  else match old with
       | EmptyString => replaceEmpty new n s
       | String _ _ => replaceLoop old new n 0 s
       end.

(** The character class of [regexp.MustCompile(`[^a-z0-9]`)]. *)
Definition cleanerMatches (c : ascii) : bool := negb (isLower c || isDigit c).

(** [cleaner.ReplaceAllString(src, "-")]: every match of the class is
    one character, and each is replaced by a dash. *)
Definition cleaner_ReplaceAllString (src : string) : string :=
  mapBytes (fun c => if cleanerMatches c then "-"%char else c) src.

(** [occursAt s old i]: [old] occurs in [s] at byte offset [i]. *)
Definition occursAt (s old : string) (i : nat) : Prop :=
  exists pre post : string, s = pre +:+ old +:+ post /\ String.length pre = i.

(** [allBytes P s]: every byte of [s] satisfies [P]. *)
Fixpoint allBytes (P : ascii -> bool) (s : string) : bool :=
  match s with
  | EmptyString => true
  | String c rest => P c && allBytes P rest
  end.

(** The classes of bytes and the byte-wise maps in which the statements
    about plan IDs are written. *)
Definition isLowerAlnum (c : ascii) : bool := isLower c || isDigit c.
Definition isVersionByte (c : ascii) : bool := isDigit c || Ascii.eqb c ".".
Definition dashToDot (c : ascii) : ascii := if Ascii.eqb c "-" then "."%char else c.
Definition slugByte (c : ascii) : ascii := if isLowerAlnum c then c else "-"%char.

End GoStrings.

(* ================================================================== *)
(** ** Data of the packages the broker imports *)
(* ================================================================== *)

(** A Go [interface{}] holding decoded JSON: the values of
    [map[string]interface{}] parameters and credentials. *)
Inductive Value : Type :=
| VNull
| VBool (b : bool)
| VNum (n : Z)
| VStr (s : string)
| VList (items : list Value)
| VMap (entries : list (string * Value)).

(** [m[k]] on a Go [map[string]string]: the zero value when absent. *)
Definition strIndex (m : gmap string string) (k : string) : string :=
  default EmptyString (m !! k).

(** Go's [error] values that the broker builds or inspects. *)
Inductive StatusReason :=
| StatusReasonAlreadyExists
| StatusReasonNotFound
| StatusReasonOther (reason : string).

Inductive error : Type :=
| HTTPStatusCodeError (StatusCode : Z) (ErrorMessage Description : option string)
    (* osb.HTTPStatusCodeError *)
| StatusError (reason : StatusReason) (message : string)
    (* the API errors of k8s.io/apimachinery *)
| errorString (message : string)
    (* any other error of a collaborator *)
| Wrapf (cause : error) (format : string) (args : list Value).
    (* errors.Wrapf, with its format and arguments *)

Inductive result (A : Type) : Type :=
| Ok (a : A)
| Err (e : error).
Arguments Ok {A} a.
Arguments Err {A} e.

Module apierrors.
Definition IsAlreadyExists (err : error) : bool :=
  match err with StatusError StatusReasonAlreadyExists _ => true | _ => false end.
Definition IsNotFound (err : error) : bool :=
  match err with StatusError StatusReasonNotFound _ => true | _ => false end.
End apierrors.

Module http.
Definition StatusBadRequest : Z := 400.
Definition StatusNotFound : Z := 404.
Definition StatusConflict : Z := 409.
Definition StatusGone : Z := 410.
End http.

Module repo.
(** [repo.ChartVersion] with the fields of its embedded metadata that
    the broker reads. *)
Record ChartVersion := {
  Name : string;
  Version : string;
  AppVersion : string;
  Description : string;
  Keywords : list string
}.
End repo.

Module osb.
Record Plan := {
  plan_ID : string;
  plan_Name : string;
  plan_Description : string;
  plan_Free : option bool
}.

Record Service := {
  ID : string;
  Name : string;
  Description : string;
  Bindable : bool;
  Plans : list Plan;
  Tags : list string
}.

Record LastOperationResponse := {
  State : string;
  resp_Description : option string
}.

Definition StateInProgress : string := "in progress".
Definition StateSucceeded : string := "succeeded".
Definition StateFailed : string := "failed".
End osb.

Module corev1.
Record ConfigMap := {
  cm_Name : string;
  cm_Namespace : string;
  cm_Labels : gmap string string;
  cm_Data : gmap string string
}.

(** A Service object: its metadata and the rest of it, which the broker
    hands to the providers untouched. *)
Record Service := {
  svc_Name : string;
  svc_Namespace : string;
  svc_Labels : gmap string string;
  svc_Spec : string
}.

Record Secret := {
  sec_Name : string;
  sec_Namespace : string;
  sec_Labels : gmap string string;
  sec_Data : gmap string string
}.
End corev1.

(** The [Provider] interface: [Bind(services, params, chartSecrets)]
    yields credentials, already flattened by [ToMap], or an error. *)
Definition Provider : Type :=
  list corev1.Service -> gmap string Value -> gmap string Value ->
  result (gmap string Value).

Module helm.
(** The options of k8s.io/helm/pkg/helm that the broker passes. *)
Inductive InstallOption :=
| ValueOverrides (raw : string)
| InstallReuseName (reuse : bool)
| InstallDisableHooks (disable : bool)
| InstallWait (wait : bool).

Inductive DeleteOption :=
| DeleteDisableHooks (disable : bool)
| DeletePurge (purge : bool).

(** A chart loaded from its definition, and the release Tiller reports
    after an installation. *)
Inductive Chart := LoadedChart (archive : string).

Record Release := {
  rel_Name : string;
  rel_Namespace : string;
  rel_Version : Z;
  rel_Manifest : string
}.
End helm.

(* ================================================================== *)
(** ** Programs over the collaborators *)
(* ================================================================== *)

(** The calls the broker makes on its collaborators, indexed by what
    they return: the chart repository client, Tiller, the cluster API
    client and the random number generator. *)
Inductive call : Type -> Type :=
| Helm_ListCharts : call (result (gmap string (list repo.ChartVersion)))
| Helm_GetChart (name version : string) : call (result repo.ChartVersion)
| Helm_LoadChart (chartDef : repo.ChartVersion) : call (result helm.Chart)
| Tiller_PingTiller : call (result unit)
| Tiller_InstallReleaseFromChart (chart : helm.Chart) (ns : string)
    (opts : list helm.InstallOption) : call (result helm.Release)
| Tiller_DeleteRelease (release : string) (opts : list helm.DeleteOption)
    : call (result unit)
| ConfigMaps_Create (ns : string) (config : corev1.ConfigMap)
    : call (result corev1.ConfigMap)
| ConfigMaps_Get (ns name : string) : call (result corev1.ConfigMap)
| ConfigMaps_Update (ns : string) (config : corev1.ConfigMap)
    : call (result corev1.ConfigMap)
| ConfigMaps_Delete (ns name : string) : call (result unit)
| Services_List (ns : string) (labelSelector : gmap string string)
    : call (result (list corev1.Service))
| Services_Patch (ns name : string) (patch : gmap string string)
    : call (result corev1.Service)
| Secrets_List (ns : string) (labelSelector : gmap string string)
    : call (result (list corev1.Secret))
| Secrets_Patch (ns name : string) (patch : gmap string string)
    : call (result corev1.Secret)
| Rand_Int31 : call Z.

(** A Go function body over these calls: it returns, panics, calls a
    collaborator and goes on with the answer, or starts a goroutine. *)
Inductive prog (A : Type) : Type :=
| Ret (a : A)
| Panic
| Call {X : Type} (c : call X) (k : X -> prog A)
| Go (body : prog unit) (k : prog A).
Arguments Ret {A} a.
Arguments Panic {A}.
Arguments Call {A X} c k.
Arguments Go {A} body k.

Fixpoint prog_bind {A B : Type} (f : A -> prog B) (p : prog A) : prog B :=
  match p with
  | Ret a => f a
  | Panic => Panic
  | Call c k => Call c (fun x => prog_bind f (k x))
  | Go body k => Go body (prog_bind f k)
  end.

#[global] Instance prog_mbind : MBind prog := @prog_bind.
#[global] Instance prog_mret : MRet prog := @Ret.

(** A single call, returning its answer. *)
Definition perform {X : Type} (c : call X) : prog X := Call c Ret.

(* ================================================================== *)
(** ** The collaborators: cluster API, chart repository and Tiller *)
(* ================================================================== *)

(** What Tiller installs into and deletes from: the services and secrets
    of the cluster and the releases.  Instance records (config maps of
    the broker's namespace) are kept apart: the installer never touches
    them. *)
Record Workload := {
  services : list corev1.Service;
  secrets : list corev1.Secret;
  releases : list helm.Release
}.

(** The state the broker runs against.  [faults] scripts the transport:
    each call on the cluster API consumes one entry, and an entry
    [Some err] makes that call fail with [err] without effect.  [rands]
    feeds [rand.Int31]. *)
Record World := {
  configMaps : gmap (string * string) corev1.ConfigMap;
  workload : Workload;
  faults : list (option error);
  rands : list Z
}.

(** The chart repository and Tiller, which the specification leaves
    open: any behaviour of theirs is a [Backend]. *)
Record Backend := {
  listCharts : result (gmap string (list repo.ChartVersion));
  getChart : string -> string -> result repo.ChartVersion;
  loadChart : repo.ChartVersion -> result helm.Chart;
  pingTiller : result unit;
  installReleaseFromChart :
    helm.Chart -> string -> list helm.InstallOption -> Workload ->
    result helm.Release * Workload;
  deleteRelease :
    string -> list helm.DeleteOption -> Workload -> result unit * Workload
}.

Module Cluster.

Definition withConfigMaps (m : gmap (string * string) corev1.ConfigMap) (w : World) : World :=
  {| configMaps := m; workload := workload w; faults := faults w; rands := rands w |}.

Definition withWorkload (wl : Workload) (w : World) : World :=
  {| configMaps := configMaps w; workload := wl; faults := faults w; rands := rands w |}.

Definition withFaults (f : list (option error)) (w : World) : World :=
  {| configMaps := configMaps w; workload := workload w; faults := f; rands := rands w |}.

Definition withRands (r : list Z) (w : World) : World :=
  {| configMaps := configMaps w; workload := workload w; faults := faults w; rands := r |}.

(** A call on the cluster API: it fails as the fault script says, or
    takes effect. *)
Definition apiCall {A : Type} (normal : World -> result A * World) (w : World)
    : result A * World :=
  match faults w with
  | [] => normal w
  | None :: rest => normal (withFaults rest w)
  | Some err :: rest => (Err err, withFaults rest w)
  end.

Definition notFound (kind name : string) : error :=
  StatusError StatusReasonNotFound (kind +:+ " " +:+ name +:+ " not found").

Definition alreadyExists (kind name : string) : error :=
  StatusError StatusReasonAlreadyExists (kind +:+ " " +:+ name +:+ " already exists").

(** An equality selector built by [labels.SelectorFromSet]. *)
Definition selects (labelSelector labels : gmap string string) : bool :=
  bool_decide (map_Forall (fun k v => labels !! k = Some v) labelSelector).

Definition createConfigMap (ns : string) (config : corev1.ConfigMap) (w : World)
    : result corev1.ConfigMap * World :=
  match configMaps w !! (ns, corev1.cm_Name config) with
  | Some _ => (Err (alreadyExists "configmaps" (corev1.cm_Name config)), w)
  | None =>
      (Ok config, withConfigMaps (<[(ns, corev1.cm_Name config) := config]> (configMaps w)) w)
  end.

Definition getConfigMap (ns name : string) (w : World) : result corev1.ConfigMap * World :=
  match configMaps w !! (ns, name) with
  | Some config => (Ok config, w)
  | None => (Err (notFound "configmaps" name), w)
  end.

Definition updateConfigMap (ns : string) (config : corev1.ConfigMap) (w : World)
    : result corev1.ConfigMap * World :=
  match configMaps w !! (ns, corev1.cm_Name config) with
  | Some _ =>
      (Ok config, withConfigMaps (<[(ns, corev1.cm_Name config) := config]> (configMaps w)) w)
  | None => (Err (notFound "configmaps" (corev1.cm_Name config)), w)
  end.

Definition deleteConfigMap (ns name : string) (w : World) : result unit * World :=
  match configMaps w !! (ns, name) with
  | Some _ => (Ok tt, withConfigMaps (delete (ns, name) (configMaps w)) w)
  | None => (Err (notFound "configmaps" name), w)
  end.

Definition listServices (ns : string) (labelSelector : gmap string string) (w : World)
    : result (list corev1.Service) * World :=
  (Ok (filter (fun svc => String.eqb (corev1.svc_Namespace svc) ns
                          && selects labelSelector (corev1.svc_Labels svc) = true)
              (services (workload w))), w).

Definition listSecrets (ns : string) (labelSelector : gmap string string) (w : World)
    : result (list corev1.Secret) * World :=
  (Ok (filter (fun sec => String.eqb (corev1.sec_Namespace sec) ns
                          && selects labelSelector (corev1.sec_Labels sec) = true)
              (secrets (workload w))), w).

Definition isService (ns name : string) (svc : corev1.Service) : bool :=
  String.eqb (corev1.svc_Namespace svc) ns && String.eqb (corev1.svc_Name svc) name.

Definition isSecret (ns name : string) (sec : corev1.Secret) : bool :=
  String.eqb (corev1.sec_Namespace sec) ns && String.eqb (corev1.sec_Name sec) name.

Definition relabelService (patch : gmap string string) (svc : corev1.Service) : corev1.Service :=
  {| corev1.svc_Name := corev1.svc_Name svc;
     corev1.svc_Namespace := corev1.svc_Namespace svc;
     corev1.svc_Labels := patch ∪ corev1.svc_Labels svc;
     corev1.svc_Spec := corev1.svc_Spec svc |}.

Definition relabelSecret (patch : gmap string string) (sec : corev1.Secret) : corev1.Secret :=
  {| corev1.sec_Name := corev1.sec_Name sec;
     corev1.sec_Namespace := corev1.sec_Namespace sec;
     corev1.sec_Labels := patch ∪ corev1.sec_Labels sec;
     corev1.sec_Data := corev1.sec_Data sec |}.

(** A merge patch of the labels: the labels of the patch are set, every
    other field of the object is kept. *)
Definition patchService (ns name : string) (patch : gmap string string) (w : World)
    : result corev1.Service * World :=
  match find (isService ns name) (services (workload w)) with
  | None => (Err (notFound "services" name), w)
  | Some svc =>
      let wl := workload w in
      (Ok (relabelService patch svc),
       withWorkload
         {| services := map (fun s => if isService ns name s then relabelService patch s else s)
                            (services wl);
            secrets := secrets wl;
            releases := releases wl |} w)
  end.

Definition patchSecret (ns name : string) (patch : gmap string string) (w : World)
    : result corev1.Secret * World :=
  match find (isSecret ns name) (secrets (workload w)) with
  | None => (Err (notFound "secrets" name), w)
  | Some sec =>
      let wl := workload w in
      (Ok (relabelSecret patch sec),
       withWorkload
         {| services := services wl;
            secrets := map (fun s => if isSecret ns name s then relabelSecret patch s else s)
                           (secrets wl);
            releases := releases wl |} w)
  end.

(** The answer of the collaborators to one call, and the world after it. *)
Definition handle (b : Backend) {X : Type} (c : call X) (w : World) : X * World :=
  match c in call X return X * World with
  | Helm_ListCharts => (listCharts b, w)
  | Helm_GetChart name version => (getChart b name version, w)
  | Helm_LoadChart chartDef => (loadChart b chartDef, w)
  | Tiller_PingTiller => (pingTiller b, w)
  | Tiller_InstallReleaseFromChart chart ns opts =>
      let '(r, wl) := installReleaseFromChart b chart ns opts (workload w) in
      (r, withWorkload wl w)
  | Tiller_DeleteRelease release opts =>
      let '(r, wl) := deleteRelease b release opts (workload w) in
      (r, withWorkload wl w)
  | ConfigMaps_Create ns config => apiCall (createConfigMap ns config) w
  | ConfigMaps_Get ns name => apiCall (getConfigMap ns name) w
  | ConfigMaps_Update ns config => apiCall (updateConfigMap ns config) w
  | ConfigMaps_Delete ns name => apiCall (deleteConfigMap ns name) w
  | Services_List ns labelSelector => apiCall (listServices ns labelSelector) w
  | Services_Patch ns name patch => apiCall (patchService ns name patch) w
  | Secrets_List ns labelSelector => apiCall (listSecrets ns labelSelector) w
  | Secrets_Patch ns name patch => apiCall (patchSecret ns name patch) w
  | Rand_Int31 =>
      match rands w with
      | [] => (0%Z, w)
      | n :: rest => ((n mod 2 ^ 31)%Z, withRands rest w)
      end
  end.

(** One call that was made, with the answer it got. *)
Record entry := Entry {
  entry_type : Type;
  entry_call : call entry_type;
  entry_reply : entry_type
}.
Arguments Entry {entry_type} entry_call entry_reply.

Inductive outcome (A : Type) : Type :=
| Returned (a : A)
| Panicked.
Arguments Returned {A} a.
Arguments Panicked {A}.

(** A finished run: what the function returned, the world it left, the
    goroutines it started (not yet run) and the calls it made. *)
Record Run (A : Type) := {
  returned : outcome A;
  after : World;
  spawned : list (prog unit);
  trace : list entry
}.
Arguments returned {A} r.
Arguments after {A} r.
Arguments spawned {A} r.
Arguments trace {A} r.

(** Running a function body to its end, on its own. *)
Fixpoint run (b : Backend) {A : Type} (p : prog A) (w : World) : Run A :=
  match p with
  | Ret a => {| returned := Returned a; after := w; spawned := []; trace := [] |}
  | Panic => {| returned := Panicked; after := w; spawned := []; trace := [] |}
  | Call c k =>
      let '(x, w') := handle b c w in
      let r := run b (k x) w' in
      {| returned := returned r; after := after r; spawned := spawned r;
         trace := Entry c x :: trace r |}
  | Go body k =>
      let r := run b k w in
      {| returned := returned r; after := after r; spawned := body :: spawned r;
         trace := trace r |}
  end.

(** One atomic step of a thread: a call with its answer, or the start of
    a goroutine.  A finished thread stays as it is. *)
Definition step (b : Backend) {A : Type} (p : prog A) (w : World)
    : prog A * World * list (prog unit) * list entry :=
  match p with
  | Ret a => (Ret a, w, [], [])
  | Panic => (Panic, w, [], [])
  | Call c k => let '(x, w') := handle b c w in (k x, w', [], [Entry c x])
  | Go body k => (k, w, [body], [])
  end.

(** Two requests served concurrently: their threads, the goroutines
    started so far and the shared world; each thread with the calls it
    has made. *)
Record Race := {
  first : prog (result string);
  firstTrace : list entry;
  second : prog (result string);
  secondTrace : list entry;
  background : list (prog unit);
  world : World
}.

Inductive turn :=
| TurnFirst
| TurnSecond
| TurnBackground (i : nat).

Definition advance (b : Backend) (r : Race) (t : turn) : Race :=
  match t with
  | TurnFirst =>
      let '(p, w, started, calls) := step b (first r) (world r) in
      {| first := p; firstTrace := firstTrace r ++ calls;
         second := second r; secondTrace := secondTrace r;
         background := background r ++ started; world := w |}
  | TurnSecond =>
      let '(p, w, started, calls) := step b (second r) (world r) in
      {| first := first r; firstTrace := firstTrace r;
         second := p; secondTrace := secondTrace r ++ calls;
         background := background r ++ started; world := w |}
  | TurnBackground i =>
      match background r !! i with
      | None => r
      | Some body =>
          let '(p, w, started, _) := step b body (world r) in
          {| first := first r; firstTrace := firstTrace r;
             second := second r; secondTrace := secondTrace r;
             background := <[i := p]> (background r) ++ started; world := w |}
      end
  end.

(** The race under a schedule: the turns are taken in order. *)
Definition interleave (b : Backend) (schedule : list turn) (r : Race) : Race :=
  fold_left (advance b) schedule r.

Definition finished {A : Type} (p : prog A) : bool :=
  match p with
  | Ret _ | Panic => true
  | _ => false
  end.

(** Whether a thread's calls include a create of the record [name] in
    [ns] that succeeded. *)
Definition createdRecord (ns name : string) (e : entry) : bool :=
  match e with
  | Entry (ConfigMaps_Create ns' config) (Ok _) =>
      String.eqb ns' ns && String.eqb (corev1.cm_Name config) name
  | _ => false
  end.

Definition isInstall (e : entry) : bool :=
  match e with
  | Entry (Tiller_InstallReleaseFromChart _ _ _) _ => true
  | _ => false
  end.

(** The calls that only read. *)
Definition isRead (e : entry) : bool :=
  match e with
  | Entry (ConfigMaps_Get _ _) _
  | Entry (Services_List _ _) _
  | Entry (Secrets_List _ _) _ => true
  | _ => false
  end.

(** The one call that removes an instance record. *)
Definition isRecordDelete {X : Type} (c : call X) : bool :=
  match c with
  | ConfigMaps_Delete _ _ => true
  | _ => false
  end.

(** A program that never deletes an instance record, whatever answers
    it gets, and neither do the goroutines it starts. *)
Inductive keepsRecords : forall A : Type, prog A -> Prop :=
| keeps_Ret (A : Type) (a : A) : keepsRecords A (Ret a)
| keeps_Panic (A : Type) : keepsRecords A Panic
| keeps_Call (A X : Type) (c : call X) (k : X -> prog A) :
    isRecordDelete c = false ->
    (forall x, keepsRecords A (k x)) ->
    keepsRecords A (Call c k)
| keeps_Go (A : Type) (body : prog unit) (k : prog A) :
    keepsRecords unit body ->
    keepsRecords A k ->
    keepsRecords A (Go body k).
Arguments keepsRecords {A} p.

(** [n] steps of one thread on its own. *)
Fixpoint drive (b : Backend) {A : Type} (n : nat) (p : prog A) (w : World)
    : prog A * World * list (prog unit) * list entry :=
  match n with
  | O => (p, w, [], [])
  | S n' =>
      let '(p1, w1, started1, calls1) := step b p w in
      let '(p2, w2, started2, calls2) := drive b n' p1 w1 in
      (p2, w2, started1 ++ started2, calls1 ++ calls2)
  end.

End Cluster.

(* ================================================================== *)
(** ** package minibroker *)
(* ================================================================== *)

Module minibroker.
Import GoStrings.

Definition InstanceLabel := "minibroker.instance".
Definition ServiceKey := "service-id".
Definition PlanKey := "plan-id".
Definition ProvisionParamsKey := "provision-params".
Definition ReleaseNamespaceKey := "release-namespace".
Definition HeritageLabel := "heritage".
Definition ReleaseLabel := "release".
Definition TillerHeritage := "Tiller".

Definition OperationNameKey := "last-operation-name".
Definition OperationStateKey := "last-operation-state".
Definition OperationDescriptionKey := "last-operation-description".

Definition ConcurrencyErrorMessage := "ConcurrencyError".
Definition ConcurrencyErrorDescription := "Concurrent modification not supported".

Definition OperationPrefixProvision := "provision-".
Definition OperationPrefixDeprovision := "deprovision-".

(** The fields of [Client] that are plain data; [helm] and [coreClient]
    are the collaborators reached through the calls of [prog] below. *)
Record Client := {
  namespace : string;
  providers : gmap string Provider;
  serviceCatalogEnabledOnly : bool
}.

Fixpoint hasTag (tag : string) (list : list string) : bool :=
  match list with
  | [] => false
  | listTag :: rest => if String.eqb listTag tag then true else hasTag tag rest
  end.

Definition getTagIntersection (chartVersions : list repo.ChartVersion) : list string :=
  let tagList := map repo.Keywords chartVersions in
  match tagList with
  | [] => []
  | [only] => only
  | first :: others =>
      filter (fun searchTag => forallb (hasTag searchTag) others) first
  end.

Section Catalog.
(** github.com/Masterminds/semver: the parsed versions, the parser
    ([None] for its error) and the comparison. *)
Variable SemVersion : Type.
Variable NewVersion : string -> option SemVersion.
Variable GreaterThan : SemVersion -> SemVersion -> bool.

(** One iteration of the loop over [chartVersions] that fills
    [appVersions].  [None] is the nil dereference Go would hit in
    [GreaterThan] if the stored maximum did not parse. *)
Definition keepHighest (appVersions : gmap string repo.ChartVersion)
    (chartVersion : repo.ChartVersion) : option (gmap string repo.ChartVersion) :=
  if String.eqb (repo.AppVersion chartVersion) "" then Some appVersions
  else match NewVersion (repo.Version chartVersion) with
       | None => Some appVersions
       | Some curV =>
           match appVersions !! repo.AppVersion chartVersion with
           | None => Some (<[repo.AppVersion chartVersion := chartVersion]> appVersions)
           | Some currentMax =>
               match NewVersion (repo.Version currentMax) with
               | None => None
               | Some maxV =>
                   if GreaterThan curV maxV
                   then Some (<[repo.AppVersion chartVersion := chartVersion]> appVersions)
                   else Some appVersions
               end
           end
       end.

Fixpoint collectAppVersions (appVersions : gmap string repo.ChartVersion)
    (chartVersions : list repo.ChartVersion) : option (gmap string repo.ChartVersion) :=
  match chartVersions with
  | [] => Some appVersions
  | chartVersion :: rest =>
      match keepHighest appVersions chartVersion with
      | None => None
      | Some appVersions' => collectAppVersions appVersions' rest
      end
  end.

(** The body of the loop over [appVersions]: the plan of one retained
    descriptor. *)
Definition makePlan (chart : string) (chartVersion : repo.ChartVersion) : osb.Plan :=
  let planToken := chart +:+ "@" +:+ repo.AppVersion chartVersion in
  let planID := cleaner_ReplaceAllString (ToLower planToken) in
  let planName := cleaner_ReplaceAllString (repo.AppVersion chartVersion) in
  {| osb.plan_ID := planID;
     osb.plan_Name := planName;
     osb.plan_Description := repo.Description chartVersion;
     osb.plan_Free := Some true |}.

(** The body of the loop over [charts] up to the emptiness test: the
    service of one chart.  Go ranges over the map [appVersions] in an
    unspecified order; here the plans come in the order of
    [map_to_list]. *)
Definition buildService (chart : string) (chartVersions : list repo.ChartVersion)
    : option osb.Service :=
  let tags := getTagIntersection chartVersions in
  match collectAppVersions ∅ chartVersions with
  | None => None
  | Some appVersions =>
      Some {| osb.ID := chart;
              osb.Name := chart;
              osb.Description := "Helm Chart for " +:+ chart;
              osb.Bindable := true;
              osb.Plans := map (fun kv => makePlan chart kv.2) (map_to_list appVersions);
              osb.Tags := tags |}
  end.

(** The loop of [ListServices] over the charts that [ListCharts]
    returned (in the order of [map_to_list]; Go's is unspecified). *)
Fixpoint listServicesLoop (c : Client) (charts : list (string * list repo.ChartVersion))
    (services : list osb.Service) : option (list osb.Service) :=
  match charts with
  | [] => Some services
  | (chart, chartVersions) :: rest =>
      if negb (bool_decide (is_Some (providers c !! chart))) && serviceCatalogEnabledOnly c
      then listServicesLoop c rest services
      else match buildService chart chartVersions with
           | None => None
           | Some svc =>
               if Nat.eqb (length (osb.Plans svc)) 0
               then listServicesLoop c rest services
               else listServicesLoop c rest (services ++ [svc])
           end
  end.
End Catalog.


(** [fmt.Sprintf("%x", n)] for the 31-bit result of [rand.Int31]. *)
Definition hexDigit (d : Z) : ascii :=
  ascii_of_nat (Z.to_nat (if (d <? 10)%Z then 48 + d else 87 + d)%Z).

Fixpoint hexLoop (fuel : nat) (n : Z) (acc : string) : string :=
  match fuel with
  | O => acc
  | S fuel' =>
      let acc' := String (hexDigit (n mod 16)) acc in
      if (n / 16 =? 0)%Z then acc' else hexLoop fuel' (n / 16) acc'
  end.

Definition formatHex (n : Z) : string := hexLoop 8 n "".

(** The label difference that [strategicpatch.CreateTwoWayMergePatch]
    computes between an object and its relabelled copy: the labels of
    the copy that the original does not already carry. *)
Definition labelsPatch (original modified : gmap string string) : gmap string string :=
  filter (fun kv => original !! kv.1 <> Some kv.2) modified.

(** [for _, x := range items { if err := f(x); err != nil { return err } }] *)
Fixpoint forEach {A : Type} (f : A -> prog (result unit)) (items : list A)
    : prog (result unit) :=
  match items with
  | [] => mret (Ok tt)
  | x :: rest =>
      r ← f x;
      match r with
      | Err err => mret (Err err)
      | Ok _ => forEach f rest
      end
  end.

Section Broker.
(** encoding/json, gopkg.in/yaml.v2 and the [%q] verb of fmt. *)
Variable json_Marshal : gmap string Value -> result string.
Variable json_Unmarshal : string -> result (gmap string Value).
Variable yaml_Marshal : gmap string Value -> result string.
Variable Quote : string -> string.

(** github.com/Masterminds/semver, as in [Catalog]. *)
Variable SemVersion : Type.
Variable NewVersion : string -> option SemVersion.
Variable GreaterThan : SemVersion -> SemVersion -> bool.

Definition generateOperationName (prefix : string) : prog string :=
  n ← perform Rand_Int31;
  mret (prefix +:+ formatHex n).

Definition getConfigMap (c : Client) (instanceID : string)
    : prog (result corev1.ConfigMap) :=
  r ← perform (ConfigMaps_Get (namespace c) instanceID);
  match r with
  | Err err =>
      mret (Err (Wrapf err "Failed to get config for instance %q" [VStr instanceID]))
  | Ok config => mret (Ok config)
  end.

(** The loop of [updateConfigMap] over [data]: [None] is Go's [nil]
    (the key is removed), [Some s] a string (the key is set).  Every
    caller passes strings, so the panic on other values is excluded by
    the type. *)
Definition applyData (data : gmap string (option string))
    (configData : gmap string string) : gmap string string :=
  map_fold (fun name value acc =>
              match value with
              | None => delete name acc
              | Some stringValue => <[name := stringValue]> acc
              end) configData data.

Definition updateConfigMap (c : Client) (instanceID : string)
    (data : gmap string (option string)) : prog (result unit) :=
  r ← getConfigMap c instanceID;
  match r with
  | Err err => mret (Err err)
  | Ok config =>
      let config' :=
        {| corev1.cm_Name := corev1.cm_Name config;
           corev1.cm_Namespace := corev1.cm_Namespace config;
           corev1.cm_Labels := corev1.cm_Labels config;
           corev1.cm_Data := applyData data (corev1.cm_Data config) |} in
      r ← perform (ConfigMaps_Update (namespace c) config');
      match r with
      | Err err =>
          mret (Err (Wrapf err "Failed to update config for instance %q" [VStr instanceID]))
      | Ok _ => mret (Ok tt)
      end
  end.

Definition ListServices (c : Client) : prog (result (list osb.Service)) :=
  r ← perform Helm_ListCharts;
  match r with
  | Err err => mret (Err err)
  | Ok charts =>
      match listServicesLoop SemVersion NewVersion GreaterThan c (map_to_list charts) [] with
      | None => Panic
      | Some services => mret (Ok services)
      end
  end.

Definition connectTiller (c : Client) : prog (result unit) :=
  r ← perform Tiller_PingTiller;
  match r with
  | Err err => mret (Err err)
  | Ok _ => mret (Ok tt)
  end.

Definition installRelease (c : Client) (chartName chartVersion namespace : string)
    (provisionParams : gmap string Value) (opts : list helm.InstallOption)
    : prog (result helm.Release) :=
  r ← perform (Helm_GetChart chartName chartVersion);
  match r with
  | Err err => mret (Err err)
  | Ok chartDef =>
      r ← connectTiller c;
      match r with
      | Err err => mret (Err err)
      | Ok _ =>
          r ← perform (Helm_LoadChart chartDef);
          match r with
          | Err err => mret (Err err)
          | Ok chart =>
              match yaml_Marshal provisionParams with
              | Err err => mret (Err err)
              | Ok valuesYaml =>
                  let allOpts :=
                    [helm.ValueOverrides valuesYaml;
                     helm.InstallReuseName true;
                     helm.InstallDisableHooks true] ++ opts in
                  perform (Tiller_InstallReleaseFromChart chart namespace allOpts)
              end
          end
      end
  end.

(** The marshalling of an object and of its relabelled copy, and the
    computation of the patch, cannot fail on objects the API returned;
    their error returns are left out. *)
Definition labelService (c : Client) (service : corev1.Service) (instanceID : string)
    (params : gmap string Value) : prog (result unit) :=
  let labeledLabels := <[InstanceLabel := instanceID]> (corev1.svc_Labels service) in
  let patch := labelsPatch (corev1.svc_Labels service) labeledLabels in
  r ← perform (Services_Patch (corev1.svc_Namespace service) (corev1.svc_Name service) patch);
  match r with
  | Err err =>
      mret (Err (Wrapf err "failed to label service %s/%s with service metadata"
                   [VStr (corev1.svc_Namespace service); VStr (corev1.svc_Name service)]))
  | Ok _ => mret (Ok tt)
  end.

Definition labelSecret (c : Client) (secret : corev1.Secret) (instanceID : string)
    : prog (result unit) :=
  let labeledLabels := <[InstanceLabel := instanceID]> (corev1.sec_Labels secret) in
  let patch := labelsPatch (corev1.sec_Labels secret) labeledLabels in
  r ← perform (Secrets_Patch (corev1.sec_Namespace secret) (corev1.sec_Name secret) patch);
  match r with
  | Err err =>
      mret (Err (Wrapf err "failed to label secret %s/%s with service metadata"
                   [VStr (corev1.sec_Namespace secret); VStr (corev1.sec_Name secret)]))
  | Ok _ => mret (Ok tt)
  end.

Definition updateProvisioningState (c : Client) (releaseName instanceID namespace : string)
    (provisionParams : gmap string Value) : prog (result unit) :=
  let filterByRelease : gmap string string :=
    <[HeritageLabel := TillerHeritage]> (<[ReleaseLabel := releaseName]> ∅) in
  r ← perform (Services_List namespace filterByRelease);
  match r with
  | Err err => mret (Err err)
  | Ok services =>
      r ← forEach (fun service => labelService c service instanceID provisionParams) services;
      match r with
      | Err err => mret (Err err)
      | Ok _ =>
          r ← perform (Secrets_List namespace filterByRelease);
          match r with
          | Err err => mret (Err err)
          | Ok secrets =>
              r ← forEach (fun secret => labelSecret c secret instanceID) secrets;
              match r with
              | Err err => mret (Err err)
              | Ok _ =>
                  r ← updateConfigMap c instanceID
                        (<[ReleaseLabel := Some releaseName]>
                           (<[ReleaseNamespaceKey := Some namespace]> ∅));
                  match r with
                  | Err err =>
                      mret (Err (Wrapf err "could not update the instance configmap for %q"
                                   [VStr instanceID]))
                  | Ok _ => mret (Ok tt)
                  end
              end
          end
      end
  end.

(** What [Provision] takes for the chart version: the plan ID without
    the first [serviceID-], its dashes turned into dots. *)
Definition chartVersionOf (serviceID planID : string) : string :=
  let chartVersion := Replace planID (serviceID +:+ "-") "" 1 in
  Replace chartVersion "-" "." (-1).

(** The [fail] closure of the goroutine of [Provision]. *)
Definition provisionFail (c : Client) (instanceID : string) (err : error) : prog unit :=
  _ ← updateConfigMap c instanceID
        (<[OperationStateKey := Some osb.StateFailed]>
           (<[OperationDescriptionKey :=
                Some ("service instance " +:+ Quote instanceID +:+ " failed to provision")]> ∅));
  mret tt.

(** The goroutine of [Provision]. *)
Definition provisionInBackground (c : Client)
    (instanceID chartName chartVersion namespace : string)
    (provisionParams : gmap string Value) : prog unit :=
  r ← installRelease c chartName chartVersion namespace provisionParams
        [helm.InstallWait true];
  match r with
  | Err err => provisionFail c instanceID err
  | Ok resp =>
      r ← updateProvisioningState c (helm.rel_Name resp) instanceID
            (helm.rel_Namespace resp) provisionParams;
      match r with
      | Err err => provisionFail c instanceID err
      | Ok _ =>
          _ ← updateConfigMap c instanceID
                (<[OperationStateKey := Some osb.StateSucceeded]>
                   (<[OperationDescriptionKey :=
                        Some ("service instance " +:+ Quote instanceID +:+ " provisioned")]> ∅));
          mret tt
      end
  end.

(** [Provision] from the answer of the create call on. *)
Definition provisionAdmitted (c : Client) (instanceID serviceID planID namespace : string)
    (acceptsIncomplete : bool) (provisionParams : gmap string Value)
    (created : result corev1.ConfigMap) : prog (result string) :=
  let chartName := serviceID in
  let chartVersion := chartVersionOf serviceID planID in
  match created with
  | Err err =>
      if apierrors.IsAlreadyExists err
      then mret (Err (HTTPStatusCodeError http.StatusConflict
                        (Some ConcurrencyErrorMessage)
                        (Some ConcurrencyErrorDescription)))
      else mret (Err (Wrapf err "could not persist the instance configmap for %q"
                        [VStr instanceID]))
  | Ok _ =>
      if acceptsIncomplete
      then
        operationKey ← generateOperationName OperationPrefixProvision;
        r ← updateConfigMap c instanceID
              (<[OperationStateKey := Some osb.StateInProgress]>
                 (<[OperationNameKey := Some operationKey]>
                    (<[OperationDescriptionKey :=
                         Some ("provisioning service instance " +:+ Quote instanceID)]> ∅)));
        match r with
        | Err err =>
            mret (Err (Wrapf err "Failed to set operation key when provisioning instance %s"
                         [VStr instanceID]))
        | Ok _ =>
            Go (provisionInBackground c instanceID chartName chartVersion namespace
                  provisionParams)
               (mret (Ok operationKey))
        end
      else
        r ← installRelease c chartName chartVersion namespace provisionParams [];
        match r with
        | Err err => mret (Err err)
        | Ok resp =>
            r ← updateProvisioningState c (helm.rel_Name resp) instanceID
                  (helm.rel_Namespace resp) provisionParams;
            match r with
            | Err err => mret (Err err)
            | Ok _ => mret (Ok "")
            end
        end
  end.

Definition Provision (c : Client) (instanceID serviceID planID namespace : string)
    (acceptsIncomplete : bool) (provisionParams : gmap string Value)
    : prog (result string) :=
  match json_Marshal provisionParams with
  | Err err =>
      mret (Err (Wrapf err "could not marshall provisioning parameters %v"
                   [VMap (map_to_list provisionParams)]))
  | Ok paramsJSON =>
      let config :=
        {| corev1.cm_Name := instanceID;
           corev1.cm_Namespace := minibroker.namespace c;
           corev1.cm_Labels :=
             <[ServiceKey := serviceID]> (<[PlanKey := planID]> ∅);
           corev1.cm_Data :=
             <[ProvisionParamsKey := paramsJSON]>
               (<[ServiceKey := serviceID]> (<[PlanKey := planID]> ∅)) |} in
      created ← perform (ConfigMaps_Create (corev1.cm_Namespace config) config);
      provisionAdmitted c instanceID serviceID planID namespace acceptsIncomplete
        provisionParams created
  end.

(** "Smoosh all the params together": the two loops of [Bind] that
    fill [params]. *)
Definition mergeParams (provisionParams bindParams : gmap string Value)
    : gmap string Value :=
  let params : gmap string Value := ∅ in
  let params := map_fold (fun k v params => <[k := v]> params) params provisionParams in
  map_fold (fun k v params => <[k := v]> params) params bindParams.

(** The loops of [Bind] over the secrets and their entries. *)
Definition secretData (secrets : list corev1.Secret) : gmap string Value :=
  fold_left
    (fun data secret =>
       map_fold (fun key value data => <[key := VStr value]> data)
                data (corev1.sec_Data secret))
    secrets ∅.

Definition Bind (c : Client) (instanceID serviceID : string)
    (bindParams : gmap string Value) : prog (result (gmap string Value)) :=
  r ← perform (ConfigMaps_Get (namespace c) instanceID);
  match r with
  | Err err =>
      if apierrors.IsNotFound err
      then
        let msg := "could not find configmap " +:+ namespace c +:+ "/" +:+ instanceID in
        mret (Err (HTTPStatusCodeError http.StatusNotFound (Some msg) None))
      else mret (Err err)
  | Ok config =>
      let releaseNamespace := strIndex (corev1.cm_Data config) ReleaseNamespaceKey in
      let rawProvisionParams := strIndex (corev1.cm_Data config) ProvisionParamsKey in
      match json_Unmarshal rawProvisionParams with
      | Err err =>
          mret (Err (Wrapf err "could not unmarshall provision parameters for instance %q"
                       [VStr instanceID]))
      | Ok provisionParams =>
          let params := mergeParams provisionParams bindParams in
          let filterByInstance : gmap string string := <[InstanceLabel := instanceID]> ∅ in
          r ← perform (Services_List releaseNamespace filterByInstance);
          match r with
          | Err err => mret (Err err)
          | Ok services =>
              if Nat.eqb (length services) 0
              then mret (Err (HTTPStatusCodeError http.StatusNotFound None None))
              else
                r ← perform (Secrets_List releaseNamespace filterByInstance);
                match r with
                | Err err => mret (Err err)
                | Ok secrets =>
                    if Nat.eqb (length secrets) 0
                    then mret (Err (HTTPStatusCodeError http.StatusNotFound None None))
                    else
                      let data := secretData secrets in
                      match providers c !! serviceID with
                      | Some provider =>
                          match provider services params data with
                          | Err err =>
                              mret (Err (Wrapf err "unable to bind instance %s"
                                           [VStr instanceID]))
                          | Ok creds =>
                              mret (Ok (map_fold (fun k v data => <[k := v]> data) data creds))
                          end
                      | None => mret (Ok data)
                      end
                end
          end
      end
  end.

Definition deprovisionSynchronously (c : Client) (instanceID release : string)
    : prog (result unit) :=
  r ← connectTiller c;
  match r with
  | Err err => mret (Err err)
  | Ok _ =>
      let opts := [helm.DeleteDisableHooks false; helm.DeletePurge true] in
      r ← perform (Tiller_DeleteRelease release opts);
      match r with
      | Err err => mret (Err (Wrapf err "could not delete release %s" [VStr release]))
      | Ok _ =>
          r ← perform (ConfigMaps_Delete (namespace c) instanceID);
          match r with
          | Err err =>
              mret (Err (Wrapf err "could not delete configmap %s/%s"
                           [VStr (namespace c); VStr instanceID]))
          | Ok _ => mret (Ok tt)
          end
      end
  end.

(** The goroutine of [Deprovision]. *)
Definition deprovisionInBackground (c : Client) (instanceID release : string) : prog unit :=
  r ← deprovisionSynchronously c instanceID release;
  match r with
  | Ok _ => mret tt
  | Err err =>
      _ ← updateConfigMap c instanceID
            (<[OperationStateKey := Some osb.StateFailed]>
               (<[OperationDescriptionKey :=
                    Some ("service instance " +:+ Quote instanceID +:+ " failed to deprovision")]> ∅));
      mret tt
  end.

Definition Deprovision (c : Client) (instanceID : string) (acceptsIncomplete : bool)
    : prog (result string) :=
  r ← perform (ConfigMaps_Get (namespace c) instanceID);
  match r with
  | Err err =>
      if apierrors.IsNotFound err
      then mret (Err (HTTPStatusCodeError http.StatusGone None None))
      else mret (Err err)
  | Ok config =>
      let release := strIndex (corev1.cm_Data config) ReleaseLabel in
      if negb acceptsIncomplete
      then
        r ← deprovisionSynchronously c instanceID release;
        match r with
        | Err err => mret (Err err)
        | Ok _ => mret (Ok "")
        end
      else
        operationKey ← generateOperationName OperationPrefixDeprovision;
        r ← updateConfigMap c instanceID
              (<[OperationStateKey := Some osb.StateInProgress]>
                 (<[OperationNameKey := Some operationKey]>
                    (<[OperationDescriptionKey :=
                         Some ("deprovisioning service instance " +:+ Quote instanceID)]> ∅)));
        match r with
        | Err err =>
            mret (Err (Wrapf err "Failed to set operation key when deprovisioning instance %s"
                         [VStr instanceID]))
        | Ok _ =>
            Go (deprovisionInBackground c instanceID release) (mret (Ok operationKey))
        end
  end.

(** [operationKey] is [None] for Go's nil pointer. *)
Definition LastOperationState (c : Client) (instanceID : string)
    (operationKey : option string) : prog (result osb.LastOperationResponse) :=
  r ← perform (ConfigMaps_Get (namespace c) instanceID);
  match r with
  | Err err =>
      if apierrors.IsNotFound err
      then mret (Err (HTTPStatusCodeError http.StatusGone None None))
      else mret (Err err)
  | Ok config =>
      let unexpected :=
        match operationKey with
        | None => false
        | Some key =>
            negb (String.eqb (strIndex (corev1.cm_Data config) OperationNameKey) key)
        end in
      if unexpected
      then mret (Err (HTTPStatusCodeError http.StatusBadRequest
                        (Some ConcurrencyErrorMessage)
                        (Some ConcurrencyErrorDescription)))
      else
        let description := strIndex (corev1.cm_Data config) OperationDescriptionKey in
        mret (Ok {| osb.State := strIndex (corev1.cm_Data config) OperationStateKey;
                    osb.resp_Description := Some description |})
  end.
End Broker.

End minibroker.

(* ================================================================== *)
(** ** The words of the specification *)
(* ================================================================== *)

Module Spec.
Import GoStrings.




(** [version] contains a dash. *)
Definition hasDash (version : string) : Prop :=
  exists i, String.get i version = Some "-"%char.

(** The merge of the specification: the bind-time value where there is
    one, the stored value otherwise. *)
Definition mergedParams (provisionParams bindParams merged : gmap string Value) : Prop :=
  forall k, merged !! k =
            match bindParams !! k with
            | Some v => Some v
            | None => provisionParams !! k
            end.


Section Retained.
Variable SemVersion : Type.
Variable NewVersion : string -> option SemVersion.
Variable GreaterThan : SemVersion -> SemVersion -> bool.

(** A descriptor that is not skipped: its appVersion is not empty and
    its version parses. *)
Definition valid (cv : repo.ChartVersion) : Prop :=
  repo.AppVersion cv <> EmptyString /\ is_Some (NewVersion (repo.Version cv)).

(** The version of [other] is not greater than the one of [cv]. *)
Definition notExceededBy (cv other : repo.ChartVersion) : Prop :=
  forall v v', NewVersion (repo.Version cv) = Some v ->
               NewVersion (repo.Version other) = Some v' ->
               GreaterThan v' v = false.

(** [cv] is a valid descriptor of [cvs] with appVersion [a] whose
    version is the highest among the valid descriptors sharing [a]. *)
Definition highestOf (cvs : list repo.ChartVersion) (a : string) (cv : repo.ChartVersion)
    : Prop :=
  cv ∈ cvs /\ repo.AppVersion cv = a /\ valid cv /\
  forall other, other ∈ cvs -> repo.AppVersion other = a -> notExceededBy cv other.

(** [retained] holds, for each appVersion of a valid descriptor of
    [cvs] and for no other key, a highest descriptor. *)
Definition retains (cvs : list repo.ChartVersion) (retained : gmap string repo.ChartVersion)
    : Prop :=
  (forall a cv, retained !! a = Some cv -> highestOf cvs a cv) /\
  (forall cv, cv ∈ cvs -> valid cv -> is_Some (retained !! repo.AppVersion cv)).

(** Every stored descriptor has a version that parses. *)
Definition allParse (retained : gmap string repo.ChartVersion) : Prop :=
  forall a cv, retained !! a = Some cv -> is_Some (NewVersion (repo.Version cv)).
End Retained.


(** The descriptors [(pg, version, app=appVersion)] of the
    specification's example; description and keywords are free. *)
Definition pgDescriptor (version appVersion description : string) (keywords : list string)
    : repo.ChartVersion :=
  {| repo.Name := "pg";
     repo.Version := version;
     repo.AppVersion := appVersion;
     repo.Description := description;
     repo.Keywords := keywords |}.


(** The services and the secrets that carry the instance label in a
    namespace. *)
Definition labelledServices (instanceID ns : string) (w : World) : list corev1.Service :=
  filter (fun svc => corev1.svc_Namespace svc = ns /\
                     corev1.svc_Labels svc !! minibroker.InstanceLabel = Some instanceID)
         (services (workload w)).

Definition labelledSecrets (instanceID ns : string) (w : World) : list corev1.Secret :=
  filter (fun sec => corev1.sec_Namespace sec = ns /\
                     corev1.sec_Labels sec !! minibroker.InstanceLabel = Some instanceID)
         (secrets (workload w)).

End Spec.

(* ================================================================== *)
(** ** Two provision requests for one instance *)
(* ================================================================== *)

Module Admission.
Import Cluster minibroker.

(** What a provision request carries besides the instance ID. *)
Record request := {
  req_serviceID : string;
  req_planID : string;
  req_namespace : string;
  req_acceptsIncomplete : bool;
  req_params : gmap string Value
}.

(** The Conflict error of [Provision]. *)
Definition conflict : result string :=
  Err (HTTPStatusCodeError http.StatusConflict
         (Some ConcurrencyErrorMessage) (Some ConcurrencyErrorDescription)).

Section Admission.
Variable json_Marshal : gmap string Value -> result string.
Variable yaml_Marshal : gmap string Value -> result string.
Variable Quote : string -> string.
Variable c : Client.
Variable instanceID : string.

Definition serve (q : request) : prog (result string) :=
  Provision json_Marshal yaml_Marshal Quote c instanceID
    (req_serviceID q) (req_planID q) (req_namespace q)
    (req_acceptsIncomplete q) (req_params q).

(** Two requests for [instanceID] arriving together in [w]. *)
Definition arrival (q1 q2 : request) (w : World) : Race :=
  {| first := serve q1; firstTrace := [];
     second := serve q2; secondTrace := [];
     background := []; world := w |}.

(** A thread has created the record: one of its calls is a create of
    the record of [instanceID] that succeeded. *)
Definition won (calls : list entry) : bool :=
  existsb (createdRecord (namespace c) instanceID) calls.

(** The stages of a request: not started, past a successful create, or
    returned with Conflict. *)
Definition waiting (q : request) (p : prog (result string)) (calls : list entry) : Prop :=
  p = serve q /\ calls = [].

Definition admitted (p : prog (result string)) (calls : list entry) : Prop :=
  won calls = true /\ keepsRecords p.

Definition refused (p : prog (result string)) (calls : list entry) : Prop :=
  p = Ret conflict /\ won calls = false /\ calls <> [].

Definition recorded (w : World) : Prop :=
  is_Some (configMaps w !! (namespace c, instanceID)).

(** Exactly one of the two requests has created the record, and the
    other has returned Conflict. *)
Definition oneAdmitted (r : Race) : Prop :=
  (won (firstTrace r) = true /\ won (secondTrace r) = false /\ second r = Ret conflict) \/
  (won (secondTrace r) = true /\ won (firstTrace r) = false /\ first r = Ret conflict).

(** What holds of the race at every moment. *)
Definition raceInvariant (q1 q2 : request) (r : Race) : Prop :=
  faults (world r) = [] /\
  Forall (fun body => keepsRecords body) (background r) /\
  ((waiting q1 (first r) (firstTrace r) /\ waiting q2 (second r) (secondTrace r) /\
    background r = [] /\ configMaps (world r) !! (namespace c, instanceID) = None)
   \/ (admitted (first r) (firstTrace r) /\ waiting q2 (second r) (secondTrace r) /\
       recorded (world r))
   \/ (waiting q1 (first r) (firstTrace r) /\ admitted (second r) (secondTrace r) /\
       recorded (world r))
   \/ (admitted (first r) (firstTrace r) /\ refused (second r) (secondTrace r) /\
       recorded (world r))
   \/ (refused (first r) (firstTrace r) /\ admitted (second r) (secondTrace r) /\
       recorded (world r))).
End Admission.

End Admission.

(* ================================================================== *)
(** ** Sample collaborators and worlds *)
(* ================================================================== *)

(** Concrete collaborators on which the operations can be evaluated:
    a parser of dotted numeric versions, a codec that knows one
    document, a repository with one chart and an installer that creates
    one service and one secret per release. *)
Module Sample.
Import GoStrings.

Fixpoint digitsValue (s : string) (acc : N) : option N :=
  match s with
  | EmptyString => Some acc
  | String c rest =>
      if isDigit c
      then digitsValue rest (acc * 10 + (N_of_ascii c - 48))%N
      else None
  end.

Definition number (s : string) : option N :=
  match s with
  | EmptyString => None
  | _ => digitsValue s 0%N
  end.

Fixpoint splitDots (s : string) (field : string) : list string :=
  match s with
  | EmptyString => [field]
  | String c rest =>
      if Ascii.eqb c "."
      then field :: splitDots rest EmptyString
      else splitDots rest (field +:+ String c EmptyString)
  end.

Definition SemVersion : Type := N * N * N.

Definition NewVersion (s : string) : option SemVersion :=
  match splitDots s EmptyString with
  | [major; minor; patch] =>
      match number major, number minor, number patch with
      | Some a, Some b, Some c => Some (a, b, c)
      | _, _, _ => None
      end
  | _ => None
  end.

Definition GreaterThan (v o : SemVersion) : bool :=
  let '(a, b, c) := v in
  let '(a', b', c') := o in
  match (a ?= a')%N with
  | Gt => true
  | Lt => false
  | Eq =>
      match (b ?= b')%N with
      | Gt => true
      | Lt => false
      | Eq => match (c ?= c')%N with Gt => true | _ => false end
      end
  end.

Definition a1 : gmap string Value := <["a" := VNum 1]> ∅.
Definition a2b3 : gmap string Value := <["a" := VNum 2]> (<["b" := VNum 3]> ∅).

Definition json_Marshal (params : gmap string Value) : result string :=
  Ok (if bool_decide (dom params = dom a1) then "{a:1}" else "{}").

Definition json_Unmarshal (raw : string) : result (gmap string Value) :=
  if String.eqb raw "{a:1}" then Ok a1
  else if String.eqb raw "{}" then Ok ∅
  else Err (errorString "invalid character").

Definition yaml_Marshal (params : gmap string Value) : result string :=
  Ok (if bool_decide (dom params = dom a1) then "a: 1" else "{}").

Definition Quote (s : string) : string :=
  String (ascii_of_nat 34) (s +:+ String (ascii_of_nat 34) EmptyString).

Definition pg (version appVersion : string) : repo.ChartVersion :=
  {| repo.Name := "pg";
     repo.Version := version;
     repo.AppVersion := appVersion;
     repo.Description := "pg " +:+ version;
     repo.Keywords := ["database"; "sql"] |}.

Definition pgVersions : list repo.ChartVersion :=
  [pg "1.0.0" "9.6"; pg "1.1.0" "9.6"; pg "2.0.0" "10.1"].

Definition tillerLabels (release : string) : gmap string string :=
  <["heritage" := "Tiller"]> (<["release" := release]> ∅).

Definition backend : Backend :=
  {| listCharts := Ok (<["pg" := pgVersions]> ∅);
     getChart name version :=
       match find (fun cv => String.eqb (repo.AppVersion cv) version) pgVersions with
       | Some cv => if String.eqb name "pg" then Ok cv else Err (errorString "no such chart")
       | None => Err (errorString "no such chart")
       end;
     loadChart chartDef := Ok (helm.LoadedChart (repo.Name chartDef));
     pingTiller := Ok tt;
     installReleaseFromChart chart ns opts wl :=
       let name := "release-" +:+ ns in
       (Ok {| helm.rel_Name := name; helm.rel_Namespace := ns;
              helm.rel_Version := 1; helm.rel_Manifest := "" |},
        {| services :=
             {| corev1.svc_Name := name; corev1.svc_Namespace := ns;
                corev1.svc_Labels := tillerLabels name; corev1.svc_Spec := "5432" |}
             :: services wl;
           secrets :=
             {| corev1.sec_Name := name; corev1.sec_Namespace := ns;
                corev1.sec_Labels := tillerLabels name;
                corev1.sec_Data := <["password" := "secret"]> ∅ |}
             :: secrets wl;
           releases :=
             {| helm.rel_Name := name; helm.rel_Namespace := ns;
                helm.rel_Version := 1; helm.rel_Manifest := "" |} :: releases wl |});
     deleteRelease release opts wl :=
       (Ok tt,
        {| services := services wl; secrets := secrets wl;
           releases := filter (fun r => helm.rel_Name r <> release) (releases wl) |}) |}.

Definition client : minibroker.Client :=
  {| minibroker.namespace := "minibroker";
     minibroker.providers :=
       <["pg" := (fun _ params _ => Ok params) : Provider]> ∅;
     minibroker.serviceCatalogEnabledOnly := false |}.

Definition emptyWorld : World :=
  {| configMaps := ∅;
     workload := {| services := []; secrets := []; releases := [] |};
     faults := [];
     rands := [] |}.

(** The operations of the broker with the sample libraries. *)
Definition Provision := minibroker.Provision json_Marshal yaml_Marshal Quote.
Definition Bind := minibroker.Bind json_Unmarshal.
Definition Deprovision := minibroker.Deprovision Quote.
Definition buildService := minibroker.buildService SemVersion NewVersion GreaterThan.

(** The world after a synchronous provision of instance [i1] with the
    parameters [{a:1}] into namespace [apps]. *)
Definition provisionedWorld : World :=
  Cluster.after
    (Cluster.run backend (Provision client "i1" "pg" "pg-9-6" "apps" false a1) emptyWorld).


(** The world after an accepted asynchronous provision of [i2], before
    its goroutine has run. *)
Definition asyncWorld : World :=
  Cluster.after
    (Cluster.run backend (Provision client "i2" "pg" "pg-9-6" "apps" true a1) emptyWorld).

(** The record of an instance in a world (an empty one if there is
    none). *)
Definition recordOf (instanceID : string) (w : World) : corev1.ConfigMap :=
  default {| corev1.cm_Name := instanceID; corev1.cm_Namespace := "minibroker";
             corev1.cm_Labels := ∅; corev1.cm_Data := ∅ |}
          (configMaps w !! ("minibroker", instanceID)).

(** Two provision requests for one instance, one asynchronous. *)
Definition request1 : Admission.request :=
  {| Admission.req_serviceID := "pg"; Admission.req_planID := "pg-9-6";
     Admission.req_namespace := "apps"; Admission.req_acceptsIncomplete := true;
     Admission.req_params := a1 |}.

Definition request2 : Admission.request :=
  {| Admission.req_serviceID := "pg"; Admission.req_planID := "pg-10-1";
     Admission.req_namespace := "apps2"; Admission.req_acceptsIncomplete := false;
     Admission.req_params := ∅ |}.

End Sample.

(* ================================================================== *)
(** ** What a program may call *)
(* ================================================================== *)

Module Calls.

(** A program that starts no goroutine. *)
Inductive sequential : forall A : Type, prog A -> Prop :=
| seq_Ret (A : Type) (a : A) : sequential A (Ret a)
| seq_Panic (A : Type) : sequential A Panic
| seq_Call (A X : Type) (c : call X) (k : X -> prog A) :
    (forall x, sequential A (k x)) ->
    sequential A (Call c k).
Arguments sequential {A} p.

(** Every call the program makes, whatever answers it gets, satisfies
    [allowed], and so does every call of the goroutines it starts, which
    start no goroutine themselves. *)
Inductive onlyCalls (allowed : forall X : Type, call X -> bool)
    : forall A : Type, prog A -> Prop :=
| only_Ret (A : Type) (a : A) : onlyCalls allowed A (Ret a)
| only_Panic (A : Type) : onlyCalls allowed A Panic
| only_Call (A X : Type) (c : call X) (k : X -> prog A) :
    allowed X c = true ->
    (forall x, onlyCalls allowed A (k x)) ->
    onlyCalls allowed A (Call c k)
| only_Go (A : Type) (body : prog unit) (k : prog A) :
    sequential body ->
    onlyCalls allowed unit body ->
    onlyCalls allowed A k ->
    onlyCalls allowed A (Go body k).
Arguments onlyCalls allowed {A} p.

(** The calls that write to the cluster or to Tiller. *)
Definition isDelete {X : Type} (c : call X) : bool :=
  match c with
  | ConfigMaps_Delete _ _ | Tiller_DeleteRelease _ _ => true
  | _ => false
  end.

Definition isCreation {X : Type} (c : call X) : bool :=
  match c with
  | ConfigMaps_Create _ _
  | Tiller_InstallReleaseFromChart _ _ _
  | Services_Patch _ _ _
  | Secrets_Patch _ _ _ => true
  | _ => false
  end.

(** The options the broker is to pass: an installation overrides the
    values, reuses the name and disables the hooks, in this order and
    before any other option; a deletion runs the hooks and purges. *)
Definition optionsInOrder {X : Type} (c : call X) : bool :=
  match c with
  | Tiller_InstallReleaseFromChart _ _
      (helm.ValueOverrides _ :: helm.InstallReuseName true
         :: helm.InstallDisableHooks true :: _) => true
  | Tiller_InstallReleaseFromChart _ _ _ => false
  | Tiller_DeleteRelease _ [helm.DeleteDisableHooks false; helm.DeletePurge true] => true
  | Tiller_DeleteRelease _ _ => false
  | _ => true
  end.

(** Every record is stored under its own name. *)
Definition wellKeyed (w : World) : Prop :=
  forall ns name config,
    configMaps w !! (ns, name) = Some config -> corev1.cm_Name config = name.

(** The record [config] after [updateConfigMap] has applied [data]. *)
Definition updatedRecord (data : gmap string (option string)) (config : corev1.ConfigMap)
    : corev1.ConfigMap :=
  {| corev1.cm_Name := corev1.cm_Name config;
     corev1.cm_Namespace := corev1.cm_Namespace config;
     corev1.cm_Labels := corev1.cm_Labels config;
     corev1.cm_Data := minibroker.applyData data (corev1.cm_Data config) |}.

(** A service, or a secret, after labelling for an instance: only its
    instance label may differ, and if it does it names the instance. *)
Definition relabelled (instanceID : string) (labels labels' : gmap string string) : Prop :=
  (forall k, k <> minibroker.InstanceLabel -> labels' !! k = labels !! k) /\
  (labels' !! minibroker.InstanceLabel = labels !! minibroker.InstanceLabel \/
   labels' !! minibroker.InstanceLabel = Some instanceID).

Definition serviceRelabelled (instanceID : string) (s s' : corev1.Service) : Prop :=
  corev1.svc_Name s' = corev1.svc_Name s /\
  corev1.svc_Namespace s' = corev1.svc_Namespace s /\
  corev1.svc_Spec s' = corev1.svc_Spec s /\
  relabelled instanceID (corev1.svc_Labels s) (corev1.svc_Labels s').

Definition secretRelabelled (instanceID : string) (s s' : corev1.Secret) : Prop :=
  corev1.sec_Name s' = corev1.sec_Name s /\
  corev1.sec_Namespace s' = corev1.sec_Namespace s /\
  corev1.sec_Data s' = corev1.sec_Data s /\
  relabelled instanceID (corev1.sec_Labels s) (corev1.sec_Labels s').

(** The labels Tiller puts on what a release creates. *)
Definition ofRelease (releaseName : string) (labels : gmap string string) : Prop :=
  labels !! minibroker.HeritageLabel = Some minibroker.TillerHeritage /\
  labels !! minibroker.ReleaseLabel = Some releaseName.

(** One patch of [labelService] and of [labelSecret], as the cluster
    applies it: the object named like [t] gets the patch computed from
    [t]. *)
Definition servicePatched (instanceID : string) (t s : corev1.Service) : corev1.Service :=
  if Cluster.isService (corev1.svc_Namespace t) (corev1.svc_Name t) s
  then Cluster.relabelService
         (minibroker.labelsPatch (corev1.svc_Labels t)
            (<[minibroker.InstanceLabel := instanceID]> (corev1.svc_Labels t))) s
  else s.

Definition secretPatched (instanceID : string) (t s : corev1.Secret) : corev1.Secret :=
  if Cluster.isSecret (corev1.sec_Namespace t) (corev1.sec_Name t) s
  then Cluster.relabelSecret
         (minibroker.labelsPatch (corev1.sec_Labels t)
            (<[minibroker.InstanceLabel := instanceID]> (corev1.sec_Labels t))) s
  else s.

(** The patches of the two loops of [updateProvisioningState], one
    after the other. *)
Definition servicesPatched (instanceID : string) (l : list corev1.Service) (s : corev1.Service)
    : corev1.Service :=
  fold_left (fun s t => servicePatched instanceID t s) l s.

Definition secretsPatched (instanceID : string) (l : list corev1.Secret) (s : corev1.Secret)
    : corev1.Secret :=
  fold_left (fun s t => secretPatched instanceID t s) l s.

Definition withServices (l : list corev1.Service) (w : World) : World :=
  Cluster.withWorkload {| services := l; secrets := secrets (workload w);
                          releases := releases (workload w) |} w.

Definition withSecrets (l : list corev1.Secret) (w : World) : World :=
  Cluster.withWorkload {| services := services (workload w); secrets := l;
                          releases := releases (workload w) |} w.

(** The data that [updateProvisioningState] writes into the record. *)
Definition releaseData (releaseName namespace : string) : gmap string (option string) :=
  <[minibroker.ReleaseLabel := Some releaseName]>
    (<[minibroker.ReleaseNamespaceKey := Some namespace]> ∅).

(** The record that [Provision] creates. *)
Definition newRecord (c : minibroker.Client) (instanceID serviceID planID js : string)
    : corev1.ConfigMap :=
  {| corev1.cm_Name := instanceID;
     corev1.cm_Namespace := minibroker.namespace c;
     corev1.cm_Labels :=
       <[minibroker.ServiceKey := serviceID]> (<[minibroker.PlanKey := planID]> ∅);
     corev1.cm_Data :=
       <[minibroker.ProvisionParamsKey := js]>
         (<[minibroker.ServiceKey := serviceID]> (<[minibroker.PlanKey := planID]> ∅)) |}.

(** The data that marks an operation as started, and as ended. *)
Definition inProgress (token description : string) : gmap string (option string) :=
  <[minibroker.OperationStateKey := Some osb.StateInProgress]>
    (<[minibroker.OperationNameKey := Some token]>
       (<[minibroker.OperationDescriptionKey := Some description]> ∅)).

Definition settled (state description : string) : gmap string (option string) :=
  <[minibroker.OperationStateKey := Some state]>
    (<[minibroker.OperationDescriptionKey := Some description]> ∅).

(** What [deprovisionSynchronously] returns and leaves when the record
    is in place and the API calls go through: Tiller decides. *)
Definition deprovisioned (b : Backend) (c : minibroker.Client) (instanceID release : string)
    (w : World) : result unit * World :=
  match pingTiller b with
  | Err err => (Err err, w)
  | Ok _ =>
      match deleteRelease b release [helm.DeleteDisableHooks false; helm.DeletePurge true]
              (workload w) with
      | (Err err, wl) =>
          (Err (Wrapf err "could not delete release %s" [VStr release]),
           Cluster.withWorkload wl w)
      | (Ok _, wl) =>
          (Ok tt,
           Cluster.withConfigMaps
             (delete (minibroker.namespace c, instanceID) (configMaps w))
             (Cluster.withWorkload wl w))
      end
  end.

(** The number that a string of lower-case hexadecimal digits stands
    for, read from the left on top of [acc]. *)
Definition hexDigitValue (c : ascii) : Z :=
  let k := Z.of_nat (nat_of_ascii c) in
  if (k <? 58)%Z then (k - 48)%Z else (k - 87)%Z.

Fixpoint hexValue (s : string) (acc : Z) : Z :=
  match s with
  | EmptyString => acc
  | String c rest => hexValue rest (16 * acc + hexDigitValue c)%Z
  end.

End Calls.

(* ================================================================== *)
(** ** Which descriptor wins a tie *)
(* ================================================================== *)

Module Ties.
Section Ties.
Variable SemVersion : Type.
Variable NewVersion : string -> option SemVersion.
Variable GreaterThan : SemVersion -> SemVersion -> bool.

(** The version of [cv] is greater than the one of [other]. *)
Definition exceeds (cv other : repo.ChartVersion) : Prop :=
  exists v v', NewVersion (repo.Version cv) = Some v /\
               NewVersion (repo.Version other) = Some v' /\
               GreaterThan v v' = true.

(** [cv] stands in [cvs] at a place where every valid descriptor of
    appVersion [a] before it has a lower version and none after it has a
    greater one: it is the first of the highest. *)
Definition firstHighest (cvs : list repo.ChartVersion) (a : string) (cv : repo.ChartVersion)
    : Prop :=
  exists pre post,
    cvs = pre ++ cv :: post /\
    repo.AppVersion cv = a /\
    Spec.valid SemVersion NewVersion cv /\
    (forall e, e ∈ pre -> repo.AppVersion e = a -> Spec.valid SemVersion NewVersion e ->
               exceeds cv e) /\
    (forall e, e ∈ post -> repo.AppVersion e = a ->
               Spec.notExceededBy SemVersion NewVersion GreaterThan cv e).
End Ties.
End Ties.

(* ================================================================== *)
(** ** More sample scenes *)
(* ================================================================== *)

Module Scenes.
Import Sample.

(** The sample world in which the provision of [i2] is in progress,
    after Tiller has installed the release and before anything is
    labelled. *)
Definition releasedWorld : World :=
  Cluster.after
    (Cluster.run backend
       (minibroker.installRelease yaml_Marshal client "pg" "9.6" "apps" a1
          [helm.InstallWait true]) asyncWorld).

(** A Tiller that does not answer. *)
Definition silentTiller : Backend :=
  {| listCharts := listCharts backend;
     getChart := getChart backend;
     loadChart := loadChart backend;
     pingTiller := Err (errorString "tiller does not answer");
     installReleaseFromChart := installReleaseFromChart backend;
     deleteRelease := deleteRelease backend |}.

(** The sample world with a transport that fails on the next call. *)
Definition offlineWorld : World :=
  Cluster.withFaults [Some (errorString "connection refused")] provisionedWorld.

(** What the sample Tiller answers to an installation into [apps]. *)
Definition release : helm.Release :=
  {| helm.rel_Name := "release-apps"; helm.rel_Namespace := "apps";
     helm.rel_Version := 1; helm.rel_Manifest := "" |}.

End Scenes.

(* ================================================================== *)
(** ** Facts about the string functions *)
(* ================================================================== *)

Module GoStringsFacts.
Import GoStrings.

Lemma mapBytes_app f (s t : string) :
  mapBytes f (s +:+ t) = mapBytes f s +:+ mapBytes f t.
Proof. induction s as [|c s IH]; simpl; [reflexivity | now rewrite IH]. Qed.


Lemma mapBytes_get f (s : string) (i : nat) :
  String.get i (mapBytes f s) = option_map f (String.get i s).
Proof.
  revert i; induction s as [|c s IH]; intros i; simpl; [reflexivity|].
  destruct i; simpl; [reflexivity | apply IH].
Qed.

Lemma mapBytes_compose f g (s : string) :
  mapBytes f (mapBytes g s) = mapBytes (fun c => f (g c)) s.
Proof. induction s as [|c s IH]; simpl; [reflexivity | now rewrite IH]. Qed.

Lemma mapBytes_ext_on (P : ascii -> bool) f g (s : string) :
  (forall c, P c = true -> f c = g c) ->
  allBytes P s = true -> mapBytes f s = mapBytes g s.
Proof.
  intros Hfg; induction s as [|c s IH]; simpl; [reflexivity|].
  intros [Hc Hs]%andb_true_iff. now rewrite (Hfg c Hc), IH.
Qed.

Lemma mapBytes_id_on (P : ascii -> bool) f (s : string) :
  (forall c, P c = true -> f c = c) ->
  allBytes P s = true -> mapBytes f s = s.
Proof.
  intros Hf; induction s as [|c s IH]; simpl; [reflexivity|].
  intros [Hc Hs]%andb_true_iff. now rewrite (Hf c Hc), IH.
Qed.

Lemma HasPrefix_app (old post : string) : HasPrefix (old +:+ post) old = true.
Proof.
  induction old as [|c old IH]; simpl; [reflexivity|].
  now rewrite Ascii.eqb_refl.
Qed.

Lemma HasPrefix_inv (s old : string) :
  HasPrefix s old = true -> exists post : string, s = old +:+ post.
Proof.
  revert s; induction old as [|c old IH]; intros s H; simpl in *.
  - now exists s.
  - destruct s as [|d s]; [discriminate|].
    destruct (Ascii.eqb_spec c d) as [->|]; [|discriminate].
    destruct (IH _ H) as [post ->]. now exists post.
Qed.

(** Once the count is used up, the loop only drops what is left of the
    last occurrence. *)
Lemma replaceLoop_done (old new : string) (k : nat) (rest post : string) :
  String.length rest = k ->
  replaceLoop old new 0 k (rest +:+ post) = post.
Proof.
  revert k; induction rest as [|c rest IH]; intros k Hk; simpl in *; subst k.
  - destruct post; reflexivity.
  - now apply IH.
Qed.

(** Replacing the first occurrence: what precedes it is kept, the
    occurrence is replaced, what follows is kept. *)
Lemma Replace_first (pre old new post : string) :
  old <> EmptyString -> old <> new ->
  (forall j, j < String.length pre -> ~ occursAt (pre +:+ old +:+ post) old j) ->
  Replace (pre +:+ old +:+ post) old new 1 = pre +:+ new +:+ post.
Proof.
  intros Hne Hon Hfirst. unfold Replace.
  destruct (String.eqb_spec old new) as [->|_]; [congruence|].
  destruct old as [|o old']; [congruence|]. clear Hne Hon.
  set (old := String o old') in *.
  induction pre as [|c pre IH].
  - simpl. rewrite Ascii.eqb_refl, (HasPrefix_app old' post).
    rewrite Nat.sub_0_r. change (1 - 1)%Z with 0%Z.
    now rewrite (replaceLoop_done old new (String.length old') old' post eq_refl).
  - change ((String c pre) +:+ old +:+ post) with (String c (pre +:+ old +:+ post)).
    cbn [replaceLoop Z.eqb].
    destruct (HasPrefix (String c (pre +:+ old +:+ post)) old) eqn:Hp.
    + exfalso. apply (Hfirst 0); [simpl; lia|].
      apply HasPrefix_inv in Hp as [post' Hp].
      exists EmptyString, post'. split; [exact Hp | reflexivity].
    + change (String c pre +:+ new +:+ post) with (String c (pre +:+ new +:+ post)).
      f_equal. apply IH.
      intros j Hj [pre' [post' [Heq Hlen]]].
      apply (Hfirst (S j)); [simpl; lia|].
      exists (String c pre'), post'. split; [| simpl; lia].
      change (String c (pre +:+ old +:+ post) = String c (pre' +:+ old +:+ post')).
      now rewrite Heq.
Qed.

(** Without an occurrence the string is returned as it is. *)
Lemma Replace_absent (s old new : string) (n : Z) :
  old <> EmptyString ->
  (forall j, ~ occursAt s old j) -> Replace s old new n = s.
Proof.
  intros Hne Habs. unfold Replace.
  destruct (String.eqb old new); [reflexivity|].
  destruct old as [|o old']; [congruence|]. clear Hne.
  set (old := String o old') in *.
  revert n; induction s as [|c s IH]; intros n; [reflexivity|].
  cbn [replaceLoop]. destruct (n =? 0)%Z; [reflexivity|].
  destruct (HasPrefix (String c s) old) eqn:Hp.
  - exfalso. apply HasPrefix_inv in Hp as [post Hp].
    apply (Habs 0). exists EmptyString, post. split; [exact Hp | reflexivity].
  - f_equal. apply IH. intros j [pre [post [Heq Hlen]]].
    apply (Habs (S j)). exists (String c pre), post.
    split; [| simpl; lia].
    change (String c s = String c (pre +:+ old +:+ post)). now rewrite Heq.
Qed.

(** Replacing every dash by a dot, byte by byte. *)
Lemma Replace_dashes (s : string) : Replace s "-" "." (-1) = mapBytes dashToDot s.
Proof.
  unfold Replace. simpl.
  assert (H : forall n, (n < 0)%Z -> replaceLoop "-" "." n 0 s = mapBytes dashToDot s).
  { induction s as [|c s IH]; intros n Hn; [reflexivity|].
    cbn [replaceLoop mapBytes]. destruct (Z.eqb_spec n 0); [lia|].
    unfold dashToDot at 1. cbn [HasPrefix]. rewrite (Ascii.eqb_sym "-" c).
    destruct (Ascii.eqb c "-"); simpl.
    - f_equal. destruct s as [|d s']; [reflexivity|].
      apply (IH (n - 1)%Z). lia.
    - f_equal. now apply IH. }
  apply H. lia.
Qed.

Lemma mapBytes_dashToDot_no_dash (s : string) (i : nat) :
  String.get i (mapBytes dashToDot s) <> Some "-"%char.
Proof.
  rewrite mapBytes_get. destruct (String.get i s) as [c|]; simpl; [|discriminate].
  unfold dashToDot. destruct (Ascii.eqb_spec c "-"); [discriminate | congruence].
Qed.

Lemma isUpper_isLowerAlnum (c : ascii) : isLowerAlnum c = true -> isUpper c = false.
Proof.
  unfold isLowerAlnum, isLower, isDigit, isUpper.
  repeat match goal with
         | |- context [Nat.leb ?a ?b] => destruct (Nat.leb_spec a b)
         end; simpl; try reflexivity; try discriminate; lia.
Qed.

Lemma slug_lower_fixes_alnum (c : ascii) :
  isLowerAlnum c = true -> slugByte (toLowerByte c) = c.
Proof.
  intros H. unfold toLowerByte. rewrite (isUpper_isLowerAlnum c H).
  unfold slugByte. now rewrite H.
Qed.

Lemma dashToDot_slug_version_byte (c : ascii) :
  isVersionByte c = true -> dashToDot (slugByte (toLowerByte c)) = c.
Proof.
  unfold isVersionByte. intros [H|H]%orb_true_iff.
  - assert (Ha : isLowerAlnum c = true) by (unfold isLowerAlnum; now rewrite H, orb_true_r).
    rewrite (slug_lower_fixes_alnum c Ha). unfold dashToDot.
    destruct (Ascii.eqb_spec c "-") as [->|]; [discriminate H | reflexivity].
  - apply Ascii.eqb_eq in H. subst c. reflexivity.
Qed.

Lemma cleaner_ReplaceAllString_slug (s : string) :
  cleaner_ReplaceAllString s = mapBytes slugByte s.
Proof.
  unfold cleaner_ReplaceAllString. induction s as [|c s IH]; simpl; [reflexivity|].
  rewrite IH. f_equal. unfold slugByte, cleanerMatches, isLowerAlnum.
  now destruct (isLower c || isDigit c).
Qed.

End GoStringsFacts.

(* ================================================================== *)
(** ** Running programs against the cluster *)
(* ================================================================== *)

Module ClusterFacts.
Import Cluster.

Lemma run_Call (b : Backend) {A X : Type} (c : call X) (k : X -> prog A) (w : World) :
  run b (Call c k) w =
  let r := run b (k (handle b c w).1) (handle b c w).2 in
  {| returned := returned r; after := after r; spawned := spawned r;
     trace := Entry c (handle b c w).1 :: trace r |}.
Proof. simpl. now destruct (handle b c w). Qed.

Lemma run_bind_perform (b : Backend) {A X : Type} (c : call X) (k : X -> prog A) (w : World) :
  run b (perform c ≫= k) w =
  let r := run b (k (handle b c w).1) (handle b c w).2 in
  {| returned := returned r; after := after r; spawned := spawned r;
     trace := Entry c (handle b c w).1 :: trace r |}.
Proof. apply (run_Call b c (fun x => k x) w). Qed.

Lemma apiCall_quiet {A : Type} (normal : World -> result A * World) (w : World) :
  faults w = [] -> apiCall normal w = normal w.
Proof. intros H. unfold apiCall. now rewrite H. Qed.

Lemma handle_Get_absent (b : Backend) (ns name : string) (w : World) :
  faults w = [] -> configMaps w !! (ns, name) = None ->
  handle b (ConfigMaps_Get ns name) w = (Err (notFound "configmaps" name), w).
Proof.
  intros Hq Hn. simpl. rewrite apiCall_quiet by assumption.
  unfold getConfigMap. now rewrite Hn.
Qed.

Lemma handle_Get_present (b : Backend) (ns name : string) (config : corev1.ConfigMap)
    (w : World) :
  faults w = [] -> configMaps w !! (ns, name) = Some config ->
  handle b (ConfigMaps_Get ns name) w = (Ok config, w).
Proof.
  intros Hq Hn. simpl. rewrite apiCall_quiet by assumption.
  unfold getConfigMap. now rewrite Hn.
Qed.

Lemma handle_Create_present (b : Backend) (ns : string) (config existing : corev1.ConfigMap)
    (w : World) :
  faults w = [] -> configMaps w !! (ns, corev1.cm_Name config) = Some existing ->
  handle b (ConfigMaps_Create ns config) w =
  (Err (alreadyExists "configmaps" (corev1.cm_Name config)), w).
Proof.
  intros Hq Hn. simpl. rewrite apiCall_quiet by assumption.
  unfold createConfigMap. now rewrite Hn.
Qed.

Lemma handle_Create_absent (b : Backend) (ns : string) (config : corev1.ConfigMap)
    (w : World) :
  faults w = [] -> configMaps w !! (ns, corev1.cm_Name config) = None ->
  handle b (ConfigMaps_Create ns config) w =
  (Ok config, withConfigMaps (<[(ns, corev1.cm_Name config) := config]> (configMaps w)) w).
Proof.
  intros Hq Hn. simpl. rewrite apiCall_quiet by assumption.
  unfold createConfigMap. now rewrite Hn.
Qed.

Lemma handle_Services_List (b : Backend) (ns : string) (sel : gmap string string) (w : World) :
  faults w = [] ->
  handle b (Services_List ns sel) w = listServices ns sel w.
Proof. intros Hq. simpl. now rewrite apiCall_quiet. Qed.

Lemma handle_Secrets_List (b : Backend) (ns : string) (sel : gmap string string) (w : World) :
  faults w = [] ->
  handle b (Secrets_List ns sel) w = listSecrets ns sel w.
Proof. intros Hq. simpl. now rewrite apiCall_quiet. Qed.

(** The reads leave the cluster as it is, whatever the fault script. *)
Lemma apiCall_frame {A : Type} (normal : World -> result A * World) (w : World) :
  (forall w0, configMaps (normal w0).2 = configMaps w0 /\
              workload (normal w0).2 = workload w0) ->
  configMaps (apiCall normal w).2 = configMaps w /\
  workload (apiCall normal w).2 = workload w.
Proof.
  intros H. unfold apiCall. destruct (faults w) as [|[err|] rest]; simpl.
  - apply H.
  - auto.
  - destruct (H (withFaults rest w)) as [H1 H2]. now rewrite H1, H2.
Qed.

Lemma handle_Get_frame (b : Backend) (ns name : string) (w : World) :
  configMaps (handle b (ConfigMaps_Get ns name) w).2 = configMaps w /\
  workload (handle b (ConfigMaps_Get ns name) w).2 = workload w.
Proof.
  simpl. apply apiCall_frame. intros w0. unfold getConfigMap.
  now destruct (configMaps w0 !! (ns, name)).
Qed.

Lemma handle_Services_List_frame (b : Backend) (ns : string) (sel : gmap string string)
    (w : World) :
  configMaps (handle b (Services_List ns sel) w).2 = configMaps w /\
  workload (handle b (Services_List ns sel) w).2 = workload w.
Proof. simpl. apply apiCall_frame. intros w0. now unfold listServices. Qed.

Lemma handle_Secrets_List_frame (b : Backend) (ns : string) (sel : gmap string string)
    (w : World) :
  configMaps (handle b (Secrets_List ns sel) w).2 = configMaps w /\
  workload (handle b (Secrets_List ns sel) w).2 = workload w.
Proof. simpl. apply apiCall_frame. intros w0. now unfold listSecrets. Qed.

End ClusterFacts.

(* ================================================================== *)
(** ** The catalog builder *)
(* ================================================================== *)

Module CatalogFacts.
Import GoStrings GoStringsFacts Cluster ClusterFacts minibroker.










Section CatalogProofs.
Variable SemVersion : Type.
Variable NewVersion : string -> option SemVersion.
Variable GreaterThan : SemVersion -> SemVersion -> bool.

Local Abbreviation keepHighest := (minibroker.keepHighest SemVersion NewVersion GreaterThan).
Local Abbreviation collectAppVersions := (minibroker.collectAppVersions SemVersion NewVersion GreaterThan).
Local Abbreviation buildService := (minibroker.buildService SemVersion NewVersion GreaterThan).
Local Abbreviation allParse := (Spec.allParse SemVersion NewVersion).
Local Abbreviation valid := (Spec.valid SemVersion NewVersion).
Local Abbreviation retains := (Spec.retains SemVersion NewVersion GreaterThan).
Local Abbreviation highestOf := (Spec.highestOf SemVersion NewVersion GreaterThan).

(** The loop preserves whatever one iteration preserves, and does not
    stop early as long as one iteration does not. *)
Lemma collect_invariant (P : list repo.ChartVersion -> gmap string repo.ChartVersion -> Prop) :
  (forall seen m cv, P seen m -> exists m', keepHighest m cv = Some m' /\ P (seen ++ [cv]) m') ->
  forall cvs seen m, P seen m ->
    exists m', collectAppVersions m cvs = Some m' /\ P (seen ++ cvs) m'.
Proof.
  intros Hstep cvs. induction cvs as [|cv cvs IH]; intros seen m HP.
  - exists m. split; [reflexivity | now rewrite app_nil_r].
  - destruct (Hstep seen m cv HP) as [m1 [Hk HP1]].
    destruct (IH _ _ HP1) as [m' [Hc HP']].
    exists m'. simpl. rewrite Hk. split; [exact Hc|].
    now rewrite <- app_assoc in HP'.
Qed.

Lemma keepHighest_allParse m cv :
  allParse m -> exists m', keepHighest m cv = Some m' /\ allParse m'.
Proof.
  intros Hm. unfold minibroker.keepHighest.
  destruct (String.eqb _ _); [now exists m|].
  destruct (NewVersion (repo.Version cv)) as [curV|] eqn:Hcur; [|now exists m].
  assert (Hins : allParse (<[repo.AppVersion cv := cv]> m)).
  { intros a x Hx. destruct (decide (repo.AppVersion cv = a)) as [<-|Hne].
    - rewrite lookup_insert_eq in Hx. injection Hx as <-. now rewrite Hcur.
    - rewrite lookup_insert_ne in Hx by assumption. now apply (Hm a). }
  destruct (m !! repo.AppVersion cv) as [currentMax|] eqn:Hlook; [|eauto].
  destruct (Hm _ _ Hlook) as [maxV ->].
  destruct (GreaterThan curV maxV); eauto.
Qed.

(** The loop over the descriptors never hits the nil dereference. *)
Lemma collectAppVersions_total (cvs : list repo.ChartVersion) :
  exists retained, collectAppVersions ∅ cvs = Some retained /\ allParse retained.
Proof.
  destruct (collect_invariant (fun _ m => allParse m)
              (fun _ m cv H => keepHighest_allParse m cv H) cvs [] ∅) as [m [Hc Hm]].
  - intros a cv H. now rewrite lookup_empty in H.
  - now exists m.
Qed.


(** The comparison of versions is a strict order. *)
Hypothesis GreaterThan_irrefl : forall v, GreaterThan v v = false.
Hypothesis GreaterThan_trans :
  forall u v w, GreaterThan u v = true -> GreaterThan v w = true -> GreaterThan u w = true.

Lemma highestOf_snoc_other seen a x cv :
  highestOf seen a x ->
  (repo.AppVersion cv = a -> Spec.notExceededBy SemVersion NewVersion GreaterThan x cv) ->
  highestOf (seen ++ [cv]) a x.
Proof.
  intros (Hin & Ha & Hv & Hmax) Hcv. repeat split; try assumption; try apply Hv.
  - apply elem_of_app. now left.
  - intros other [Ho|Ho%list_elem_of_singleton]%elem_of_app Hoa.
    + now apply Hmax.
    + subst other. now apply Hcv.
Qed.

Lemma retains_skip seen m cv :
  retains seen m ->
  repo.AppVersion cv = EmptyString \/ NewVersion (repo.Version cv) = None ->
  retains (seen ++ [cv]) m.
Proof.
  intros [H1 H2] Hskip. split.
  - intros a x Hx. apply highestOf_snoc_other; [now apply H1|].
    intros Ha. destruct Hskip as [Hs|Hs].
    + destruct (H1 _ _ Hx) as (_ & Hxa & [Hne _] & _). congruence.
    + intros v v' _ Hv'. congruence.
  - intros other [Ho|Ho%list_elem_of_singleton]%elem_of_app Hvalid; [now apply H2|].
    subst other. destruct Hvalid as [Hne [v Hv]]. destruct Hskip; congruence.
Qed.

Lemma retains_keep seen m cv currentMax curV maxV :
  retains seen m ->
  m !! repo.AppVersion cv = Some currentMax ->
  NewVersion (repo.Version cv) = Some curV ->
  NewVersion (repo.Version currentMax) = Some maxV ->
  GreaterThan curV maxV = false ->
  retains (seen ++ [cv]) m.
Proof.
  intros [H1 H2] Hlook Hcur Hmax Hgt. split.
  - intros a x Hx. apply highestOf_snoc_other; [now apply H1|].
    intros Ha v v' Hv Hv'. subst a. rewrite Hlook in Hx. injection Hx as <-.
    congruence.
  - intros other [Ho|Ho%list_elem_of_singleton]%elem_of_app Hvalid; [now apply H2|].
    subst other. now rewrite Hlook.
Qed.

Lemma retains_replace seen m cv curV :
  retains seen m ->
  repo.AppVersion cv <> EmptyString ->
  NewVersion (repo.Version cv) = Some curV ->
  (forall currentMax maxV, m !! repo.AppVersion cv = Some currentMax ->
     NewVersion (repo.Version currentMax) = Some maxV -> GreaterThan curV maxV = true) ->
  retains (seen ++ [cv]) (<[repo.AppVersion cv := cv]> m).
Proof.
  intros [H1 H2] Hne Hcur Hgt. split.
  - intros a x Hx. destruct (decide (repo.AppVersion cv = a)) as [<-|Hna].
    + rewrite lookup_insert_eq in Hx. injection Hx as <-.
      repeat split; try assumption; [apply elem_of_app; right; apply list_elem_of_here
                                    | now rewrite Hcur |].
      intros other [Ho|Ho%list_elem_of_singleton]%elem_of_app Hoa v v' Hv Hv'.
      * assert (Hvalid : valid other) by (split; [congruence | now rewrite Hv']).
        destruct (H2 _ Ho Hvalid) as [currentMax Hlook]. rewrite Hoa in Hlook.
        destruct (H1 _ _ Hlook) as (_ & _ & [_ [maxV HmaxV]] & Hbest).
        specialize (Hbest other Ho Hoa maxV v' HmaxV Hv').
        specialize (Hgt currentMax maxV Hlook HmaxV).
        assert (v = curV) by congruence. subst v.
        destruct (GreaterThan v' curV) eqn:Hc; [|reflexivity].
        rewrite (GreaterThan_trans _ _ _ Hc Hgt) in Hbest. discriminate.
      * subst other. assert (v' = v) by congruence. subst v'. apply GreaterThan_irrefl.
    + rewrite lookup_insert_ne in Hx by assumption.
      apply highestOf_snoc_other; [now apply H1 | congruence].
  - intros other [Ho|Ho%list_elem_of_singleton]%elem_of_app Hvalid.
    + destruct (decide (repo.AppVersion cv = repo.AppVersion other)) as [<-|Hna].
      * rewrite lookup_insert_eq. eauto.
      * rewrite lookup_insert_ne by assumption. now apply H2.
    + subst other. rewrite lookup_insert_eq. eauto.
Qed.

Lemma keepHighest_retains seen m cv :
  retains seen m -> exists m', keepHighest m cv = Some m' /\ retains (seen ++ [cv]) m'.
Proof.
  intros Hm. unfold minibroker.keepHighest.
  destruct (String.eqb_spec (repo.AppVersion cv) "") as [He|Hne].
  { exists m. split; [reflexivity | apply retains_skip; auto]. }
  destruct (NewVersion (repo.Version cv)) as [curV|] eqn:Hcur.
  2:{ exists m. split; [reflexivity | apply retains_skip; auto]. }
  destruct (m !! repo.AppVersion cv) as [currentMax|] eqn:Hlook.
  2:{ eexists. split; [reflexivity|]. apply (retains_replace seen m cv curV); try assumption.
      intros ? ? Habs. congruence. }
  destruct (proj1 Hm _ _ Hlook) as (_ & _ & [_ [maxV HmaxV]] & _). rewrite HmaxV.
  destruct (GreaterThan curV maxV) eqn:Hgt.
  - eexists. split; [reflexivity|]. apply (retains_replace seen m cv curV); try assumption.
    intros x y Hx Hy. congruence.
  - exists m. split; [reflexivity|]. now apply (retains_keep seen m cv currentMax curV maxV).
Qed.

Lemma collectAppVersions_retains (cvs : list repo.ChartVersion) :
  exists retained, collectAppVersions ∅ cvs = Some retained /\ retains cvs retained.
Proof.
  destruct (collect_invariant retains keepHighest_retains cvs [] ∅) as [m [Hc Hm]].
  - split; [intros a cv H; now rewrite lookup_empty in H|].
    intros cv H. inversion H.
  - now exists m.
Qed.

(** [retains] does not look at the order of the descriptors. *)
Lemma retains_perm (cvs cvs' : list repo.ChartVersion) retained :
  cvs ≡ₚ cvs' -> retains cvs retained -> retains cvs' retained.
Proof.
  intros Hp [H1 H2]. split.
  - intros a cv Hcv. destruct (H1 a cv Hcv) as (Hin & Ha & Hv & Hmax).
    repeat split; try assumption; try apply Hv; [now rewrite <- Hp|].
    intros other Ho. apply Hmax. now rewrite Hp.
  - intros cv Hcv. apply H2. now rewrite Hp.
Qed.

End CatalogProofs.

Lemma Sample_GreaterThan_irrefl (v : Sample.SemVersion) : Sample.GreaterThan v v = false.
Proof. destruct v as [[a b] c]. simpl. now rewrite !N.compare_refl. Qed.

Lemma Sample_GreaterThan_trans (u v w : Sample.SemVersion) :
  Sample.GreaterThan u v = true -> Sample.GreaterThan v w = true ->
  Sample.GreaterThan u w = true.
Proof.
  destruct u as [[a1 b1] c1], v as [[a2 b2] c2], w as [[a3 b3] c3]. simpl.
  destruct (N.compare_spec a1 a2), (N.compare_spec a2 a3), (N.compare_spec a1 a3);
    try discriminate; try reflexivity; try lia;
    destruct (N.compare_spec b1 b2), (N.compare_spec b2 b3), (N.compare_spec b1 b3);
    try discriminate; try reflexivity; try lia;
    destruct (N.compare_spec c1 c2), (N.compare_spec c2 c3), (N.compare_spec c1 c3);
    try discriminate; try reflexivity; lia.
Qed.

Section Listing.
Variable SemVersion : Type.
Variable NewVersion : string -> option SemVersion.
Variable GreaterThan : SemVersion -> SemVersion -> bool.
Variable c : Client.

(** The loop over the charts goes through all of them and keeps the
    services that are not filtered out and have a plan. *)
Lemma listServicesLoop_lists (charts : list (string * list repo.ChartVersion))
    (services : list osb.Service) :
  exists listed,
    listServicesLoop SemVersion NewVersion GreaterThan c charts services = Some listed /\
    forall svc, svc ∈ listed <->
      svc ∈ services \/
      exists chart cvs,
        (chart, cvs) ∈ charts /\
        (is_Some (providers c !! chart) \/ serviceCatalogEnabledOnly c = false) /\
        buildService SemVersion NewVersion GreaterThan chart cvs = Some svc /\
        osb.Plans svc <> [].
Proof.
  revert services. induction charts as [|[chart cvs] charts IH]; intros services.
  - exists services. split; [reflexivity|]. intros svc. split; [now left|].
    intros [H|(chart & cvs & H & _)]; [exact H | inversion H].
  - cbn [listServicesLoop].
    destruct (collectAppVersions_total SemVersion NewVersion GreaterThan cvs)
      as [retained [Hc _]].
    assert (Hb : exists svc0, buildService SemVersion NewVersion GreaterThan chart cvs = Some svc0).
    { unfold buildService. rewrite Hc. eauto. }
    destruct Hb as [svc0 Hb].
    assert (Hskip : forall listed : list osb.Service,
              (forall svc, svc ∈ listed <->
                 svc ∈ services \/
                 exists chart' cvs',
                   (chart', cvs') ∈ charts /\
                   (is_Some (providers c !! chart') \/ serviceCatalogEnabledOnly c = false) /\
                   buildService SemVersion NewVersion GreaterThan chart' cvs' = Some svc /\
                   osb.Plans svc <> []) ->
              ~ ((is_Some (providers c !! chart) \/ serviceCatalogEnabledOnly c = false) /\
                 osb.Plans svc0 <> []) ->
              forall svc, svc ∈ listed <->
                 svc ∈ services \/
                 exists chart' cvs',
                   (chart', cvs') ∈ (chart, cvs) :: charts /\
                   (is_Some (providers c !! chart') \/ serviceCatalogEnabledOnly c = false) /\
                   buildService SemVersion NewVersion GreaterThan chart' cvs' = Some svc /\
                   osb.Plans svc <> []).
    { intros listed Hl Hno svc. rewrite Hl. split.
      - intros [H|(chart' & cvs' & Hin & H)]; [now left|].
        right. exists chart', cvs'. split; [now apply list_elem_of_further | exact H].
      - intros [H|(chart' & cvs' & Hin & Hp & Hs & Hn)]; [now left|].
        apply elem_of_cons in Hin as [Heq|Hin].
        + injection Heq as -> ->. exfalso. apply Hno.
          assert (svc = svc0) by congruence. subst svc. now split.
        + right. exists chart', cvs'. now repeat split. }
    destruct (negb (bool_decide (is_Some (providers c !! chart))) && serviceCatalogEnabledOnly c)
      eqn:Hfilter.
    + destruct (IH services) as [listed [Hl Hin]]. exists listed. split; [exact Hl|].
      apply Hskip; [exact Hin|]. intros [[Hp|Hf] _].
      * apply andb_true_iff in Hfilter as [Hneg _].
        apply negb_true_iff, bool_decide_eq_false in Hneg. contradiction.
      * apply andb_true_iff in Hfilter as [_ Hflag]. congruence.
    + rewrite Hb. destruct (osb.Plans svc0) as [|plan plans] eqn:Hplans; cbn [length Nat.eqb].
      * destruct (IH services) as [listed [Hl Hin]]. exists listed. split; [exact Hl|].
        apply Hskip; [exact Hin|]. intros [_ Hne]. congruence.
      * destruct (IH (services ++ [svc0])) as [listed [Hl Hin]].
        exists listed. split; [exact Hl|]. intros svc. rewrite Hin, elem_of_app.
        rewrite list_elem_of_singleton. split.
        -- intros [[H| ->]|(chart' & cvs' & Hc' & H)].
           ++ now left.
           ++ right. exists chart, cvs. split; [apply list_elem_of_here|].
              split; [|split; [exact Hb | congruence]].
              apply andb_false_iff in Hfilter as [Hneg|Hflag]; [left | now right].
              apply negb_false_iff, bool_decide_eq_true in Hneg. exact Hneg.
           ++ right. exists chart', cvs'. split; [now apply list_elem_of_further | exact H].
        -- intros [H|(chart' & cvs' & Hc' & Hp & Hs & Hn)]; [now left; left|].
           apply elem_of_cons in Hc' as [Heq|Hc'].
           ++ injection Heq as -> ->. left; right. congruence.
           ++ right. exists chart', cvs'. now repeat split.
Qed.

(** [ListServices] on the charts the repository lists: it returns, and
    the services are those of the charts that pass the filter and have
    a plan. *)
Lemma ListServices_lists (b : Backend) (w : World)
    (charts : gmap string (list repo.ChartVersion)) :
  listCharts b = Ok charts ->
  exists listed,
    returned (run b (ListServices SemVersion NewVersion GreaterThan c) w) =
    Returned (Ok listed) /\
    forall svc, svc ∈ listed <->
      exists chart cvs,
        charts !! chart = Some cvs /\
        (is_Some (providers c !! chart) \/ serviceCatalogEnabledOnly c = false) /\
        buildService SemVersion NewVersion GreaterThan chart cvs = Some svc /\
        osb.Plans svc <> [].
Proof.
  intros Hcharts. unfold ListServices. rewrite run_bind_perform.
  cbn [handle fst snd]. rewrite Hcharts. cbn zeta.
  destruct (listServicesLoop_lists (map_to_list charts) []) as [listed [Hl Hin]].
  rewrite Hl. exists listed. split; [reflexivity|].
  intros svc. rewrite Hin. split.
  - intros [H|(chart & cvs & Hc & H)]; [inversion H|].
    exists chart, cvs. split; [now apply elem_of_map_to_list | exact H].
  - intros (chart & cvs & Hc & H). right.
    exists chart, cvs. split; [now apply elem_of_map_to_list | exact H].
Qed.
End Listing.

(** C2.  When the comparison of versions is a strict order, the catalog
    builder returns, for every package, one plan per key of a map
    [retained] that holds exactly the non-empty appVersions of the
    descriptors whose version parses, each with a descriptor whose
    version no descriptor of that appVersion exceeds; descriptors with
    an empty appVersion or a version that does not parse are skipped and
    the listing goes on: [ListServices] returns the services so built
    for the charts that pass the provider filter and have a plan.  The descriptors (pg,1.0.0,app=9.6),
    (pg,1.1.0,app=9.6), (pg,2.0.0,app=10.1), in any order, give exactly
    two plans: pg-9-6 from the 1.1.0 descriptor and pg-10-1 from the
    2.0.0 descriptor. *)
Theorem one_plan_per_app_version
    (SemVersion : Type) (NewVersion : string -> option SemVersion)
    (GreaterThan : SemVersion -> SemVersion -> bool) :
  (forall v, GreaterThan v v = false) ->
  (forall u v w, GreaterThan u v = true -> GreaterThan v w = true ->
                 GreaterThan u w = true) ->
  (forall chart cvs,
     exists retained svc,
       collectAppVersions SemVersion NewVersion GreaterThan ∅ cvs = Some retained /\
       buildService SemVersion NewVersion GreaterThan chart cvs = Some svc /\
       Spec.retains SemVersion NewVersion GreaterThan cvs retained /\
       osb.Plans svc = map (fun kv => makePlan chart kv.2) (map_to_list retained) /\
       NoDup (map_to_list retained).*1)
  /\
  (forall b c w charts,
     listCharts b = Ok charts ->
     exists listed,
       returned (run b (ListServices SemVersion NewVersion GreaterThan c) w) =
       Returned (Ok listed) /\
       forall svc, svc ∈ listed <->
         exists chart cvs,
           charts !! chart = Some cvs /\
           (is_Some (providers c !! chart) \/ serviceCatalogEnabledOnly c = false) /\
           buildService SemVersion NewVersion GreaterThan chart cvs = Some svc /\
           osb.Plans svc <> [])
  /\
  (forall v100 v110 v200 d1 d2 d3 k1 k2 k3 cvs,
     NewVersion "1.0.0" = Some v100 ->
     NewVersion "1.1.0" = Some v110 ->
     NewVersion "2.0.0" = Some v200 ->
     GreaterThan v110 v100 = true ->
     cvs ≡ₚ [Spec.pgDescriptor "1.0.0" "9.6" d1 k1;
             Spec.pgDescriptor "1.1.0" "9.6" d2 k2;
             Spec.pgDescriptor "2.0.0" "10.1" d3 k3] ->
     exists svc,
       buildService SemVersion NewVersion GreaterThan "pg" cvs = Some svc /\
       osb.Plans svc ≡ₚ
         [ {| osb.plan_ID := "pg-9-6"; osb.plan_Name := "9-6";
              osb.plan_Description := d2; osb.plan_Free := Some true |};
           {| osb.plan_ID := "pg-10-1"; osb.plan_Name := "10-1";
              osb.plan_Description := d3; osb.plan_Free := Some true |} ]).
Proof.
  intros Hirr Htrans.
  assert (Hgen : forall chart cvs,
     exists retained svc,
       collectAppVersions SemVersion NewVersion GreaterThan ∅ cvs = Some retained /\
       buildService SemVersion NewVersion GreaterThan chart cvs = Some svc /\
       Spec.retains SemVersion NewVersion GreaterThan cvs retained /\
       osb.Plans svc = map (fun kv => makePlan chart kv.2) (map_to_list retained) /\
       NoDup (map_to_list retained).*1).
  { intros chart cvs.
    destruct (collectAppVersions_retains SemVersion NewVersion GreaterThan Hirr Htrans cvs)
      as [retained [Hc Hr]].
    exists retained. eexists. unfold buildService. rewrite Hc.
    split; [reflexivity|]. split; [reflexivity|]. split; [exact Hr|].
    split; [reflexivity|]. apply NoDup_fst_map_to_list. }
  split; [exact Hgen|].
  split; [intros b c w charts; apply ListServices_lists|].
  intros v100 v110 v200 d1 d2 d3 k1 k2 k3 cvs H100 H110 H200 Hgt Hperm.
  set (D1 := Spec.pgDescriptor "1.0.0" "9.6" d1 k1) in *.
  set (D2 := Spec.pgDescriptor "1.1.0" "9.6" d2 k2) in *.
  set (D3 := Spec.pgDescriptor "2.0.0" "10.1" d3 k3) in *.
  destruct (Hgen "pg" cvs) as (retained & svc & _ & Hsvc & Hret & Hplans & _).
  exists svc. split; [exact Hsvc|]. rewrite Hplans.
  apply (retains_perm SemVersion NewVersion GreaterThan _ _ _ Hperm) in Hret. destruct Hret as [H1 H2].
  assert (Hmem : forall x, x ∈ [D1; D2; D3] -> x = D1 \/ x = D2 \/ x = D3).
  { intros x Hx. apply elem_of_cons in Hx as [Hx|Hx]; [auto|].
    apply elem_of_cons in Hx as [Hx|Hx]; [auto|].
    apply elem_of_cons in Hx as [Hx|Hx]; [auto|]. inversion Hx. }
  assert (Heq : retained = <["9.6" := D2]> (<["10.1" := D3]> ∅)).
  { apply map_eq. intros a. destruct (retained !! a) as [x|] eqn:Hx.
    - destruct (H1 a x Hx) as (Hin & Ha & _ & Hmax).
      destruct (Hmem x Hin) as [-> | [-> | ->]]; simpl in Ha; subst a.
      + assert (HD2 : D2 ∈ [D1; D2; D3]) by (apply list_elem_of_further, list_elem_of_here).
        specialize (Hmax D2 HD2 eq_refl v100 v110 H100 H110). congruence.
      + now rewrite lookup_insert_eq.
      + rewrite lookup_insert_ne by discriminate. now rewrite lookup_insert_eq.
    - symmetry. destruct (decide ("9.6" = a)) as [<-|Hn1].
      { assert (His : is_Some (retained !! repo.AppVersion D2)).
        { apply H2; [apply list_elem_of_further, list_elem_of_here|].
          split; [discriminate | simpl; rewrite H110; eauto]. }
        simpl in His. rewrite Hx in His. destruct His; discriminate. }
      rewrite lookup_insert_ne by assumption.
      destruct (decide ("10.1" = a)) as [<-|Hn2].
      { assert (His : is_Some (retained !! repo.AppVersion D3)).
        { apply H2; [do 2 apply list_elem_of_further; apply list_elem_of_here|].
          split; [discriminate | simpl; rewrite H200; eauto]. }
        simpl in His. rewrite Hx in His. destruct His; discriminate. }
      rewrite lookup_insert_ne by assumption. apply lookup_empty. }
  rewrite Heq.
  assert (Hl : map_to_list (<["9.6" := D2]> (<["10.1" := D3]> (∅ : gmap string repo.ChartVersion)))
               ≡ₚ [("9.6", D2); ("10.1", D3)]).
  { rewrite map_to_list_insert by (rewrite lookup_insert_ne by discriminate; apply lookup_empty).
    rewrite map_to_list_insert by apply lookup_empty.
    now rewrite map_to_list_empty. }
  apply (Permutation_map (fun kv => makePlan "pg" kv.2)) in Hl. exact Hl.
Qed.

(** The example of C2 on the sample parser of dotted versions. *)
Lemma one_plan_per_app_version_witness :
  exists svc,
    Sample.buildService "pg" Sample.pgVersions = Some svc /\
    osb.Plans svc ≡ₚ
      [ {| osb.plan_ID := "pg-9-6"; osb.plan_Name := "9-6";
           osb.plan_Description := "pg 1.1.0"; osb.plan_Free := Some true |};
        {| osb.plan_ID := "pg-10-1"; osb.plan_Name := "10-1";
           osb.plan_Description := "pg 2.0.0"; osb.plan_Free := Some true |} ].
Proof.
  apply (proj2 (proj2 (one_plan_per_app_version Sample.SemVersion Sample.NewVersion
                  Sample.GreaterThan Sample_GreaterThan_irrefl Sample_GreaterThan_trans))
           (1, 0, 0)%N (1, 1, 0)%N (2, 0, 0)%N
           "pg 1.0.0" "pg 1.1.0" "pg 2.0.0"
           ["database"; "sql"] ["database"; "sql"] ["database"; "sql"]);
    reflexivity.
Defined.



End CatalogFacts.


(* ================================================================== *)
(** ** Deprovisioning and polling *)
(* ================================================================== *)

Module PollFacts.
Import Cluster ClusterFacts minibroker.

(** C5.  When no record exists for the instance ID (and the API call
    goes through), [Deprovision], synchronous or not, and
    [LastOperationState], with or without a token, return the HTTP
    status error 410 Gone, which is neither the 404 of NotFound nor a
    wrapped or passed-on error; nothing is changed and no goroutine is
    started. *)
Theorem gone_when_no_record
    (Quote : string -> string) (b : Backend) (c : Client) (instanceID : string) (w : World) :
  faults w = [] ->
  configMaps w !! (namespace c, instanceID) = None ->
  (forall acceptsIncomplete,
     let r := run b (Deprovision Quote c instanceID acceptsIncomplete) w in
     returned r = Returned (Err (HTTPStatusCodeError http.StatusGone None None)) /\
     after r = w /\ spawned r = []) /\
  (forall operationKey,
     let r := run b (LastOperationState c instanceID operationKey) w in
     returned r = Returned (Err (HTTPStatusCodeError http.StatusGone None None)) /\
     after r = w /\ spawned r = []) /\
  http.StatusGone = 410%Z /\ http.StatusGone <> http.StatusNotFound.
Proof.
  intros Hq Habs. split; [|split; [|split; [reflexivity | discriminate]]].
  - intros acceptsIncomplete. unfold Deprovision.
    rewrite run_bind_perform, (handle_Get_absent b _ _ w Hq Habs). now simpl.
  - intros operationKey. unfold LastOperationState.
    rewrite run_bind_perform, (handle_Get_absent b _ _ w Hq Habs). now simpl.
Qed.

(** On the empty sample world no instance has a record. *)
Lemma gone_when_no_record_witness :
  returned (run Sample.backend (Sample.Deprovision Sample.client "i1" false) Sample.emptyWorld)
  = Returned (Err (HTTPStatusCodeError 410 None None)).
Proof.
  apply (proj1 (gone_when_no_record Sample.Quote Sample.backend Sample.client "i1"
                  Sample.emptyWorld eq_refl eq_refl) false).
Defined.

(** [LastOperationState] on an existing record, the API call going
    through. *)
Lemma LastOperationState_run (b : Backend) (c : Client) (instanceID : string)
    (operationKey : option string) (config : corev1.ConfigMap) (w : World) :
  faults w = [] ->
  configMaps w !! (namespace c, instanceID) = Some config ->
  returned (run b (LastOperationState c instanceID operationKey) w) =
  Returned
    (if match operationKey with
        | None => false
        | Some key => negb (String.eqb (strIndex (corev1.cm_Data config) OperationNameKey) key)
        end
     then Err (HTTPStatusCodeError http.StatusBadRequest
                 (Some ConcurrencyErrorMessage) (Some ConcurrencyErrorDescription))
     else Ok {| osb.State := strIndex (corev1.cm_Data config) OperationStateKey;
                osb.resp_Description :=
                  Some (strIndex (corev1.cm_Data config) OperationDescriptionKey) |}).
Proof.
  intros Hq Hrec. unfold LastOperationState.
  rewrite run_bind_perform, (handle_Get_present b _ _ config w Hq Hrec). cbn zeta.
  cbn [fst snd]. now destruct (match operationKey with None => _ | Some _ => _ end).
Qed.

(** C4.  On an existing record (the API call going through), a poll
    with a token that differs from the stored one, which is the empty
    string when the record holds none, fails with the ConcurrencyError
    message and description; a poll without a token or with the stored
    token returns the stored state and description. *)
Theorem poll_checks_operation_token
    (b : Backend) (c : Client) (instanceID : string) (config : corev1.ConfigMap) (w : World) :
  faults w = [] ->
  configMaps w !! (namespace c, instanceID) = Some config ->
  let stored := strIndex (corev1.cm_Data config) OperationNameKey in
  (forall key, key <> stored ->
     returned (run b (LastOperationState c instanceID (Some key)) w) =
     Returned (Err (HTTPStatusCodeError http.StatusBadRequest
                      (Some "ConcurrencyError")
                      (Some "Concurrent modification not supported")))) /\
  (forall operationKey, operationKey = None \/ operationKey = Some stored ->
     returned (run b (LastOperationState c instanceID operationKey) w) =
     Returned (Ok {| osb.State := strIndex (corev1.cm_Data config) OperationStateKey;
                     osb.resp_Description :=
                       Some (strIndex (corev1.cm_Data config) OperationDescriptionKey) |})).
Proof.
  intros Hq Hrec stored. split.
  - intros key Hne. rewrite (LastOperationState_run b c instanceID _ config w Hq Hrec).
    fold stored. destruct (String.eqb_spec stored key) as [->|_]; [congruence|]. reflexivity.
  - intros operationKey Hkey.
    rewrite (LastOperationState_run b c instanceID _ config w Hq Hrec). fold stored.
    destruct Hkey as [->| ->]; [reflexivity|].
    now rewrite String.eqb_refl.
Qed.

(** Polling the sample instance whose provision is in progress with a
    foreign token. *)
Lemma poll_checks_operation_token_witness :
  returned (run Sample.backend (LastOperationState Sample.client "i2" (Some "provision-7"))
              Sample.asyncWorld) =
  Returned (Err (HTTPStatusCodeError 400 (Some "ConcurrencyError")
                   (Some "Concurrent modification not supported"))).
Proof.
  refine (proj1 (poll_checks_operation_token Sample.backend Sample.client "i2"
                   (Sample.recordOf "i2" Sample.asyncWorld) Sample.asyncWorld _ _)
            "provision-7" _).
  - reflexivity.
  - vm_compute. reflexivity.
  - vm_compute. discriminate.
Defined.

End PollFacts.

(* ================================================================== *)
(** ** Binding *)
(* ================================================================== *)

Module BindFacts.
Import Cluster ClusterFacts minibroker.

Lemma selects_singleton (k v : string) (labels : gmap string string) :
  selects (<[k := v]> ∅) labels = true <-> labels !! k = Some v.
Proof.
  unfold selects. rewrite bool_decide_eq_true.
  rewrite map_Forall_insert by apply lookup_empty.
  split; [now intros [H _] | intros H; split; [exact H | apply map_Forall_empty]].
Qed.

Lemma listServices_labelled (instanceID ns : string) (w : World) :
  listServices ns (<[InstanceLabel := instanceID]> ∅) w =
  (Ok (Spec.labelledServices instanceID ns w), w).
Proof.
  unfold listServices, Spec.labelledServices. do 2 f_equal.
  apply list_filter_iff. intros svc.
  rewrite andb_true_iff, String.eqb_eq, selects_singleton. reflexivity.
Qed.

Lemma listSecrets_labelled (instanceID ns : string) (w : World) :
  listSecrets ns (<[InstanceLabel := instanceID]> ∅) w =
  (Ok (Spec.labelledSecrets instanceID ns w), w).
Proof.
  unfold listSecrets, Spec.labelledSecrets. do 2 f_equal.
  apply list_filter_iff. intros sec.
  rewrite andb_true_iff, String.eqb_eq, selects_singleton. reflexivity.
Qed.

(** Filling a map from another, entry by entry, is a union in which the
    entries written win. *)
Lemma map_fold_insert_union (m acc : gmap string Value) :
  map_fold (fun k v params => <[k := v]> params) acc m = m ∪ acc.
Proof.
  apply (map_fold_weak_ind (fun r m => r = m ∪ acc)).
  - now rewrite (left_id_L ∅ (∪)).
  - intros k v m' r Hk ->. now rewrite insert_union_l.
Qed.

Lemma mergeParams_union (provisionParams bindParams : gmap string Value) :
  mergeParams provisionParams bindParams = bindParams ∪ provisionParams.
Proof.
  unfold mergeParams. rewrite !map_fold_insert_union.
  now rewrite (right_id_L ∅ (∪)).
Qed.

Lemma mergeParams_merged (provisionParams bindParams : gmap string Value) :
  Spec.mergedParams provisionParams bindParams (mergeParams provisionParams bindParams).
Proof.
  intros k. rewrite mergeParams_union, lookup_union.
  destruct (bindParams !! k), (provisionParams !! k); reflexivity.
Qed.

(** [Bind] up to the provider, on a record whose parameters decode and
    with the API calls going through. *)
Lemma Bind_run (json_Unmarshal : string -> result (gmap string Value))
    (b : Backend) (c : Client) (instanceID serviceID : string)
    (bindParams provisionParams : gmap string Value)
    (config : corev1.ConfigMap) (w : World) :
  faults w = [] ->
  configMaps w !! (namespace c, instanceID) = Some config ->
  json_Unmarshal (strIndex (corev1.cm_Data config) ProvisionParamsKey) = Ok provisionParams ->
  let ns := strIndex (corev1.cm_Data config) ReleaseNamespaceKey in
  let svcs := Spec.labelledServices instanceID ns w in
  let secs := Spec.labelledSecrets instanceID ns w in
  returned (run b (Bind json_Unmarshal c instanceID serviceID bindParams) w) =
  Returned
    (if Nat.eqb (length svcs) 0
     then Err (HTTPStatusCodeError http.StatusNotFound None None)
     else if Nat.eqb (length secs) 0
     then Err (HTTPStatusCodeError http.StatusNotFound None None)
     else match providers c !! serviceID with
          | Some provider =>
              match provider svcs (mergeParams provisionParams bindParams) (secretData secs) with
              | Err err => Err (Wrapf err "unable to bind instance %s" [VStr instanceID])
              | Ok creds =>
                  Ok (map_fold (fun k v data => <[k := v]> data) (secretData secs) creds)
              end
          | None => Ok (secretData secs)
          end).
Proof.
  intros Hq Hrec Hjson ns svcs secs. unfold Bind.
  rewrite run_bind_perform, (handle_Get_present b _ _ config w Hq Hrec).
  cbn zeta. cbn [fst snd]. rewrite Hjson.
  rewrite run_bind_perform, (handle_Services_List b _ _ w Hq), listServices_labelled.
  cbn zeta. cbn [fst snd]. fold ns. fold svcs.
  destruct (Nat.eqb (length svcs) 0); [reflexivity|].
  rewrite run_bind_perform, (handle_Secrets_List b _ _ w Hq), listSecrets_labelled.
  cbn zeta. cbn [fst snd]. fold ns. fold secs.
  destruct (Nat.eqb (length secs) 0); [reflexivity|].
  destruct (providers c !! serviceID) as [provider|]; [|reflexivity].
  now destruct (provider svcs _ _).
Qed.




(** C7.  The parameters [Bind] hands to the provider are the stored
    provision parameters merged with the bind parameters, a key of both
    taking the bind-time value: the merge is the union in which the bind
    parameters win, the provider registered for the service is applied
    to it, and stored {a:1} merged with bind {a:2,b:3} is {a:2,b:3}. *)
Theorem bind_params_take_precedence :
  (forall provisionParams bindParams,
     Spec.mergedParams provisionParams bindParams (mergeParams provisionParams bindParams))
  /\
  (forall json_Unmarshal b c instanceID serviceID bindParams provisionParams config w provider,
     faults w = [] ->
     configMaps w !! (namespace c, instanceID) = Some config ->
     json_Unmarshal (strIndex (corev1.cm_Data config) ProvisionParamsKey) = Ok provisionParams ->
     providers c !! serviceID = Some provider ->
     let ns := strIndex (corev1.cm_Data config) ReleaseNamespaceKey in
     let svcs := Spec.labelledServices instanceID ns w in
     let secs := Spec.labelledSecrets instanceID ns w in
     svcs <> [] -> secs <> [] ->
     forall merged, Spec.mergedParams provisionParams bindParams merged ->
     returned (run b (Bind json_Unmarshal c instanceID serviceID bindParams) w) =
     Returned
       match provider svcs merged (secretData secs) with
       | Err err => Err (Wrapf err "unable to bind instance %s" [VStr instanceID])
       | Ok creds => Ok (creds ∪ secretData secs)
       end)
  /\
  mergeParams (<["a" := VNum 1]> ∅) (<["a" := VNum 2]> (<["b" := VNum 3]> ∅))
  = <["a" := VNum 2]> (<["b" := VNum 3]> ∅).
Proof.
  split; [exact mergeParams_merged|]. split.
  - intros json_Unmarshal b c instanceID serviceID bindParams provisionParams config w
      provider Hq Hrec Hjson Hprov ns svcs secs Hsvcs Hsecs merged Hmerged.
    rewrite (Bind_run json_Unmarshal b c instanceID serviceID bindParams provisionParams
               config w Hq Hrec Hjson).
    fold ns. fold svcs. fold secs. rewrite Hprov.
    assert (Hm : merged = mergeParams provisionParams bindParams).
    { apply map_eq. intros k. now rewrite Hmerged, (mergeParams_merged _ _ k). }
    subst merged.
    destruct svcs; [congruence|]. destruct secs; [congruence|]. cbn [length Nat.eqb].
    destruct (provider _ _ _); [|reflexivity].
    now rewrite map_fold_insert_union.
  - rewrite mergeParams_union. apply map_eq. intros k.
    rewrite lookup_union.
    destruct (decide (k = "a")) as [->|Ha]; [reflexivity|].
    destruct (decide (k = "b")) as [->|Hb]; [reflexivity|].
    rewrite !lookup_insert_ne, lookup_empty by congruence. reflexivity.
Qed.

(** The sample instance was provisioned with {a:1}; it is bound with
    {a:2,b:3} through a provider that returns the parameters it gets. *)
Lemma bind_params_take_precedence_witness :
  returned (run Sample.backend (Sample.Bind Sample.client "i1" "pg" Sample.a2b3)
              Sample.provisionedWorld) =
  Returned (Ok (Sample.a2b3 ∪
                secretData (Spec.labelledSecrets "i1" "apps" Sample.provisionedWorld))).
Proof.
  refine (proj1 (proj2 bind_params_take_precedence) Sample.json_Unmarshal Sample.backend
            Sample.client "i1" "pg" Sample.a2b3 Sample.a1
            (Sample.recordOf "i1" Sample.provisionedWorld) Sample.provisionedWorld
            (fun _ params _ => Ok params) _ _ _ _ _ _ Sample.a2b3 _).
  - reflexivity.
  - vm_compute. reflexivity.
  - vm_compute. reflexivity.
  - vm_compute. reflexivity.
  - vm_compute. discriminate.
  - vm_compute. discriminate.
  - intros k. unfold Sample.a2b3, Sample.a1.
    destruct (decide (k = "a")) as [->|Ha]; [reflexivity|].
    destruct (decide (k = "b")) as [->|Hb]; [reflexivity|].
    now rewrite !lookup_insert_ne, lookup_empty by congruence.
Defined.

(** C10.  [Bind] only reads: whatever its arguments, the world and the
    fault script, it leaves the instance records, the services, the
    secrets and the releases as they were, every call it makes is a get
    of a record or a list of services or secrets, and it starts no
    goroutine. *)
Theorem bind_only_reads
    (json_Unmarshal : string -> result (gmap string Value))
    (b : Backend) (c : Client) (instanceID serviceID : string)
    (bindParams : gmap string Value) (w : World) :
  let r := run b (Bind json_Unmarshal c instanceID serviceID bindParams) w in
  configMaps (after r) = configMaps w /\
  workload (after r) = workload w /\
  Forall (fun e => isRead e = true) (trace r) /\
  spawned r = [].
Proof.
  unfold Bind. rewrite run_bind_perform.
  pose proof (handle_Get_frame b (namespace c) instanceID w) as [Hc1 Hw1].
  destruct (handle b (ConfigMaps_Get (namespace c) instanceID) w) as [r1 w1].
  cbn [fst snd] in *. cbn zeta.
  destruct r1 as [config|err].
  2:{ destruct (apierrors.IsNotFound err); simpl; repeat split; auto. }
  destruct (json_Unmarshal _) as [provisionParams|err].
  2:{ simpl; repeat split; auto. }
  rewrite run_bind_perform.
  match goal with
  | |- context [handle b (Services_List ?ns ?sel) w1] =>
      pose proof (handle_Services_List_frame b ns sel w1) as [Hc2 Hw2];
      destruct (handle b (Services_List ns sel) w1) as [r2 w2]
  end.
  cbn [fst snd] in *. cbn zeta. rewrite Hc1 in Hc2. rewrite Hw1 in Hw2.
  destruct r2 as [svcs|err].
  2:{ simpl; repeat split; auto. }
  destruct (Nat.eqb (length svcs) 0).
  { simpl; repeat split; auto. }
  rewrite run_bind_perform.
  match goal with
  | |- context [handle b (Secrets_List ?ns ?sel) w2] =>
      pose proof (handle_Secrets_List_frame b ns sel w2) as [Hc3 Hw3];
      destruct (handle b (Secrets_List ns sel) w2) as [r3 w3]
  end.
  cbn [fst snd] in *. cbn zeta. rewrite Hc2 in Hc3. rewrite Hw2 in Hw3.
  destruct r3 as [secs|err].
  2:{ simpl; repeat split; auto. }
  destruct (Nat.eqb (length secs) 0).
  { simpl; repeat split; auto. }
  destruct (providers c !! serviceID) as [provider|].
  2:{ simpl; repeat split; auto. }
  destruct (provider _ _ _); simpl; repeat split; auto.
Qed.

End BindFacts.

(* ================================================================== *)
(** ** Provisioning *)
(* ================================================================== *)

Module ProvisionFacts.
Import GoStrings GoStringsFacts Cluster ClusterFacts minibroker Admission.

Lemma keepsRecords_bind {A B : Type} (p : prog A) (f : A -> prog B) :
  keepsRecords p -> (forall a, keepsRecords (f a)) -> keepsRecords (p ≫= f).
Proof.
  intros Hp Hf. induction Hp as [A a|A|A X c k Hc Hk IH|A body k Hbody _ Hk IH].
  - apply Hf.
  - constructor.
  - apply keeps_Call; [exact Hc|]. intros x. now apply IH.
  - apply keeps_Go; [exact Hbody | now apply IH].
Qed.

Lemma keepsRecords_perform {X : Type} (c : call X) :
  isRecordDelete c = false -> keepsRecords (perform c).
Proof. intros H. apply keeps_Call; [exact H|]. intros x. constructor. Qed.

Lemma keepsRecords_mret {A : Type} (a : A) : keepsRecords (mret a : prog A).
Proof. constructor. Qed.

Lemma keepsRecords_forEach {A : Type} (f : A -> prog (result unit)) (items : list A) :
  (forall x, keepsRecords (f x)) -> keepsRecords (forEach f items).
Proof.
  intros Hf. induction items as [|x items IH]; simpl.
  - constructor.
  - apply keepsRecords_bind; [apply Hf|].
    intros [u|err]; [exact IH | constructor].
Qed.

Ltac keeps :=
  repeat first
    [ progress intros
    | apply keepsRecords_mret
    | apply keeps_Ret
    | apply keepsRecords_perform; reflexivity
    | apply keepsRecords_forEach
    | apply keepsRecords_bind
    | apply keeps_Go
    | match goal with
      | |- keepsRecords (match ?x with _ => _ end) => destruct x
      end
    | assumption ].

Section Keeps.
Variable yaml_Marshal : gmap string Value -> result string.
Variable Quote : string -> string.
Variable c : Client.

Lemma keeps_updateConfigMap instanceID data :
  keepsRecords (updateConfigMap c instanceID data).
Proof. unfold updateConfigMap, getConfigMap. keeps. Qed.

Lemma keeps_installRelease chartName chartVersion namespace provisionParams opts :
  keepsRecords (installRelease yaml_Marshal c chartName chartVersion namespace
                  provisionParams opts).
Proof. unfold installRelease, connectTiller. keeps. Qed.

Lemma keeps_updateProvisioningState releaseName instanceID namespace provisionParams :
  keepsRecords (updateProvisioningState c releaseName instanceID namespace provisionParams).
Proof.
  unfold updateProvisioningState, labelService, labelSecret, updateConfigMap, getConfigMap.
  keeps.
Qed.

Lemma keeps_provisionInBackground instanceID chartName chartVersion namespace provisionParams :
  keepsRecords (provisionInBackground yaml_Marshal Quote c instanceID chartName chartVersion
                  namespace provisionParams).
Proof.
  unfold provisionInBackground, provisionFail. keeps;
    first [apply keeps_installRelease | apply keeps_updateProvisioningState
          | apply keeps_updateConfigMap].
Qed.

Lemma keeps_provisionAdmitted instanceID serviceID planID namespace acceptsIncomplete
    provisionParams created :
  keepsRecords (provisionAdmitted yaml_Marshal Quote c instanceID serviceID planID namespace
                  acceptsIncomplete provisionParams created).
Proof.
  unfold provisionAdmitted, generateOperationName. keeps;
    first [apply keeps_installRelease | apply keeps_updateProvisioningState
          | apply keeps_updateConfigMap | apply keeps_provisionInBackground].
Qed.
End Keeps.

(** A call other than the delete of a record keeps every record that
    exists, and no call brings faults into a quiet transport. *)
Lemma handle_keeps_record (b : Backend) {X : Type} (call : call X) (w : World)
    (key : string * string) :
  isRecordDelete call = false ->
  is_Some (configMaps w !! key) ->
  is_Some (configMaps (handle b call w).2 !! key).
Proof.
  intros Hc Hkey.
  assert (Hapi : forall (A : Type) (normal : World -> result A * World),
             (forall w0, is_Some (configMaps w0 !! key) ->
                         is_Some (configMaps (normal w0).2 !! key)) ->
             is_Some (configMaps (apiCall normal w).2 !! key)).
  { intros A normal Hn. unfold apiCall.
    destruct (faults w) as [|[err|] rest]; simpl; auto. }
  destruct call; simpl in *; try discriminate; try assumption;
    try (apply Hapi; intros w0 H0).
  - now destruct (installReleaseFromChart _ _ _ _ _).
  - now destruct (deleteRelease _ _ _ _).
  - unfold createConfigMap. destruct (configMaps w0 !! (_, _)); simpl; [assumption|].
    now apply lookup_insert_is_Some'; right.
  - unfold Cluster.getConfigMap. now destruct (configMaps w0 !! (_, _)).
  - unfold Cluster.updateConfigMap. destruct (configMaps w0 !! (_, _)); simpl; [|assumption].
    now apply lookup_insert_is_Some'; right.
  - assumption.
  - unfold patchService. now destruct (find _ _).
  - assumption.
  - unfold patchSecret. now destruct (find _ _).
  - now destruct (rands w).
Qed.

Lemma handle_quiet (b : Backend) {X : Type} (call : call X) (w : World) :
  faults w = [] -> faults (handle b call w).2 = [].
Proof.
  intros Hq.
  destruct call; simpl; rewrite ?apiCall_quiet by assumption; try assumption.
  - now destruct (installReleaseFromChart _ _ _ _ _).
  - now destruct (deleteRelease _ _ _ _).
  - unfold createConfigMap. now destruct (configMaps w !! _).
  - unfold Cluster.getConfigMap. now destruct (configMaps w !! _).
  - unfold Cluster.updateConfigMap. now destruct (configMaps w !! _).
  - unfold deleteConfigMap. now destruct (configMaps w !! _).
  - unfold patchService. now destruct (find _ _).
  - unfold patchSecret. now destruct (find _ _).
  - now destruct (rands w).
Qed.


Lemma step_keeps (b : Backend) {A : Type} (p p' : prog A) (w w' : World)
    (started : list (prog unit)) (calls : list entry) (key : string * string) :
  keepsRecords p -> faults w = [] -> is_Some (configMaps w !! key) ->
  step b p w = (p', w', started, calls) ->
  keepsRecords p' /\ Forall (fun body => keepsRecords body) started /\
  faults w' = [] /\ is_Some (configMaps w' !! key).
Proof.
  intros Hp Hq Hkey Hstep.
  destruct Hp as [A a|A|A X call k Hc Hk|A body k Hbody Hk]; simpl in Hstep.
  - injection Hstep as <- <- <- <-. repeat split; auto. constructor.
  - injection Hstep as <- <- <- <-. repeat split; auto. constructor.
  - pose proof (handle_keeps_record b call w key Hc Hkey) as Hkey'.
    pose proof (handle_quiet b call w Hq) as Hq'.
    destruct (handle b call w) as [x w1]. injection Hstep as <- <- <- <-.
    repeat split; auto.
  - injection Hstep as <- <- <- <-. repeat split; auto.
Qed.

Lemma step_finished (b : Backend) {A : Type} (p : prog A) (w : World) :
  finished p = true -> step b p w = (p, w, [], []).
Proof. destruct p; simpl; congruence. Qed.

(** A thread that runs alone comes to its end. *)
Lemma drive_finishes (b : Backend) {A : Type} (p : prog A) :
  forall w, exists n, finished (drive b n p w).1.1.1 = true.
Proof.
  induction p as [A a|A|A X call k IH|A body _ k IH]; intros w.
  - now exists 0.
  - now exists 0.
  - destruct (handle b call w) as [x w1] eqn:Hh.
    destruct (IH x w1) as [n Hn]. exists (S n). simpl. rewrite Hh.
    now destruct (drive b n (k x) w1) as [[[p2 w2] s2] c2].
  - destruct (IH w) as [n Hn]. exists (S n). simpl.
    now destruct (drive b n k w) as [[[p2 w2] s2] c2].
Qed.

Lemma interleave_app (b : Backend) (s1 s2 : list turn) (r : Race) :
  interleave b (s1 ++ s2) r = interleave b s2 (interleave b s1 r).
Proof. apply fold_left_app. Qed.

Lemma interleave_first (b : Backend) (n : nat) (r : Race) :
  first (interleave b (repeat TurnFirst n) r) = (drive b n (first r) (world r)).1.1.1 /\
  second (interleave b (repeat TurnFirst n) r) = second r.
Proof.
  revert r; induction n as [|n IH]; intros r; [now split|].
  change (repeat TurnFirst (S n)) with ([TurnFirst] ++ repeat TurnFirst n).
  rewrite interleave_app. destruct (IH (interleave b [TurnFirst] r)) as [H1 H2].
  rewrite H1, H2. simpl.
  destruct (step b (first r) (world r)) as [[[p1 w1] s1] c1]. simpl.
  now destruct (drive b n p1 w1) as [[[p2 w2] s2] c2].
Qed.

Lemma interleave_second (b : Backend) (n : nat) (r : Race) :
  second (interleave b (repeat TurnSecond n) r) = (drive b n (second r) (world r)).1.1.1 /\
  first (interleave b (repeat TurnSecond n) r) = first r.
Proof.
  revert r; induction n as [|n IH]; intros r; [now split|].
  change (repeat TurnSecond (S n)) with ([TurnSecond] ++ repeat TurnSecond n).
  rewrite interleave_app. destruct (IH (interleave b [TurnSecond] r)) as [H1 H2].
  rewrite H1, H2. simpl.
  destruct (step b (second r) (world r)) as [[[p1 w1] s1] c1]. simpl.
  now destruct (drive b n p1 w1) as [[[p2 w2] s2] c2].
Qed.

(** Whatever has happened, the two requests can be run to their end. *)
Lemma race_can_finish (b : Backend) (r : Race) :
  exists more, finished (first (interleave b more r)) = true /\
               finished (second (interleave b more r)) = true.
Proof.
  destruct (drive_finishes b (first r) (world r)) as [n1 Hn1].
  pose proof (interleave_first b n1 r) as [Hf1 _].
  set (r1 := interleave b (repeat TurnFirst n1) r) in *.
  destruct (drive_finishes b (second r1) (world r1)) as [n2 Hn2].
  pose proof (interleave_second b n2 r1) as [Hs2 Hf2].
  exists (repeat TurnFirst n1 ++ repeat TurnSecond n2).
  rewrite interleave_app. fold r1. rewrite Hs2, Hf2, Hf1. now split.
Qed.


Lemma step_bind_perform (b : Backend) {A X : Type} (call : call X) (k : X -> prog A)
    (w : World) :
  step b (perform call ≫= k) w =
  (k (handle b call w).1, (handle b call w).2, [], [Entry call (handle b call w).1]).
Proof.
  change (perform call ≫= k) with (Call call (fun x => k x)).
  simpl. now destruct (handle b call w).
Qed.

Section RaceProofs.
Variable json_Marshal : gmap string Value -> result string.
Variable yaml_Marshal : gmap string Value -> result string.
Variable Quote : string -> string.
Variable b : Backend.
Variable c : Client.
Variable instanceID : string.

Local Abbreviation serve := (Admission.serve json_Marshal yaml_Marshal Quote c instanceID).
Local Abbreviation won := (Admission.won c instanceID).
Local Abbreviation waiting :=
  (Admission.waiting json_Marshal yaml_Marshal Quote c instanceID).
Local Abbreviation admitted := (Admission.admitted c instanceID).
Local Abbreviation refused := (Admission.refused c instanceID).
Local Abbreviation recorded := (Admission.recorded c instanceID).
Local Abbreviation raceInvariant :=
  (Admission.raceInvariant json_Marshal yaml_Marshal Quote c instanceID).

Lemma won_app (calls more : list entry) :
  won calls = true -> won (calls ++ more) = true.
Proof. unfold Admission.won. intros H. now rewrite existsb_app, H. Qed.

(** The first step of a request is its create call: it wins when no
    record exists... *)
Lemma waiting_wins q js p calls w p' w' started calls' :
  waiting q p calls -> json_Marshal (req_params q) = Ok js ->
  faults w = [] -> configMaps w !! (namespace c, instanceID) = None ->
  step b p w = (p', w', started, calls') ->
  admitted p' (calls ++ calls') /\ started = [] /\ faults w' = [] /\ recorded w'.
Proof.
  intros [-> ->] Hjs Hq Habs Hstep.
  unfold Admission.serve, Provision in Hstep. rewrite Hjs in Hstep.
  rewrite step_bind_perform in Hstep.
  cbn [corev1.cm_Namespace] in Hstep.
  match type of Hstep with
  | context [handle b (ConfigMaps_Create ?ns ?cfg) w] =>
      rewrite (handle_Create_absent b ns cfg w Hq Habs) in Hstep
  end.
  cbn [fst snd] in Hstep. injection Hstep as <- <- <- <-.
  repeat split.
  - cbn. now rewrite !String.eqb_refl.
  - exact (keeps_provisionAdmitted yaml_Marshal Quote c instanceID (req_serviceID q)
             (req_planID q) (req_namespace q) (req_acceptsIncomplete q) (req_params q)
             (Ok {| corev1.cm_Name := instanceID; corev1.cm_Namespace := namespace c;
                    corev1.cm_Labels := ∅; corev1.cm_Data := ∅ |})).
  - exact Hq.
  - unfold Admission.recorded. cbn. rewrite lookup_insert_eq. eauto.
Qed.

(** ... and is refused with Conflict when one does. *)
Lemma waiting_loses q js p calls w p' w' started calls' :
  waiting q p calls -> json_Marshal (req_params q) = Ok js ->
  faults w = [] -> recorded w ->
  step b p w = (p', w', started, calls') ->
  refused p' (calls ++ calls') /\ started = [] /\ w' = w.
Proof.
  intros [-> ->] Hjs Hq [existing Hrec] Hstep.
  unfold Admission.serve, Provision in Hstep. rewrite Hjs in Hstep.
  rewrite step_bind_perform in Hstep.
  cbn [corev1.cm_Namespace] in Hstep.
  match type of Hstep with
  | context [handle b (ConfigMaps_Create ?ns ?cfg) w] =>
      rewrite (handle_Create_present b ns cfg existing w Hq Hrec) in Hstep
  end.
  cbn [fst snd] in Hstep. injection Hstep as <- <- <- <-.
  repeat split. discriminate.
Qed.

Lemma admitted_goes_on p calls w p' w' started calls' :
  admitted p calls -> faults w = [] -> recorded w ->
  step b p w = (p', w', started, calls') ->
  admitted p' (calls ++ calls') /\ Forall (fun body => keepsRecords body) started /\
  faults w' = [] /\ recorded w'.
Proof.
  intros [Hwon Hkeeps] Hq Hrec Hstep.
  destruct (step_keeps b p p' w w' started calls' _ Hkeeps Hq Hrec Hstep)
    as (Hk & Hs & Hq' & Hrec').
  repeat split; auto. now apply won_app.
Qed.

Lemma refused_stays p calls w p' w' started calls' :
  refused p calls -> step b p w = (p', w', started, calls') ->
  p' = p /\ calls ++ calls' = calls /\ started = [] /\ w' = w.
Proof.
  intros [-> _] Hstep. simpl in Hstep. injection Hstep as <- <- <- <-.
  now rewrite app_nil_r.
Qed.

Variables q1 q2 : request.
Variables js1 js2 : string.
Hypothesis marshal1 : json_Marshal (req_params q1) = Ok js1.
Hypothesis marshal2 : json_Marshal (req_params q2) = Ok js2.

Ltac close_case :=
  cbn [first firstTrace second secondTrace background world];
  repeat match goal with |- _ /\ _ => split end; assumption.

Lemma advance_invariant (r : Race) (t : turn) :
  raceInvariant q1 q2 r -> raceInvariant q1 q2 (advance b r t).
Proof.
  intros (Hq & Hbg & Hcases). destruct t as [| |i]; unfold advance.
  - destruct (step b (first r) (world r)) as [[[p w'] started] calls] eqn:Hstep.
    destruct Hcases as [(H1 & H2 & Hnil & Habs)|[(H1 & H2 & Hrec)|[(H1 & H2 & Hrec)
                       |[(H1 & H2 & Hrec)|(H1 & H2 & Hrec)]]]].
    + destruct (waiting_wins _ _ _ _ _ _ _ _ _ H1 marshal1 Hq Habs Hstep)
        as (Ha & -> & Hq' & Hrec').
      split; [exact Hq'|]. split; [simpl; now rewrite app_nil_r|].
      right; left. close_case.
    + destruct (admitted_goes_on _ _ _ _ _ _ _ H1 Hq Hrec Hstep) as (Ha & Hs & Hq' & Hrec').
      split; [exact Hq'|]. split; [simpl; now apply Forall_app|].
      right; left. close_case.
    + destruct (waiting_loses _ _ _ _ _ _ _ _ _ H1 marshal1 Hq Hrec Hstep) as (Ha & -> & ->).
      split; [exact Hq|]. split; [simpl; now rewrite app_nil_r|].
      do 4 right. close_case.
    + destruct (admitted_goes_on _ _ _ _ _ _ _ H1 Hq Hrec Hstep) as (Ha & Hs & Hq' & Hrec').
      split; [exact Hq'|]. split; [simpl; now apply Forall_app|].
      do 3 right; left. close_case.
    + destruct (refused_stays _ _ _ _ _ _ _ H1 Hstep) as (-> & -> & -> & ->).
      split; [exact Hq|]. split; [simpl; now rewrite app_nil_r|].
      do 4 right. close_case.
  - destruct (step b (second r) (world r)) as [[[p w'] started] calls] eqn:Hstep.
    destruct Hcases as [(H1 & H2 & Hnil & Habs)|[(H1 & H2 & Hrec)|[(H1 & H2 & Hrec)
                       |[(H1 & H2 & Hrec)|(H1 & H2 & Hrec)]]]].
    + destruct (waiting_wins _ _ _ _ _ _ _ _ _ H2 marshal2 Hq Habs Hstep)
        as (Ha & -> & Hq' & Hrec').
      split; [exact Hq'|]. split; [simpl; now rewrite app_nil_r|].
      do 2 right; left. close_case.
    + destruct (waiting_loses _ _ _ _ _ _ _ _ _ H2 marshal2 Hq Hrec Hstep) as (Ha & -> & ->).
      split; [exact Hq|]. split; [simpl; now rewrite app_nil_r|].
      do 3 right; left. close_case.
    + destruct (admitted_goes_on _ _ _ _ _ _ _ H2 Hq Hrec Hstep) as (Ha & Hs & Hq' & Hrec').
      split; [exact Hq'|]. split; [simpl; now apply Forall_app|].
      do 2 right; left. close_case.
    + destruct (refused_stays _ _ _ _ _ _ _ H2 Hstep) as (-> & -> & -> & ->).
      split; [exact Hq|]. split; [simpl; now rewrite app_nil_r|].
      do 3 right; left. close_case.
    + destruct (admitted_goes_on _ _ _ _ _ _ _ H2 Hq Hrec Hstep) as (Ha & Hs & Hq' & Hrec').
      split; [exact Hq'|]. split; [simpl; now apply Forall_app|].
      do 4 right. close_case.
  - destruct (background r !! i) as [body|] eqn:Hbody; [|now repeat split].
    assert (Hkeeps : keepsRecords body).
    { rewrite Forall_lookup in Hbg. exact (Hbg i body Hbody). }
    destruct (step b body (world r)) as [[[p w'] started] calls] eqn:Hstep.
    assert (Hrec : recorded (world r)).
    { destruct Hcases as [(_ & _ & Hnil & _)|[(_ & _ & H)|[(_ & _ & H)
                         |[(_ & _ & H)|(_ & _ & H)]]]]; try exact H.
      rewrite Hnil in Hbody. discriminate. }
    destruct (step_keeps b body p (world r) w' started calls _ Hkeeps Hq Hrec Hstep)
      as (Hk & Hs & Hq' & Hrec').
    split; [exact Hq'|]. split.
    { simpl. apply Forall_app. split; [|exact Hs]. now apply Forall_insert. }
    simpl.
    destruct Hcases as [(_ & _ & Hnil & _)|[(H1 & H2 & _)|[(H1 & H2 & _)
                       |[(H1 & H2 & _)|(H1 & H2 & _)]]]].
    + rewrite Hnil in Hbody. discriminate.
    + right; left. close_case.
    + do 2 right; left. close_case.
    + do 3 right; left. close_case.
    + do 4 right. close_case.
Qed.

Lemma interleave_invariant (schedule : list turn) (r : Race) :
  raceInvariant q1 q2 r -> raceInvariant q1 q2 (interleave b schedule r).
Proof.
  revert r; induction schedule as [|t schedule IH]; intros r Hr; [exact Hr|].
  simpl. apply IH. now apply advance_invariant.
Qed.

Lemma arrival_invariant (w : World) :
  faults w = [] -> configMaps w !! (namespace c, instanceID) = None ->
  raceInvariant q1 q2 (arrival json_Marshal yaml_Marshal Quote c instanceID q1 q2 w).
Proof.
  intros Hq Habs. split; [exact Hq|]. split; [constructor|].
  left. now repeat split.
Qed.

Lemma serve_not_finished q js :
  json_Marshal (req_params q) = Ok js -> finished (serve q) = false.
Proof. intros H. unfold Admission.serve, Provision. now rewrite H. Qed.

(** What the invariant says of the outcome. *)
Lemma invariant_outcome (r : Race) :
  raceInvariant q1 q2 r ->
  ~ (won (firstTrace r) = true /\ won (secondTrace r) = true) /\
  ((firstTrace r <> [] /\ secondTrace r <> []) \/
   (finished (first r) = true /\ finished (second r) = true) ->
   (won (firstTrace r) = true /\ won (secondTrace r) = false /\
    second r = Ret conflict) \/
   (won (secondTrace r) = true /\ won (firstTrace r) = false /\
    first r = Ret conflict)).
Proof.
  intros (_ & _ & Hcases).
  destruct Hcases as [([Hp1 Ht1] & [Hp2 Ht2] & _)|[([Hw1 _] & [Hp2 Ht2] & _)
                     |[([Hp1 Ht1] & [Hw2 _] & _)
                     |[([Hw1 _] & (Hp2 & Hl2 & Hn2) & _)|((Hp1 & Hl1 & Hn1) & [Hw2 _] & _)]]]].
  - split; [rewrite Ht1; intros [H _]; discriminate|].
    intros [[H _]|[H _]]; [congruence|].
    rewrite Hp1, (serve_not_finished _ _ marshal1) in H. discriminate.
  - split; [rewrite Ht2; intros [_ H]; discriminate|].
    intros [[_ H]|[_ H]]; [congruence|].
    rewrite Hp2, (serve_not_finished _ _ marshal2) in H. discriminate.
  - split; [rewrite Ht1; intros [H _]; discriminate|].
    intros [[H _]|[H _]]; [congruence|].
    rewrite Hp1, (serve_not_finished _ _ marshal1) in H. discriminate.
  - split; [intros [_ H]; congruence|]. intros _. left. now repeat split.
  - split; [intros [H _]; congruence|]. intros _. right. now repeat split.
Qed.

End RaceProofs.


(** C1.  When the instance ID already has a record (the parameters
    marshal and the API call goes through), the create call of
    [Provision] fails with AlreadyExists and [Provision] returns the
    HTTP status error 409 Conflict with the ConcurrencyError message and
    description; it changes nothing, starts no goroutine and makes no
    other call, so no install call.  When two provision requests for an instance ID
    without a record are served concurrently, under every schedule of
    their steps and of the goroutines they start: never both create the
    record; once both have made their first call, one has created it and
    the other has returned Conflict; and the schedule can always be
    continued until both have returned, with that outcome. *)
Theorem provision_conflict_and_admission
    (json_Marshal yaml_Marshal : gmap string Value -> result string)
    (Quote : string -> string) (b : Backend) (c : Client) (instanceID : string) :
  (forall serviceID planID ns acceptsIncomplete provisionParams w existing js,
     json_Marshal provisionParams = Ok js ->
     faults w = [] ->
     configMaps w !! (namespace c, instanceID) = Some existing ->
     let r := run b (Provision json_Marshal yaml_Marshal Quote c instanceID serviceID planID
                       ns acceptsIncomplete provisionParams) w in
     returned r = Returned (Err (HTTPStatusCodeError 409
                                   (Some "ConcurrencyError")
                                   (Some "Concurrent modification not supported"))) /\
     after r = w /\ spawned r = [] /\
     Forall (fun e => isInstall e = false) (trace r) /\
     exists config err,
       trace r = [Entry (ConfigMaps_Create (namespace c) config) (Err err)] /\
       apierrors.IsAlreadyExists err = true)
  /\
  (forall q1 q2 js1 js2 w schedule,
     json_Marshal (req_params q1) = Ok js1 ->
     json_Marshal (req_params q2) = Ok js2 ->
     faults w = [] ->
     configMaps w !! (namespace c, instanceID) = None ->
     let start := arrival json_Marshal yaml_Marshal Quote c instanceID q1 q2 w in
     let r := interleave b schedule start in
     ~ (won c instanceID (firstTrace r) = true /\ won c instanceID (secondTrace r) = true) /\
     (firstTrace r <> [] -> secondTrace r <> [] -> oneAdmitted c instanceID r) /\
     exists more,
       let r' := interleave b (schedule ++ more) start in
       finished (first r') = true /\ finished (second r') = true /\
       oneAdmitted c instanceID r').
Proof.
  split.
  - intros serviceID planID ns acceptsIncomplete provisionParams w existing js Hjs Hq Hrec.
    unfold Provision. rewrite Hjs. rewrite run_bind_perform.
    cbn [corev1.cm_Namespace].
    match goal with
    | |- context [handle b (ConfigMaps_Create ?n ?cfg) w] =>
        rewrite (handle_Create_present b n cfg existing w Hq Hrec)
    end.
    cbn. split; [reflexivity|]. split; [reflexivity|]. split; [reflexivity|].
    split; [repeat constructor|]. eexists. eexists. split; reflexivity.
  - intros q1 q2 js1 js2 w schedule Hjs1 Hjs2 Hq Habs start r.
    pose proof (arrival_invariant json_Marshal yaml_Marshal Quote c instanceID q1 q2
                  w Hq Habs) as Hstart.
    fold start in Hstart.
    pose proof (interleave_invariant json_Marshal yaml_Marshal Quote b c instanceID
                  q1 q2 js1 js2 Hjs1 Hjs2 schedule start Hstart) as Hr.
    fold r in Hr.
    destruct (invariant_outcome json_Marshal yaml_Marshal Quote c instanceID
                q1 q2 js1 js2 Hjs1 Hjs2 r Hr) as [Hnot Hone].
    split; [exact Hnot|]. split; [intros H1 H2; apply Hone; now left|].
    destruct (race_can_finish b r) as [more [Hf1 Hf2]].
    exists more. cbn zeta. rewrite interleave_app. fold start. fold r.
    split; [exact Hf1|]. split; [exact Hf2|].
    pose proof (interleave_invariant json_Marshal yaml_Marshal Quote b c instanceID
                  q1 q2 js1 js2 Hjs1 Hjs2 more r Hr) as Hr'.
    destruct (invariant_outcome json_Marshal yaml_Marshal Quote c instanceID
                q1 q2 js1 js2 Hjs1 Hjs2 _ Hr') as [_ Hone'].
    apply Hone'. now right.
Qed.

(** A second provision of the sample instance, and two requests for a
    new instance where the second is scheduled first. *)
Lemma provision_conflict_and_admission_witness :
  returned (run Sample.backend
              (Sample.Provision Sample.client "i1" "pg" "pg-9-6" "apps" false Sample.a1)
              Sample.provisionedWorld) =
  Returned (Err (HTTPStatusCodeError 409 (Some "ConcurrencyError")
                   (Some "Concurrent modification not supported")))
  /\
  oneAdmitted Sample.client "i9"
    (interleave Sample.backend [TurnSecond; TurnFirst]
       (arrival Sample.json_Marshal Sample.yaml_Marshal Sample.Quote Sample.client "i9"
          Sample.request1 Sample.request2 Sample.emptyWorld)).
Proof.
  split.
  - refine (proj1 (proj1 (provision_conflict_and_admission Sample.json_Marshal
                            Sample.yaml_Marshal Sample.Quote Sample.backend Sample.client "i1")
                     "pg" "pg-9-6" "apps" false Sample.a1 Sample.provisionedWorld
                     (Sample.recordOf "i1" Sample.provisionedWorld) "{a:1}" _ _ _)).
    + reflexivity.
    + reflexivity.
    + vm_compute. reflexivity.
  - refine (proj1 (proj2 (proj2 (provision_conflict_and_admission Sample.json_Marshal
                                   Sample.yaml_Marshal Sample.Quote Sample.backend
                                   Sample.client "i9")
                            Sample.request1 Sample.request2 "{a:1}" "{}" Sample.emptyWorld
                            [TurnSecond; TurnFirst] _ _ _ _)) _ _).
    + reflexivity.
    + reflexivity.
    + reflexivity.
    + reflexivity.
    + vm_compute. discriminate.
    + vm_compute. discriminate.
Defined.

Lemma append_assoc (s t u : string) : s +:+ t +:+ u = (s +:+ t) +:+ u.
Proof.
  induction s as [|ch s IH]; [reflexivity|].
  change (String ch (s +:+ t +:+ u) = String ch ((s +:+ t) +:+ u)). now rewrite IH.
Qed.

Lemma append_dash_nonempty (serviceID : string) : serviceID +:+ "-" <> EmptyString.
Proof. destruct serviceID; discriminate. Qed.

Lemma chartVersionOf_first (serviceID pre post : string) :
  (forall j, j < String.length pre ->
             ~ occursAt (pre +:+ (serviceID +:+ "-") +:+ post) (serviceID +:+ "-") j) ->
  chartVersionOf serviceID (pre +:+ (serviceID +:+ "-") +:+ post) =
  mapBytes dashToDot (pre +:+ post).
Proof.
  intros Hfirst. unfold chartVersionOf.
  rewrite (Replace_first pre (serviceID +:+ "-") "" post); auto using append_dash_nonempty.
  apply Replace_dashes.
Qed.

Lemma chartVersionOf_absent (serviceID planID : string) :
  (forall j, ~ occursAt planID (serviceID +:+ "-") j) ->
  chartVersionOf serviceID planID = mapBytes dashToDot planID.
Proof.
  intros Habs. unfold chartVersionOf.
  rewrite (Replace_absent planID (serviceID +:+ "-") "" 1
             (append_dash_nonempty serviceID) Habs).
  apply Replace_dashes.
Qed.

Lemma chartVersionOf_no_dash (serviceID planID : string) :
  ~ Spec.hasDash (chartVersionOf serviceID planID).
Proof.
  unfold chartVersionOf. rewrite Replace_dashes. intros [i Hi].
  exact (mapBytes_dashToDot_no_dash _ _ Hi).
Qed.

Lemma plan_ID_bytes (name version : string) (cv : repo.ChartVersion) :
  repo.AppVersion cv = version ->
  allBytes isLowerAlnum name = true ->
  osb.plan_ID (makePlan name cv) =
  name +:+ "-" +:+ mapBytes (fun ch => slugByte (toLowerByte ch)) version.
Proof.
  intros Hv Hname. simpl. rewrite Hv, cleaner_ReplaceAllString_slug.
  unfold ToLower. rewrite mapBytes_compose, !mapBytes_app. f_equal.
  apply (mapBytes_id_on isLowerAlnum); [|exact Hname].
  intros ch Hch. now apply slug_lower_fixes_alnum.
Qed.

Lemma plan_ID_round_trip (name : string) (cv : repo.ChartVersion) :
  allBytes isLowerAlnum name = true ->
  allBytes isVersionByte (repo.AppVersion cv) = true ->
  chartVersionOf name (osb.plan_ID (makePlan name cv)) = repo.AppVersion cv.
Proof.
  intros Hname Hversion.
  rewrite (plan_ID_bytes name (repo.AppVersion cv) cv eq_refl Hname).
  rewrite append_assoc.
  match goal with
  | |- context [(name +:+ "-") +:+ ?v] =>
      change ((name +:+ "-") +:+ v) with (EmptyString +:+ (name +:+ "-") +:+ v)
  end.
  rewrite chartVersionOf_first by (simpl; intros j Hj; lia).
  match goal with
  | |- context [EmptyString +:+ ?v] => change (EmptyString +:+ v) with v
  end.
  rewrite mapBytes_compose.
  apply (mapBytes_id_on isVersionByte); [|exact Hversion].
  intros ch Hch. now apply dashToDot_slug_version_byte.
Qed.

Section ProvisionDecodes.
Variable json_Marshal : gmap string Value -> result string.
Variable yaml_Marshal : gmap string Value -> result string.
Variable Quote : string -> string.
Variable b : Backend.
Variable c : Client.

(** A synchronous provision that is admitted asks the repository for
    the decoded version right after the create. *)
Lemma Provision_asks_decoded instanceID serviceID planID ns provisionParams w js :
  json_Marshal provisionParams = Ok js ->
  faults w = [] ->
  configMaps w !! (namespace c, instanceID) = None ->
  exists created reply rest,
    trace (run b (Provision json_Marshal yaml_Marshal Quote c instanceID serviceID planID
                    ns false provisionParams) w) =
    Entry (ConfigMaps_Create (namespace c) created) (Ok created)
      :: Entry (Helm_GetChart serviceID (chartVersionOf serviceID planID)) reply
      :: rest.
Proof.
  intros Hjs Hq Habs. unfold Provision. rewrite Hjs, run_bind_perform.
  cbn [corev1.cm_Namespace].
  match goal with
  | |- context [handle b (ConfigMaps_Create ?n ?cfg) w] =>
      rewrite (handle_Create_absent b n cfg w Hq Habs)
  end.
  cbn zeta. cbn [fst snd trace].
  unfold provisionAdmitted, installRelease.
  cbn [negb mbind prog_mbind prog_bind perform].
  rewrite run_Call. cbn zeta. cbn [trace].
  eexists. eexists. eexists. reflexivity.
Qed.

(** An asynchronous provision starts at most one goroutine, which
    installs the decoded version. *)
Lemma Provision_goroutine instanceID serviceID planID ns provisionParams w :
  let r := run b (Provision json_Marshal yaml_Marshal Quote c instanceID serviceID planID
                    ns true provisionParams) w in
  spawned r = [] \/
  spawned r = [provisionInBackground yaml_Marshal Quote c instanceID serviceID
                 (chartVersionOf serviceID planID) ns provisionParams].
Proof.
  unfold Provision. destruct (json_Marshal provisionParams) as [js|err]; [|now left].
  rewrite run_bind_perform. cbn zeta.
  destruct (handle b (ConfigMaps_Create _ _) w) as [[created|err] w1]; cbn [fst snd spawned].
  2:{ unfold provisionAdmitted. destruct (apierrors.IsAlreadyExists err); now left. }
  unfold provisionAdmitted, generateOperationName, updateConfigMap, getConfigMap.
  cbn [mbind prog_mbind prog_bind perform mret prog_mret].
  rewrite run_Call. cbn zeta. cbn [spawned].
  destruct (handle b Rand_Int31 w1) as [n w2]. cbn [fst snd].
  rewrite run_Call. cbn zeta. cbn [spawned].
  destruct (handle b (ConfigMaps_Get _ _) w2) as [[config|err] w3]; cbn [fst snd].
  2:{ now left. }
  cbn [mbind prog_mbind prog_bind perform mret prog_mret].
  rewrite run_Call. cbn zeta. cbn [spawned].
  destruct (handle b (ConfigMaps_Update _ _) w3) as [[updated|err] w4]; cbn [fst snd].
  2:{ now left. }
  right. reflexivity.
Qed.
End ProvisionDecodes.

(** C3.  [Provision] takes for the package version the plan ID with the
    first occurrence of [serviceID-] removed and every remaining dash
    turned into a dot: it is what a synchronous provision asks the
    repository for right after the create, and what the goroutine of an
    asynchronous one installs.  For a package name over [a-z0-9] and a
    version of digits and dots, decoding the plan ID that the catalog
    builder makes for a descriptor of that name carrying that version
    (the catalog encodes the descriptor's appVersion) gives the version
    back.  A decoded version never contains a dash, so a version that
    contains one is not recovered, and the versions 1.0-rc1 and 1.0.rc1
    of pg share the plan ID pg-1-0-rc1. *)
Theorem plan_id_decoding
    (json_Marshal yaml_Marshal : gmap string Value -> result string)
    (Quote : string -> string) :
  (forall serviceID pre post,
     (forall j, j < String.length pre ->
                ~ occursAt (pre +:+ (serviceID +:+ "-") +:+ post) (serviceID +:+ "-") j) ->
     chartVersionOf serviceID (pre +:+ (serviceID +:+ "-") +:+ post) =
     mapBytes dashToDot (pre +:+ post))
  /\
  (forall serviceID planID,
     (forall j, ~ occursAt planID (serviceID +:+ "-") j) ->
     chartVersionOf serviceID planID = mapBytes dashToDot planID)
  /\
  (forall b c instanceID serviceID planID ns provisionParams w js,
     json_Marshal provisionParams = Ok js ->
     faults w = [] ->
     configMaps w !! (namespace c, instanceID) = None ->
     exists created reply rest,
       trace (run b (Provision json_Marshal yaml_Marshal Quote c instanceID serviceID planID
                       ns false provisionParams) w) =
       Entry (ConfigMaps_Create (namespace c) created) (Ok created)
         :: Entry (Helm_GetChart serviceID (chartVersionOf serviceID planID)) reply
         :: rest)
  /\
  (forall b c instanceID serviceID planID ns provisionParams w,
     let r := run b (Provision json_Marshal yaml_Marshal Quote c instanceID serviceID planID
                       ns true provisionParams) w in
     spawned r = [] \/
     spawned r = [provisionInBackground yaml_Marshal Quote c instanceID serviceID
                    (chartVersionOf serviceID planID) ns provisionParams])
  /\
  (forall name version,
     allBytes isLowerAlnum name = true ->
     allBytes isVersionByte version = true ->
     forall cv, repo.AppVersion cv = version ->
     chartVersionOf name (osb.plan_ID (makePlan name cv)) = version)
  /\
  (forall serviceID planID, ~ Spec.hasDash (chartVersionOf serviceID planID))
  /\
  (forall name version,
     Spec.hasDash version ->
     forall cv, repo.AppVersion cv = version ->
     chartVersionOf name (osb.plan_ID (makePlan name cv)) <> version)
  /\
  (forall d1 d2 k1 k2,
     osb.plan_ID (makePlan "pg" (Spec.pgDescriptor "0.1.0" "1.0-rc1" d1 k1)) = "pg-1-0-rc1" /\
     osb.plan_ID (makePlan "pg" (Spec.pgDescriptor "0.2.0" "1.0.rc1" d2 k2)) = "pg-1-0-rc1" /\
     chartVersionOf "pg" "pg-1-0-rc1" = "1.0.rc1").
Proof.
  split; [exact chartVersionOf_first|]. split; [exact chartVersionOf_absent|].
  split; [intros b c; apply Provision_asks_decoded|].
  split; [intros b c; apply Provision_goroutine|].
  split; [intros name version Hn Hv cv <-; now apply plan_ID_round_trip|].
  split; [exact chartVersionOf_no_dash|]. split.
  - intros name version Hdash cv _ Heq. rewrite <- Heq in Hdash.
    exact (chartVersionOf_no_dash _ _ Hdash).
  - intros d1 d2 k1 k2. repeat split.
Qed.

(** The plan of the sample descriptor (pg, 1.1.0, app=9.6) decodes to
    9.6. *)
Lemma plan_id_decoding_witness :
  chartVersionOf "pg" (osb.plan_ID (makePlan "pg" (Sample.pg "1.1.0" "9.6"))) = "9.6".
Proof.
  apply (proj1 (proj2 (proj2 (proj2 (proj2
           (plan_id_decoding Sample.json_Marshal Sample.yaml_Marshal Sample.Quote)))))
           "pg" "9.6" eq_refl eq_refl (Sample.pg "1.1.0" "9.6") eq_refl).
Defined.

End ProvisionFacts.

(* ================================================================== *)
(** ** An accepted asynchronous provision, then a poll *)
(* ================================================================== *)

Module LifecycleFacts.
Import Cluster ClusterFacts minibroker PollFacts.

Lemma applyData_lookup (data : gmap string (option string)) (configData : gmap string string)
    (k : string) :
  applyData data configData !! k =
  match data !! k with
  | Some (Some stringValue) => Some stringValue
  | Some None => None
  | None => configData !! k
  end.
Proof.
  unfold applyData. revert k.
  apply (map_fold_weak_ind
           (fun r (m : gmap string (option string)) =>
              forall k, r !! k = match m !! k with
                                 | Some (Some s) => Some s
                                 | Some None => None
                                 | None => configData !! k
                                 end)).
  - intros k. now rewrite lookup_empty.
  - intros i x m r Hi IH k. destruct (decide (i = k)) as [->|Hne].
    + rewrite lookup_insert_eq. destruct x as [s|].
      * now rewrite lookup_insert_eq.
      * now rewrite lookup_delete_eq.
    + rewrite lookup_insert_ne by assumption. destruct x as [s|].
      * rewrite lookup_insert_ne by assumption. apply IH.
      * rewrite lookup_delete_ne by assumption. apply IH.
Qed.

Lemma handle_Update_present (b : Backend) (ns : string) (config existing : corev1.ConfigMap)
    (w : World) :
  faults w = [] -> configMaps w !! (ns, corev1.cm_Name config) = Some existing ->
  handle b (ConfigMaps_Update ns config) w =
  (Ok config, withConfigMaps (<[(ns, corev1.cm_Name config) := config]> (configMaps w)) w).
Proof.
  intros Hq Hn. simpl. rewrite apiCall_quiet by assumption.
  unfold Cluster.updateConfigMap. now rewrite Hn.
Qed.

Lemma handle_Rand_frame (b : Backend) (w : World) :
  configMaps (handle b Rand_Int31 w).2 = configMaps w /\
  faults (handle b Rand_Int31 w).2 = faults w.
Proof. simpl. now destruct (rands w). Qed.

(** X1.  After an asynchronous provision on an instance ID without a record
    (the parameters marshal, the API calls go through) the caller holds a
    token, the record stores it with the state in progress, and the
    installation is left to one goroutine: until that goroutine runs, a
    poll with the token or without one reports in progress, and a poll
    with another token fails with ConcurrencyError. *)
Lemma async_provision_then_poll
    (json_Marshal yaml_Marshal : gmap string Value -> result string)
    (Quote : string -> string) (b : Backend) (c : Client)
    (instanceID serviceID planID ns : string) (provisionParams : gmap string Value)
    (w : World) (js : string) :
  json_Marshal provisionParams = Ok js ->
  faults w = [] ->
  configMaps w !! (namespace c, instanceID) = None ->
  let r := run b (Provision json_Marshal yaml_Marshal Quote c instanceID serviceID planID
                    ns true provisionParams) w in
  exists token,
    returned r = Returned (Ok token) /\
    length (spawned r) = 1 /\
    forall operationKey,
      returned (run b (LastOperationState c instanceID operationKey) (after r)) =
      Returned
        (if match operationKey with
            | None => true
            | Some key => String.eqb token key
            end
         then Ok {| osb.State := osb.StateInProgress;
                    osb.resp_Description :=
                      Some ("provisioning service instance " +:+ Quote instanceID) |}
         else Err (HTTPStatusCodeError http.StatusBadRequest
                     (Some ConcurrencyErrorMessage) (Some ConcurrencyErrorDescription))).
Proof.
  intros Hjs Hq Habs. unfold Provision. rewrite Hjs, run_bind_perform.
  cbn [corev1.cm_Namespace].
  match goal with
  | |- context [handle b (ConfigMaps_Create ?n ?cfg) w] =>
      rewrite (handle_Create_absent b n cfg w Hq Habs); set (created := cfg)
  end.
  cbn zeta. cbn [fst snd].
  set (w1 := withConfigMaps _ w).
  assert (Hrec1 : configMaps w1 !! (namespace c, instanceID) = Some created).
  { unfold w1. cbn. apply lookup_insert_eq. }
  unfold provisionAdmitted, generateOperationName, updateConfigMap, getConfigMap.
  cbn [mbind prog_mbind prog_bind perform mret prog_mret].
  rewrite run_Call. cbn zeta.
  destruct (handle_Rand_frame b w1) as [Hc2 Hf2].
  destruct (handle b Rand_Int31 w1) as [n w2]. cbn [fst snd] in *.
  assert (Hq2 : faults w2 = []) by (rewrite Hf2; exact Hq).
  assert (Hrec2 : configMaps w2 !! (namespace c, instanceID) = Some created)
    by (rewrite Hc2; exact Hrec1).
  rewrite run_Call, (handle_Get_present b _ _ created w2 Hq2 Hrec2). cbn zeta.
  cbn [fst snd]. cbn [mbind prog_mbind prog_bind perform mret prog_mret].
  rewrite run_Call.
  match goal with
  | |- context [handle b (ConfigMaps_Update ?n ?cfg) w2] =>
      rewrite (handle_Update_present b n cfg created w2 Hq2 Hrec2); set (updated := cfg)
  end.
  cbn zeta. cbn [fst snd]. cbn [mbind prog_mbind prog_bind perform mret prog_mret].
  cbn [run returned spawned after length].
  eexists. split; [reflexivity|]. split; [reflexivity|].
  intros operationKey.
  rewrite (LastOperationState_run b c instanceID operationKey updated).
  - unfold strIndex, updated. cbn [corev1.cm_Data].
    rewrite !applyData_lookup. cbn.
    destruct operationKey as [key|]; [|reflexivity].
    now destruct (String.eqb _ key).
  - exact Hq2.
  - cbn. apply lookup_insert_eq.
Qed.

(** The sample provision of [i2], asynchronous: until the goroutine has
    run, a poll without a token reports in progress. *)
Lemma async_provision_then_poll_witness :
  exists token,
    returned (run Sample.backend (Sample.Provision Sample.client "i2" "pg" "pg-9-6" "apps"
                                    true Sample.a1) Sample.emptyWorld)
      = Returned (Ok token) /\
    returned (run Sample.backend (LastOperationState Sample.client "i2" None)
                Sample.asyncWorld)
      = Returned (Ok {| osb.State := osb.StateInProgress;
                        osb.resp_Description :=
                          Some ("provisioning service instance " +:+ Sample.Quote "i2") |}).
Proof.
  destruct (async_provision_then_poll Sample.json_Marshal Sample.yaml_Marshal Sample.Quote
              Sample.backend Sample.client "i2" "pg" "pg-9-6" "apps" Sample.a1
              Sample.emptyWorld "{a:1}" eq_refl eq_refl eq_refl) as (token & H1 & _ & H3).
  exists token. split; [exact H1 | exact (H3 None)].
Defined.


(** Run alone, step by step, a thread ends as [run] says. *)
Lemma drive_run (b : Backend) {A : Type} (p : prog A) :
  forall w, exists n,
    (drive b n p w).1.1.2 = after (run b p w) /\
    (drive b n p w).1.2 = spawned (run b p w) /\
    (drive b n p w).2 = trace (run b p w) /\
    match (drive b n p w).1.1.1 with
    | Ret a => returned (run b p w) = Returned a
    | Panic => returned (run b p w) = Panicked
    | _ => False
    end.
Proof.
  induction p as [A a|A|A X call k IH|A body _ k IH]; intros w.
  - now exists 0.
  - now exists 0.
  - destruct (IH (handle b call w).1 (handle b call w).2) as [n Hn].
    exists (S n). rewrite run_Call. simpl.
    destruct (handle b call w) as [x w1]. cbn [fst snd] in Hn.
    destruct (drive b n (k x) w1) as [[[p2 w2] s2] c2]. cbn [fst snd] in *.
    destruct Hn as (H1 & H2 & H3 & H4). now rewrite H1, H2, H3.
  - destruct (IH w) as [n Hn]. exists (S n). simpl.
    destruct (drive b n k w) as [[[p2 w2] s2] c2]. cbn [fst snd] in *.
    destruct Hn as (H1 & H2 & H3 & H4). now rewrite H1, H2, H3.
Qed.

(** X2.  A synchronous deprovision that goes through (Tiller answers and
    deletes the release, the API calls go through) removes the record,
    and a poll after it reports Gone. *)
Lemma deprovision_then_poll
    (Quote : string -> string) (b : Backend) (c : Client) (instanceID : string)
    (config : corev1.ConfigMap) (w : World) (operationKey : option string) :
  faults w = [] ->
  configMaps w !! (namespace c, instanceID) = Some config ->
  pingTiller b = Ok tt ->
  (forall release opts wl, (deleteRelease b release opts wl).1 = Ok tt) ->
  let r := run b (Deprovision Quote c instanceID false) w in
  returned r = Returned (Ok "") /\
  configMaps (after r) !! (namespace c, instanceID) = None /\
  returned (run b (LastOperationState c instanceID operationKey) (after r)) =
  Returned (Err (HTTPStatusCodeError http.StatusGone None None)).
Proof.
  intros Hq Hrec Hping Hdelete. unfold Deprovision.
  rewrite run_bind_perform, (handle_Get_present b _ _ config w Hq Hrec).
  cbn zeta. cbn [fst snd negb].
  unfold deprovisionSynchronously, connectTiller.
  cbn [mbind prog_mbind prog_bind perform mret prog_mret].
  rewrite run_Call. cbn [handle fst snd]. rewrite Hping. cbn zeta.
  cbn [mbind prog_mbind prog_bind perform mret prog_mret].
  rewrite run_Call. cbn [handle].
  match goal with
  | |- context [deleteRelease b ?rel ?opts ?wl] =>
      pose proof (Hdelete rel opts wl) as Hd;
      destruct (deleteRelease b rel opts wl) as [d wl']
  end.
  cbn [fst snd] in *. subst d. cbn zeta.
  cbn [mbind prog_mbind prog_bind perform mret prog_mret].
  rewrite run_Call. set (w1 := withWorkload wl' w).
  assert (Hh : handle b (ConfigMaps_Delete (namespace c) instanceID) w1 =
               (Ok tt, withConfigMaps (delete (namespace c, instanceID) (configMaps w)) w1)).
  { simpl. rewrite apiCall_quiet by exact Hq. unfold deleteConfigMap. cbn.
    now rewrite Hrec. }
  rewrite Hh. cbn zeta.
  cbn [fst snd mbind prog_mbind prog_bind perform mret prog_mret run returned after].
  split; [reflexivity|].
  assert (Hgone : configMaps (withConfigMaps (delete (namespace c, instanceID) (configMaps w)) w1)
                    !! (namespace c, instanceID) = None).
  { cbn. apply lookup_delete_eq. }
  split; [exact Hgone|].
  unfold LastOperationState.
  rewrite run_bind_perform.
  rewrite (handle_Get_absent b _ _
             (withConfigMaps (delete (namespace c, instanceID) (configMaps w)) w1)
             Hq Hgone).
  reflexivity.
Qed.

(** The sample instance deprovisioned synchronously: its record is
    gone and a poll reports Gone. *)
Lemma deprovision_then_poll_witness :
  returned (run Sample.backend (Sample.Deprovision Sample.client "i1" false)
              Sample.provisionedWorld) = Returned (Ok "") /\
  returned (run Sample.backend (LastOperationState Sample.client "i1" None)
              (after (run Sample.backend (Sample.Deprovision Sample.client "i1" false)
                        Sample.provisionedWorld)))
  = Returned (Err (HTTPStatusCodeError http.StatusGone None None)).
Proof.
  destruct (deprovision_then_poll Sample.Quote Sample.backend Sample.client "i1"
              (Sample.recordOf "i1" Sample.provisionedWorld) Sample.provisionedWorld None)
    as (H1 & _ & H3).
  - reflexivity.
  - vm_compute. reflexivity.
  - reflexivity.
  - reflexivity.
  - split; [exact H1 | exact H3].
Defined.

End LifecycleFacts.
(* ================================================================== *)
(** ** Running a program in sequence with another *)
(* ================================================================== *)

Module RunFacts.
Import Cluster ClusterFacts Calls.

(** [run] of a bind: the first program, then the second on what it
    returned, in the world it left; a panic stops there. *)
Lemma run_bind (b : Backend) {A B : Type} (p : prog A) (f : A -> prog B) :
  forall w,
    run b (p ≫= f) w =
    match returned (run b p w) with
    | Returned a =>
        let r2 := run b (f a) (after (run b p w)) in
        {| returned := returned r2; after := after r2;
           spawned := spawned (run b p w) ++ spawned r2;
           trace := trace (run b p w) ++ trace r2 |}
    | Panicked =>
        {| returned := Panicked; after := after (run b p w);
           spawned := spawned (run b p w); trace := trace (run b p w) |}
    end.
Proof.
  induction p as [A a|A|A X c k IH|A body _ k IH]; intros w.
  - cbn. now destruct (run b (f a) w).
  - reflexivity.
  - change (Call c k ≫= f) with (Call c (fun x => k x ≫= f)).
    rewrite !run_Call. cbn zeta. cbn [returned after spawned trace].
    rewrite IH. now destruct (returned (run b (k (handle b c w).1) (handle b c w).2)).
  - change (Go body k ≫= f) with (Go body (k ≫= f)).
    cbn [run]. cbn [returned after spawned trace].
    rewrite IH. now destruct (returned (run b k w)).
Qed.

Lemma run_perform (b : Backend) {X : Type} (c : call X) (w : World) :
  run b (perform c) w =
  {| returned := Returned (handle b c w).1; after := (handle b c w).2;
     spawned := []; trace := [Entry c (handle b c w).1] |}.
Proof. unfold perform. now rewrite run_Call. Qed.

Lemma run_mret (b : Backend) {A : Type} (a : A) (w : World) :
  run b (mret a) w = {| returned := Returned a; after := w; spawned := []; trace := [] |}.
Proof. reflexivity. Qed.

Lemma onlyCalls_bind allowed {A B : Type} (p : prog A) (f : A -> prog B) :
  onlyCalls allowed p -> (forall a, onlyCalls allowed (f a)) -> onlyCalls allowed (p ≫= f).
Proof.
  intros Hp Hf. induction Hp as [A a|A|A X c k Hc Hk IH|A body k Hseq Hbody _ Hk IH].
  - apply Hf.
  - constructor.
  - apply only_Call; [exact Hc|]. intros x. now apply IH.
  - apply only_Go; [exact Hseq | exact Hbody | now apply IH].
Qed.

Lemma sequential_bind {A B : Type} (p : prog A) (f : A -> prog B) :
  sequential p -> (forall a, sequential (f a)) -> sequential (p ≫= f).
Proof.
  intros Hp Hf. induction Hp as [A a|A|A X c k Hk IH].
  - apply Hf.
  - constructor.
  - apply seq_Call. intros x. now apply IH.
Qed.

Lemma onlyCalls_forEach allowed {A : Type} (f : A -> prog (result unit)) (items : list A) :
  (forall x, onlyCalls allowed (f x)) -> onlyCalls allowed (minibroker.forEach f items).
Proof.
  intros Hf. induction items as [|x items IH]; simpl.
  - constructor.
  - apply onlyCalls_bind; [apply Hf|].
    intros [u|err]; [exact IH | constructor].
Qed.

Lemma sequential_forEach {A : Type} (f : A -> prog (result unit)) (items : list A) :
  (forall x, sequential (f x)) -> sequential (minibroker.forEach f items).
Proof.
  intros Hf. induction items as [|x items IH]; simpl.
  - constructor.
  - apply sequential_bind; [apply Hf|].
    intros [u|err]; [exact IH | constructor].
Qed.

(** What [onlyCalls] and [sequential] say of a run. *)
Lemma onlyCalls_run allowed (b : Backend) {A : Type} (p : prog A) :
  onlyCalls allowed p ->
  forall w,
    Forall (fun e => allowed _ (entry_call e) = true) (trace (run b p w)) /\
    Forall (fun body => sequential body /\ onlyCalls allowed body) (spawned (run b p w)).
Proof.
  intros Hp. induction Hp as [A a|A|A X c k Hc Hk IH|A body k Hseq Hbody _ Hk IH]; intros w.
  - split; constructor.
  - split; constructor.
  - rewrite run_Call. cbn zeta. cbn [trace spawned].
    destruct (IH (handle b c w).1 (handle b c w).2) as [H1 H2].
    split; [constructor; [exact Hc | exact H1] | exact H2].
  - cbn [run trace spawned]. destruct (IH w) as [H1 H2].
    split; [exact H1 | constructor; [now split | exact H2]].
Qed.

Lemma sequential_run (b : Backend) {A : Type} (p : prog A) :
  sequential p -> forall w, spawned (run b p w) = [].
Proof.
  intros Hp. induction Hp as [A a|A|A X c k Hk IH]; intros w; try reflexivity.
  rewrite run_Call. cbn zeta. cbn [spawned]. apply IH.
Qed.

Lemma onlyCalls_mret allowed {A : Type} (a : A) : onlyCalls allowed (mret a : prog A).
Proof. constructor. Qed.

Lemma onlyCalls_perform allowed {X : Type} (c : call X) :
  allowed X c = true -> onlyCalls allowed (perform c).
Proof. intros H. apply only_Call; [exact H|]. intros x. constructor. Qed.

Lemma sequential_mret {A : Type} (a : A) : sequential (mret a : prog A).
Proof. constructor. Qed.

Lemma sequential_perform {X : Type} (c : call X) : sequential (perform c).
Proof. apply seq_Call. intros x. constructor. Qed.

Ltac sequential_tac :=
  repeat first
    [ progress intros
    | apply sequential_mret
    | apply seq_Ret
    | apply sequential_perform
    | apply sequential_forEach
    | apply sequential_bind
    | match goal with
      | |- sequential (match ?x with _ => _ end) => destruct x
      end
    | assumption ].

Ltac only_tac :=
  repeat first
    [ progress intros
    | apply onlyCalls_mret
    | apply only_Ret
    | apply onlyCalls_perform; reflexivity
    | apply onlyCalls_forEach
    | apply onlyCalls_bind
    | apply only_Go; [sequential_tac | |]
    | match goal with
      | |- onlyCalls _ (match ?x with _ => _ end) => destruct x
      end
    | assumption ].

End RunFacts.

(* ================================================================== *)
(** ** What the operations never call *)
(* ================================================================== *)

Module NeverFacts.
Import Cluster ClusterFacts Calls RunFacts minibroker.

Section Never.
Variable json_Marshal : gmap string Value -> result string.
Variable yaml_Marshal : gmap string Value -> result string.
Variable Quote : string -> string.
Variable b : Backend.
Variable c : Client.

Lemma provisionInBackground_sequential instanceID chartName chartVersion ns params :
  sequential (provisionInBackground yaml_Marshal Quote c instanceID chartName chartVersion
                ns params).
Proof.
  unfold provisionInBackground, provisionFail, installRelease, connectTiller,
    updateProvisioningState, labelService, labelSecret, updateConfigMap, getConfigMap.
  sequential_tac.
Qed.

Lemma deprovisionInBackground_sequential instanceID release :
  sequential (deprovisionInBackground Quote c instanceID release).
Proof.
  unfold deprovisionInBackground, deprovisionSynchronously, connectTiller,
    updateConfigMap, getConfigMap.
  sequential_tac.
Qed.

Lemma Provision_only allowed instanceID serviceID planID ns acceptsIncomplete params :
  (forall X (call : call X), isDelete call = false -> optionsInOrder call = true ->
                             allowed X call = true) ->
  onlyCalls allowed (Provision json_Marshal yaml_Marshal Quote c instanceID serviceID planID
                       ns acceptsIncomplete params).
Proof.
  intros Hallowed.
  assert (Hperform : forall X (call : call X),
             isDelete call = false -> optionsInOrder call = true ->
             onlyCalls allowed (perform call)).
  { intros X call H1 H2. apply onlyCalls_perform. now apply Hallowed. }
  unfold Provision, provisionAdmitted, generateOperationName, provisionInBackground,
    provisionFail, installRelease, connectTiller, updateProvisioningState, labelService,
    labelSecret, updateConfigMap, getConfigMap.
  repeat first
    [ progress intros
    | apply onlyCalls_mret
    | apply only_Ret
    | apply Hperform; reflexivity
    | apply onlyCalls_forEach
    | apply onlyCalls_bind
    | apply only_Go; [sequential_tac | |]
    | match goal with
      | |- onlyCalls _ (match ?x with _ => _ end) => destruct x
      end ].
Qed.

Lemma Deprovision_only allowed instanceID acceptsIncomplete :
  (forall X (call : call X), isCreation call = false -> optionsInOrder call = true ->
                             allowed X call = true) ->
  onlyCalls allowed (Deprovision Quote c instanceID acceptsIncomplete).
Proof.
  intros Hallowed.
  assert (Hperform : forall X (call : call X),
             isCreation call = false -> optionsInOrder call = true ->
             onlyCalls allowed (perform call)).
  { intros X call H1 H2. apply onlyCalls_perform. now apply Hallowed. }
  unfold Deprovision, generateOperationName, deprovisionInBackground,
    deprovisionSynchronously, connectTiller, updateConfigMap, getConfigMap.
  repeat first
    [ progress intros
    | apply onlyCalls_mret
    | apply only_Ret
    | apply Hperform; reflexivity
    | apply onlyCalls_bind
    | apply only_Go; [sequential_tac | |]
    | match goal with
      | |- onlyCalls _ (match ?x with _ => _ end) => destruct x
      end ].
Qed.

(** What [onlyCalls] gives for a request and the goroutines it starts. *)
Lemma onlyCalls_request (ok : entry -> Prop) (allowed : forall X, call X -> bool)
    {A : Type} (p : prog A) (w : World) :
  (forall e, allowed _ (entry_call e) = true -> ok e) ->
  onlyCalls allowed p ->
  Forall ok (trace (run b p w)) /\
  forall body, body ∈ spawned (run b p w) ->
    forall w', Forall ok (trace (run b body w')) /\ spawned (run b body w') = [].
Proof.
  intros Hok Hp. destruct (onlyCalls_run allowed b p Hp w) as [Ht Hs]. split.
  - eapply Forall_impl; [exact Ht | exact Hok].
  - intros body Hbody w'. rewrite Forall_forall in Hs.
    destruct (Hs body Hbody) as [Hseq Honly]. split.
    + eapply Forall_impl; [exact (proj1 (onlyCalls_run allowed b body Honly w')) | exact Hok].
    + now apply sequential_run.
Qed.

End Never.

(** X3.  [Provision] never deletes: whatever its arguments, the world
    and the answers it gets, none of its calls, and none of the calls of
    the goroutine it starts, deletes a record or a release; and the
    goroutine starts no goroutine. *)
Theorem provision_never_deletes
    (json_Marshal yaml_Marshal : gmap string Value -> result string)
    (Quote : string -> string) (b : Backend) (c : Client)
    (instanceID serviceID planID ns : string) (acceptsIncomplete : bool)
    (params : gmap string Value) (w : World) :
  let r := run b (Provision json_Marshal yaml_Marshal Quote c instanceID serviceID planID
                    ns acceptsIncomplete params) w in
  Forall (fun e => isDelete (entry_call e) = false) (trace r) /\
  forall body, body ∈ spawned r ->
    forall w', Forall (fun e => isDelete (entry_call e) = false) (trace (run b body w')) /\
               spawned (run b body w') = [].
Proof.
  apply (onlyCalls_request b _ (fun X call => negb (isDelete call))).
  - intros e H. now apply negb_true_iff.
  - apply Provision_only. intros X call H _. now rewrite H.
Qed.

(** X4.  [Deprovision] never creates: none of its calls, and none of
    the calls of the goroutine it starts, creates a record, installs a
    release or patches a service or a secret; and the goroutine starts
    no goroutine. *)
Theorem deprovision_never_creates
    (Quote : string -> string) (b : Backend) (c : Client)
    (instanceID : string) (acceptsIncomplete : bool) (w : World) :
  let r := run b (Deprovision Quote c instanceID acceptsIncomplete) w in
  Forall (fun e => isCreation (entry_call e) = false) (trace r) /\
  forall body, body ∈ spawned r ->
    forall w', Forall (fun e => isCreation (entry_call e) = false) (trace (run b body w')) /\
               spawned (run b body w') = [].
Proof.
  apply (onlyCalls_request b _ (fun X call => negb (isCreation call))).
  - intros e H. now apply negb_true_iff.
  - apply Deprovision_only. intros X call H _. now rewrite H.
Qed.

(** X5.  Every installation that [Provision] or its goroutine asks of
    Tiller overrides the values, reuses the name and disables the hooks,
    in this order and before any other option; every deletion that
    [Deprovision] or its goroutine asks for runs the hooks and purges
    the release. *)
Theorem tiller_options
    (json_Marshal yaml_Marshal : gmap string Value -> result string)
    (Quote : string -> string) (b : Backend) (c : Client) (instanceID : string) (w : World) :
  (forall serviceID planID ns acceptsIncomplete params,
     let r := run b (Provision json_Marshal yaml_Marshal Quote c instanceID serviceID planID
                       ns acceptsIncomplete params) w in
     Forall (fun e => optionsInOrder (entry_call e) = true) (trace r) /\
     forall body, body ∈ spawned r ->
       forall w', Forall (fun e => optionsInOrder (entry_call e) = true)
                    (trace (run b body w')) /\
                  spawned (run b body w') = []) /\
  (forall acceptsIncomplete,
     let r := run b (Deprovision Quote c instanceID acceptsIncomplete) w in
     Forall (fun e => optionsInOrder (entry_call e) = true) (trace r) /\
     forall body, body ∈ spawned r ->
       forall w', Forall (fun e => optionsInOrder (entry_call e) = true)
                    (trace (run b body w')) /\
                  spawned (run b body w') = []).
Proof.
  split.
  - intros serviceID planID ns acceptsIncomplete params.
    apply (onlyCalls_request b _ (fun X call => optionsInOrder call)); [auto|].
    apply Provision_only. auto.
  - intros acceptsIncomplete.
    apply (onlyCalls_request b _ (fun X call => optionsInOrder call)); [auto|].
    apply Deprovision_only. auto.
Qed.

End NeverFacts.

(* ================================================================== *)
(** ** Updating an instance record *)
(* ================================================================== *)

Module RecordFacts.
Import Cluster ClusterFacts Calls RunFacts minibroker LifecycleFacts.

(** [updateConfigMap] on an existing record, the API calls going
    through: a get, then an update with the data applied. *)
Lemma updateConfigMap_run (b : Backend) (c : Client) (instanceID : string)
    (data : gmap string (option string)) (config : corev1.ConfigMap) (w : World) :
  faults w = [] ->
  configMaps w !! (namespace c, instanceID) = Some config ->
  corev1.cm_Name config = instanceID ->
  run b (updateConfigMap c instanceID data) w =
  {| returned := Returned (Ok tt);
     after := withConfigMaps
                (<[(namespace c, instanceID) := updatedRecord data config]> (configMaps w)) w;
     spawned := [];
     trace := [Entry (ConfigMaps_Get (namespace c) instanceID) (Ok config);
               Entry (ConfigMaps_Update (namespace c) (updatedRecord data config))
                 (Ok (updatedRecord data config))] |}.
Proof.
  intros Hq Hrec Hname. unfold updateConfigMap, getConfigMap.
  cbn [mbind prog_mbind prog_bind perform mret prog_mret].
  rewrite run_Call, (handle_Get_present b _ _ config w Hq Hrec). cbn zeta.
  cbn [fst snd]. cbn [mbind prog_mbind prog_bind perform mret prog_mret].
  rewrite run_Call. fold (updatedRecord data config).
  assert (Hrec' : configMaps w !! (namespace c, corev1.cm_Name (updatedRecord data config))
                  = Some config) by (cbn; now rewrite Hname).
  rewrite (handle_Update_present b _ _ config w Hq Hrec').
  cbn. now rewrite Hname.
Qed.

Lemma handle_Get_absent_any (b : Backend) (ns name : string) (w : World) :
  configMaps w !! (ns, name) = None ->
  exists err, (handle b (ConfigMaps_Get ns name) w).1 = Err err.
Proof.
  intros Habs. simpl. unfold apiCall.
  destruct (faults w) as [|[err|] rest]; simpl; unfold Cluster.getConfigMap; cbn;
    rewrite ?Habs; eauto.
Qed.



(** X7.  [updateConfigMap] never creates a record: when the instance
    has none, it fails, whatever the data and the fault script, without
    making an update call, and leaves records, services, secrets and
    releases as they were. *)
Theorem updateConfigMap_needs_record
    (b : Backend) (c : Client) (instanceID : string)
    (data : gmap string (option string)) (w : World) :
  configMaps w !! (namespace c, instanceID) = None ->
  let r := run b (updateConfigMap c instanceID data) w in
  (exists err, returned r =
               Returned (Err (Wrapf err "Failed to get config for instance %q"
                                [VStr instanceID]))) /\
  configMaps (after r) = configMaps w /\
  workload (after r) = workload w /\
  Forall (fun e => isRead e = true) (trace r).
Proof.
  intros Habs r. subst r. unfold updateConfigMap, getConfigMap.
  cbn [mbind prog_mbind prog_bind perform mret prog_mret].
  rewrite run_Call. cbn zeta.
  destruct (handle_Get_absent_any b (namespace c) instanceID w Habs) as [err Herr].
  destruct (handle_Get_frame b (namespace c) instanceID w) as [Hc Hw].
  destruct (handle b (ConfigMaps_Get (namespace c) instanceID) w) as [r1 w1].
  cbn [fst snd] in *. subst r1. cbn.
  split; [eauto|]. split; [exact Hc|]. split; [exact Hw|]. repeat constructor.
Qed.

(** On the empty sample world no instance has a record. *)
Lemma updateConfigMap_needs_record_witness :
  configMaps (after (run Sample.backend
                       (updateConfigMap Sample.client "i1"
                          (<[OperationStateKey := Some "failed"]> ∅))
                       Sample.emptyWorld))
  = configMaps Sample.emptyWorld.
Proof.
  apply (proj1 (proj2 (updateConfigMap_needs_record Sample.backend Sample.client "i1"
                         (<[OperationStateKey := Some "failed"]> ∅)
                         Sample.emptyWorld eq_refl))).
Defined.

End RecordFacts.

(* ================================================================== *)
(** ** Labelling what a release created *)
(* ================================================================== *)

Module LabelFacts.
Import Cluster ClusterFacts Calls RunFacts minibroker LifecycleFacts RecordFacts.

Lemma labelsPatch_lookup (instanceID : string) (labels : gmap string string) (k : string) :
  labelsPatch labels (<[InstanceLabel := instanceID]> labels) !! k =
  if decide (k = InstanceLabel /\ labels !! InstanceLabel <> Some instanceID)
  then Some instanceID else None.
Proof.
  unfold labelsPatch. destruct (decide _) as [[-> Hne]|Hno].
  - apply map_lookup_filter_Some. split; [apply lookup_insert_eq | exact Hne].
  - apply map_lookup_filter_None. right. intros v Hv Hp. cbn in Hp. apply Hno.
    destruct (decide (k = InstanceLabel)) as [->|Hk].
    + rewrite lookup_insert_eq in Hv. injection Hv as <-. now split.
    + rewrite lookup_insert_ne in Hv by congruence. contradiction.
Qed.

(** A patch only touches the instance label, which it sets to the
    instance. *)
Lemma patch_relabelled (instanceID : string) (original labels : gmap string string) :
  relabelled instanceID labels
    (labelsPatch original (<[InstanceLabel := instanceID]> original) ∪ labels).
Proof.
  split.
  - intros k Hk. rewrite lookup_union, labelsPatch_lookup.
    destruct (decide _) as [[-> _]|_]; [congruence|]. now destruct (labels !! k).
  - rewrite lookup_union, labelsPatch_lookup.
    destruct (decide _) as [_|_]; [right | left]; now destruct (labels !! InstanceLabel).
Qed.

Lemma patch_sets (instanceID : string) (original labels : gmap string string) :
  (original !! InstanceLabel = Some instanceID -> labels !! InstanceLabel = Some instanceID) ->
  (labelsPatch original (<[InstanceLabel := instanceID]> original) ∪ labels) !! InstanceLabel
  = Some instanceID.
Proof.
  intros H. rewrite lookup_union, labelsPatch_lookup.
  destruct (decide _) as [_|Hno].
  - now destruct (labels !! InstanceLabel).
  - destruct (decide (original !! InstanceLabel = Some instanceID)) as [Ho|Ho].
    + rewrite (H Ho). reflexivity.
    + exfalso. apply Hno. now split.
Qed.

Lemma relabelled_refl instanceID labels : relabelled instanceID labels labels.
Proof. split; [reflexivity | now left]. Qed.

Lemma relabelled_trans instanceID l1 l2 l3 :
  relabelled instanceID l1 l2 -> relabelled instanceID l2 l3 -> relabelled instanceID l1 l3.
Proof.
  intros [H1 H1'] [H2 H2']. split.
  - intros k Hk. now rewrite H2, H1.
  - destruct H2' as [H2'|H2']; [rewrite H2'; exact H1' | now right].
Qed.

(** Once an object carries the label of the instance it keeps it. *)
Lemma relabelled_keeps instanceID l1 l2 :
  relabelled instanceID l1 l2 ->
  l1 !! InstanceLabel = Some instanceID -> l2 !! InstanceLabel = Some instanceID.
Proof. intros [_ [H|H]] H1; congruence. Qed.

Section Labelling.
Variable b : Backend.
Variable c : Client.
Variable instanceID : string.

(** *** Services *)

Local Abbreviation servicesPatched := (Calls.servicesPatched instanceID).

Lemma servicePatched_relabelled t s : serviceRelabelled instanceID s (servicePatched instanceID t s).
Proof.
  unfold servicePatched. destruct (isService _ _ s).
  - split; [reflexivity|]. split; [reflexivity|]. split; [reflexivity|]. apply patch_relabelled.
  - split; [reflexivity|]. split; [reflexivity|]. split; [reflexivity|]. apply relabelled_refl.
Qed.

Lemma serviceRelabelled_trans s1 s2 s3 :
  serviceRelabelled instanceID s1 s2 -> serviceRelabelled instanceID s2 s3 ->
  serviceRelabelled instanceID s1 s3.
Proof.
  intros (A1 & A2 & A3 & A4) (B1 & B2 & B3 & B4).
  split; [congruence|]. split; [congruence|]. split; [congruence|].
  eapply relabelled_trans; eassumption.
Qed.

Lemma servicesPatched_relabelled l s : serviceRelabelled instanceID s (servicesPatched l s).
Proof.
  revert s; induction l as [|t l IH]; intros s.
  - split; [reflexivity|]. split; [reflexivity|]. split; [reflexivity|]. apply relabelled_refl.
  - eapply serviceRelabelled_trans; [apply (servicePatched_relabelled t s) | apply IH].
Qed.

Lemma isService_relabelled ns name s s' :
  serviceRelabelled instanceID s s' -> isService ns name s' = isService ns name s.
Proof. intros (H1 & H2 & _). unfold isService. now rewrite H1, H2. Qed.

Lemma isService_self s : isService (corev1.svc_Namespace s) (corev1.svc_Name s) s = true.
Proof. unfold isService. now rewrite !String.eqb_refl. Qed.

(** A listed service carries the label once the loop is over. *)
Lemma servicesPatched_self l s :
  s ∈ l -> corev1.svc_Labels (servicesPatched l s) !! InstanceLabel = Some instanceID.
Proof.
  intros Hin.
  assert (Hgen : forall l s',
            s ∈ l -> serviceRelabelled instanceID s s' ->
            corev1.svc_Labels (servicesPatched l s') !! InstanceLabel = Some instanceID).
  { clear l Hin. induction l as [|t l IH]; intros s' Hin Hrel; [inversion Hin|].
    apply elem_of_cons in Hin as [<-|Hin].
    - cbn [servicesPatched fold_left].
      eapply relabelled_keeps;
        [apply (proj2 (proj2 (proj2 (servicesPatched_relabelled l _))))|].
      unfold servicePatched. rewrite (isService_relabelled _ _ _ _ Hrel), isService_self.
      cbn. apply patch_sets. intros Hs.
      exact (relabelled_keeps _ _ _ (proj2 (proj2 (proj2 Hrel))) Hs).
    - cbn [servicesPatched fold_left]. apply IH; [exact Hin|].
      eapply serviceRelabelled_trans; [exact Hrel | apply servicePatched_relabelled]. }
  apply Hgen; [exact Hin|].
  split; [reflexivity|]. split; [reflexivity|]. split; [reflexivity|]. apply relabelled_refl.
Qed.

Lemma find_isService ns name (l : list corev1.Service) s :
  s ∈ l -> isService ns name s = true -> exists s', find (isService ns name) l = Some s'.
Proof.
  intros Hin Hs. destruct (find (isService ns name) l) as [s'|] eqn:Hf; [eauto|].
  apply list_elem_of_In in Hin. now rewrite (find_none _ _ Hf s Hin) in Hs.
Qed.

Lemma labelService_run (params : gmap string Value) (t : corev1.Service) (w : World) :
  faults w = [] ->
  (exists s, s ∈ services (workload w) /\
             isService (corev1.svc_Namespace t) (corev1.svc_Name t) s = true) ->
  exists tr,
    run b (labelService c t instanceID params) w =
    {| returned := Returned (Ok tt);
       after := withServices (map (servicePatched instanceID t) (services (workload w))) w;
       spawned := [];
       trace := tr |}.
Proof.
  intros Hq (s & Hs & Hist).
  destruct (find_isService _ _ _ s Hs Hist) as [s' Hfind].
  assert (Hh : handle b (Services_Patch (corev1.svc_Namespace t) (corev1.svc_Name t)
                           (labelsPatch (corev1.svc_Labels t)
                              (<[InstanceLabel := instanceID]> (corev1.svc_Labels t)))) w
               = (Ok (relabelService
                        (labelsPatch (corev1.svc_Labels t)
                           (<[InstanceLabel := instanceID]> (corev1.svc_Labels t))) s'),
                  withServices (map (servicePatched instanceID t) (services (workload w))) w)).
  { simpl. rewrite apiCall_quiet by exact Hq. unfold patchService. now rewrite Hfind. }
  unfold labelService. cbn zeta. rewrite run_bind, run_perform.
  cbn [returned after spawned trace]. rewrite Hh. cbn [fst snd]. rewrite run_mret.
  cbn [returned after spawned trace]. eexists. reflexivity.
Qed.

(** The loop of [updateProvisioningState] over the services it listed:
    with the API calls going through and every listed service still
    there, each is patched in turn. *)
Lemma forEach_labelService_run (params : gmap string Value) (l : list corev1.Service) :
  forall w,
    faults w = [] ->
    (forall t, t ∈ l -> exists s, s ∈ services (workload w) /\
                                  isService (corev1.svc_Namespace t) (corev1.svc_Name t) s = true) ->
    exists tr,
      run b (forEach (fun service => labelService c service instanceID params) l) w =
      {| returned := Returned (Ok tt);
         after := withServices (map (servicesPatched l) (services (workload w))) w;
         spawned := [];
         trace := tr |}.
Proof.
  induction l as [|t l IH]; intros w Hq Hthere.
  - cbn. eexists. f_equal. unfold withServices, withWorkload. rewrite map_id.
    now destruct w as [cm [sv sc rl] f rd].
  - cbn [forEach]. rewrite run_bind.
    destruct (labelService_run params t w Hq (Hthere t (list_elem_of_here _ _))) as (tr1 & Hr1).
    rewrite Hr1. cbn [returned after spawned trace]. cbn zeta.
    set (w1 := withServices (map (servicePatched instanceID t) (services (workload w))) w).
    destruct (IH w1) as (tr2 & Hr2).
    + exact Hq.
    + intros t' Ht'. destruct (Hthere t' (list_elem_of_further _ _ _ Ht')) as (s0 & Hs0 & His0).
      exists (servicePatched instanceID t s0). split.
      * unfold w1. cbn. apply list_elem_of_fmap. exists s0. split; [reflexivity | exact Hs0].
      * now rewrite (isService_relabelled _ _ _ _ (servicePatched_relabelled t s0)).
    + rewrite Hr2. cbn [returned after spawned trace]. eexists. f_equal.
      unfold w1, withServices. cbn. rewrite map_map. reflexivity.
Qed.

(** *** Secrets *)

Local Abbreviation secretsPatched := (Calls.secretsPatched instanceID).

Lemma secretPatched_relabelled t s : secretRelabelled instanceID s (secretPatched instanceID t s).
Proof.
  unfold secretPatched. destruct (isSecret _ _ s).
  - split; [reflexivity|]. split; [reflexivity|]. split; [reflexivity|]. apply patch_relabelled.
  - split; [reflexivity|]. split; [reflexivity|]. split; [reflexivity|]. apply relabelled_refl.
Qed.

Lemma secretRelabelled_trans s1 s2 s3 :
  secretRelabelled instanceID s1 s2 -> secretRelabelled instanceID s2 s3 ->
  secretRelabelled instanceID s1 s3.
Proof.
  intros (A1 & A2 & A3 & A4) (B1 & B2 & B3 & B4).
  split; [congruence|]. split; [congruence|]. split; [congruence|].
  eapply relabelled_trans; eassumption.
Qed.

Lemma secretsPatched_relabelled l s : secretRelabelled instanceID s (secretsPatched l s).
Proof.
  revert s; induction l as [|t l IH]; intros s.
  - split; [reflexivity|]. split; [reflexivity|]. split; [reflexivity|]. apply relabelled_refl.
  - eapply secretRelabelled_trans; [apply (secretPatched_relabelled t s) | apply IH].
Qed.

Lemma isSecret_relabelled ns name s s' :
  secretRelabelled instanceID s s' -> isSecret ns name s' = isSecret ns name s.
Proof. intros (H1 & H2 & _). unfold isSecret. now rewrite H1, H2. Qed.

Lemma isSecret_self s : isSecret (corev1.sec_Namespace s) (corev1.sec_Name s) s = true.
Proof. unfold isSecret. now rewrite !String.eqb_refl. Qed.

(** A listed secret carries the label once the loop is over. *)
Lemma secretsPatched_self l s :
  s ∈ l -> corev1.sec_Labels (secretsPatched l s) !! InstanceLabel = Some instanceID.
Proof.
  intros Hin.
  assert (Hgen : forall l s',
            s ∈ l -> secretRelabelled instanceID s s' ->
            corev1.sec_Labels (secretsPatched l s') !! InstanceLabel = Some instanceID).
  { clear l Hin. induction l as [|t l IH]; intros s' Hin Hrel; [inversion Hin|].
    apply elem_of_cons in Hin as [<-|Hin].
    - cbn [secretsPatched fold_left].
      eapply relabelled_keeps;
        [apply (proj2 (proj2 (proj2 (secretsPatched_relabelled l _))))|].
      unfold secretPatched. rewrite (isSecret_relabelled _ _ _ _ Hrel), isSecret_self.
      cbn. apply patch_sets. intros Hs.
      exact (relabelled_keeps _ _ _ (proj2 (proj2 (proj2 Hrel))) Hs).
    - cbn [secretsPatched fold_left]. apply IH; [exact Hin|].
      eapply secretRelabelled_trans; [exact Hrel | apply secretPatched_relabelled]. }
  apply Hgen; [exact Hin|].
  split; [reflexivity|]. split; [reflexivity|]. split; [reflexivity|]. apply relabelled_refl.
Qed.

Lemma find_isSecret ns name (l : list corev1.Secret) s :
  s ∈ l -> isSecret ns name s = true -> exists s', find (isSecret ns name) l = Some s'.
Proof.
  intros Hin Hs. destruct (find (isSecret ns name) l) as [s'|] eqn:Hf; [eauto|].
  apply list_elem_of_In in Hin. now rewrite (find_none _ _ Hf s Hin) in Hs.
Qed.

Lemma labelSecret_run (t : corev1.Secret) (w : World) :
  faults w = [] ->
  (exists s, s ∈ secrets (workload w) /\
             isSecret (corev1.sec_Namespace t) (corev1.sec_Name t) s = true) ->
  exists tr,
    run b (labelSecret c t instanceID) w =
    {| returned := Returned (Ok tt);
       after := withSecrets (map (secretPatched instanceID t) (secrets (workload w))) w;
       spawned := [];
       trace := tr |}.
Proof.
  intros Hq (s & Hs & Hist).
  destruct (find_isSecret _ _ _ s Hs Hist) as [s' Hfind].
  assert (Hh : handle b (Secrets_Patch (corev1.sec_Namespace t) (corev1.sec_Name t)
                           (labelsPatch (corev1.sec_Labels t)
                              (<[InstanceLabel := instanceID]> (corev1.sec_Labels t)))) w
               = (Ok (relabelSecret
                        (labelsPatch (corev1.sec_Labels t)
                           (<[InstanceLabel := instanceID]> (corev1.sec_Labels t))) s'),
                  withSecrets (map (secretPatched instanceID t) (secrets (workload w))) w)).
  { simpl. rewrite apiCall_quiet by exact Hq. unfold patchSecret. now rewrite Hfind. }
  unfold labelSecret. cbn zeta. rewrite run_bind, run_perform.
  cbn [returned after spawned trace]. rewrite Hh. cbn [fst snd]. rewrite run_mret.
  cbn [returned after spawned trace]. eexists. reflexivity.
Qed.

(** The loop of [updateProvisioningState] over the secrets it listed:
    with the API calls going through and every listed secret still
    there, each is patched in turn. *)
Lemma forEach_labelSecret_run (l : list corev1.Secret) :
  forall w,
    faults w = [] ->
    (forall t, t ∈ l -> exists s, s ∈ secrets (workload w) /\
                                  isSecret (corev1.sec_Namespace t) (corev1.sec_Name t) s = true) ->
    exists tr,
      run b (forEach (fun secret => labelSecret c secret instanceID) l) w =
      {| returned := Returned (Ok tt);
         after := withSecrets (map (secretsPatched l) (secrets (workload w))) w;
         spawned := [];
         trace := tr |}.
Proof.
  induction l as [|t l IH]; intros w Hq Hthere.
  - cbn. eexists. f_equal. unfold withSecrets, withWorkload. rewrite map_id.
    now destruct w as [cm [sv sc rl] f rd].
  - cbn [forEach]. rewrite run_bind.
    destruct (labelSecret_run t w Hq (Hthere t (list_elem_of_here _ _))) as (tr1 & Hr1).
    rewrite Hr1. cbn [returned after spawned trace]. cbn zeta.
    set (w1 := withSecrets (map (secretPatched instanceID t) (secrets (workload w))) w).
    destruct (IH w1) as (tr2 & Hr2).
    + exact Hq.
    + intros t' Ht'. destruct (Hthere t' (list_elem_of_further _ _ _ Ht')) as (s0 & Hs0 & His0).
      exists (secretPatched instanceID t s0). split.
      * unfold w1. cbn. apply list_elem_of_fmap. exists s0. split; [reflexivity | exact Hs0].
      * now rewrite (isSecret_relabelled _ _ _ _ (secretPatched_relabelled t s0)).
    + rewrite Hr2. cbn [returned after spawned trace]. eexists. f_equal.
      unfold w1, withSecrets. cbn. rewrite map_map. reflexivity.
Qed.


(** *** The whole of [updateProvisioningState] *)

Lemma selects_release releaseName (labels : gmap string string) :
  selects (<[HeritageLabel := TillerHeritage]> (<[ReleaseLabel := releaseName]> ∅)) labels = true
  <-> ofRelease releaseName labels.
Proof.
  unfold selects, ofRelease. rewrite bool_decide_eq_true. split.
  - intros H. split; apply H.
    + apply lookup_insert_eq.
    + rewrite lookup_insert_ne by discriminate. apply lookup_insert_eq.
  - intros [H1 H2] k v Hk.
    apply lookup_insert_Some in Hk as [[<- <-]|[_ Hk]]; [exact H1|].
    apply lookup_insert_Some in Hk as [[<- <-]|[_ Hk]]; [exact H2|].
    now rewrite lookup_empty in Hk.
Qed.



Lemma updateProvisioningState_run (releaseName namespace : string)
    (params : gmap string Value) (config : corev1.ConfigMap) (w : World) :
  faults w = [] ->
  configMaps w !! (minibroker.namespace c, instanceID) = Some config ->
  corev1.cm_Name config = instanceID ->
  let listedServices :=
    filter (fun svc => String.eqb (corev1.svc_Namespace svc) namespace
                       && selects (<[HeritageLabel := TillerHeritage]>
                                     (<[ReleaseLabel := releaseName]> ∅))
                                  (corev1.svc_Labels svc) = true)
           (services (workload w)) in
  let listedSecrets :=
    filter (fun sec => String.eqb (corev1.sec_Namespace sec) namespace
                       && selects (<[HeritageLabel := TillerHeritage]>
                                     (<[ReleaseLabel := releaseName]> ∅))
                                  (corev1.sec_Labels sec) = true)
           (secrets (workload w)) in
  exists tr,
    run b (updateProvisioningState c releaseName instanceID namespace params) w =
    {| returned := Returned (Ok tt);
       after :=
         {| configMaps := <[(minibroker.namespace c, instanceID) :=
                              updatedRecord (releaseData releaseName namespace) config]>
                            (configMaps w);
            workload := {| services := map (servicesPatched listedServices)
                                           (services (workload w));
                           secrets := map (secretsPatched listedSecrets)
                                          (secrets (workload w));
                           releases := releases (workload w) |};
            faults := [];
            rands := rands w |};
       spawned := [];
       trace := tr |}.
Proof.
  intros Hq Hrec Hname listedServices listedSecrets.
  unfold updateProvisioningState. cbn zeta.
  rewrite run_bind, run_perform. cbn [returned after spawned trace].
  rewrite (handle_Services_List b _ _ w Hq). unfold listServices.
  cbn [fst snd]. fold listedServices.
  rewrite run_bind.
  destruct (forEach_labelService_run params listedServices w Hq) as (tr1 & Hr1).
  { intros t Ht. exists t. split; [|apply isService_self].
    unfold listedServices in Ht. now apply list_elem_of_filter in Ht as [_ Ht]. }
  rewrite Hr1. cbn [returned after spawned trace]. cbn zeta.
  set (w1 := withServices (map (servicesPatched listedServices) (services (workload w))) w).
  assert (Hq1 : faults w1 = []) by exact Hq.
  rewrite run_bind, run_perform. cbn [returned after spawned trace].
  rewrite (handle_Secrets_List b _ _ w1 Hq1). unfold listSecrets.
  cbn [fst snd]. change (secrets (workload w1)) with (secrets (workload w)).
  fold listedSecrets.
  rewrite run_bind.
  destruct (forEach_labelSecret_run listedSecrets w1 Hq1) as (tr2 & Hr2).
  { intros t Ht. exists t. split; [|apply isSecret_self].
    unfold listedSecrets in Ht. now apply list_elem_of_filter in Ht as [_ Ht]. }
  rewrite Hr2. cbn [returned after spawned trace]. cbn zeta.
  set (w2 := withSecrets (map (secretsPatched listedSecrets) (secrets (workload w1))) w1).
  assert (Hq2 : faults w2 = []) by exact Hq.
  assert (Hrec2 : configMaps w2 !! (minibroker.namespace c, instanceID) = Some config)
    by exact Hrec.
  rewrite run_bind. fold (releaseData releaseName namespace).
  rewrite (updateConfigMap_run b c instanceID _ config w2 Hq2 Hrec2 Hname).
  cbn [returned after spawned trace]. cbn zeta. rewrite run_mret.
  cbn [returned after spawned trace].
  eexists. f_equal.
  unfold w2, w1, withSecrets, withServices, withWorkload, withConfigMaps. cbn.
  now rewrite Hq.
Qed.


Lemma releaseData_lookup (releaseName namespace : string) (data : gmap string string) (k : string) :
  applyData (releaseData releaseName namespace) data !! k =
  if decide (k = ReleaseLabel) then Some releaseName
  else if decide (k = ReleaseNamespaceKey) then Some namespace
  else data !! k.
Proof.
  rewrite applyData_lookup. unfold releaseData.
  destruct (decide (k = ReleaseLabel)) as [->|H1]; [now rewrite lookup_insert_eq|].
  rewrite lookup_insert_ne by congruence.
  destruct (decide (k = ReleaseNamespaceKey)) as [->|H2]; [now rewrite lookup_insert_eq|].
  rewrite lookup_insert_ne by congruence. now rewrite lookup_empty.
Qed.


(** *** What the labelling leaves alone, and doing it twice *)













(** X11.  [updateProvisioningState] stops at the first call that
    fails: when the services are listed and the patch of the first one
    fails, it returns that error wrapped with the namespace and name of
    the service, patches nothing else, lists no secret and does not
    write the release into the record. *)
Theorem labelling_stops_at_the_first_failure
    (releaseName namespace : string) (params : gmap string Value)
    (err : error) (rest : list (option error))
    (service : corev1.Service) (others : list corev1.Service) (w : World) :
  faults w = None :: Some err :: rest ->
  filter (fun svc => String.eqb (corev1.svc_Namespace svc) namespace
                     && selects (<[HeritageLabel := TillerHeritage]>
                                   (<[ReleaseLabel := releaseName]> ∅))
                                (corev1.svc_Labels svc) = true)
         (services (workload w)) = service :: others ->
  let r := run b (updateProvisioningState c releaseName instanceID namespace params) w in
  returned r =
    Returned (Err (Wrapf err "failed to label service %s/%s with service metadata"
                     [VStr (corev1.svc_Namespace service); VStr (corev1.svc_Name service)])) /\
  configMaps (after r) = configMaps w /\
  workload (after r) = workload w /\
  length (trace r) = 2.
Proof.
  intros Hf Hlisted r. subst r. unfold updateProvisioningState. cbn zeta.
  rewrite run_bind, run_perform. cbn [returned after spawned trace].
  assert (Hh : handle b (Services_List namespace
                           (<[HeritageLabel := TillerHeritage]>
                              (<[ReleaseLabel := releaseName]> ∅))) w
               = (Ok (service :: others), withFaults (Some err :: rest) w)).
  { simpl. unfold apiCall. rewrite Hf. unfold listServices. cbn [workload withFaults].
    now rewrite Hlisted. }
  rewrite Hh. cbn [fst snd]. cbn zeta. rewrite run_bind. cbn [forEach].
  rewrite run_bind. unfold labelService at 1. cbn zeta. rewrite run_bind, run_perform.
  cbn [returned after spawned trace].
  match goal with
  | |- context [handle b (Services_Patch ?n ?m ?p) ?w0] =>
      assert (Hp : handle b (Services_Patch n m p) w0 = (Err err, withFaults rest w))
        by (simpl; unfold apiCall; reflexivity);
      rewrite Hp
  end.
  cbn [fst snd]. cbn zeta. rewrite !run_mret. cbn [returned after spawned trace].
  rewrite !run_mret. now cbn.
Qed.

End Labelling.




(** With the transport failing on the second call, the labelling of
    the sample release stops at its service. *)
Lemma labelling_stops_at_the_first_failure_witness :
  returned (run Sample.backend
              (updateProvisioningState Sample.client "release-apps" "i2" "apps" Sample.a1)
              (withFaults [None; Some (errorString "connection refused")]
                 Scenes.releasedWorld))
  = Returned (Err (Wrapf (errorString "connection refused")
                     "failed to label service %s/%s with service metadata"
                     [VStr "apps"; VStr "release-apps"])).
Proof.
  refine (proj1 (labelling_stops_at_the_first_failure Sample.backend Sample.client "i2"
                   "release-apps" "apps" Sample.a1 (errorString "connection refused") []
                   {| corev1.svc_Name := "release-apps"; corev1.svc_Namespace := "apps";
                      corev1.svc_Labels := Sample.tillerLabels "release-apps";
                      corev1.svc_Spec := "5432" |} []
                   (withFaults [None; Some (errorString "connection refused")]
                      Scenes.releasedWorld) _ _)).
  - reflexivity.
  - vm_compute. reflexivity.
Defined.

End LabelFacts.

(* ================================================================== *)
(** ** Operations in the background, and what a poll sees of them *)
(* ================================================================== *)

Module FlowFacts.
Import Cluster ClusterFacts Calls RunFacts minibroker PollFacts LifecycleFacts RecordFacts
  LabelFacts.

Section Flow.
Variable json_Marshal : gmap string Value -> result string.
Variable yaml_Marshal : gmap string Value -> result string.
Variable Quote : string -> string.
Variable b : Backend.
Variable c : Client.

(** Following a function body call by call, with the answers of the
    repository and of Tiller at hand. *)
Ltac walk :=
  cbn [mbind prog_mbind prog_bind perform mret prog_mret];
  repeat (first [rewrite run_Call | rewrite run_perform]; cbn [handle];
          repeat match goal with
                 | H : getChart _ _ _ = _ |- _ => rewrite H
                 | H : pingTiller _ = _ |- _ => rewrite H
                 | H : loadChart _ _ = _ |- _ => rewrite H
                 | H : installReleaseFromChart _ _ _ _ _ = _ |- _ => rewrite H
                 | H : deleteRelease _ _ _ _ = _ |- _ => rewrite H
                 | H : ?f ?x = Ok _ |- context [?f ?x] => rewrite H
                 | H : ?f ?x = Err _ |- context [?f ?x] => rewrite H
                 end;
          cbn zeta;
          cbn [fst snd app mbind prog_mbind prog_bind perform mret prog_mret
               returned after spawned trace]).

(** [installRelease] never panics, starts nothing and touches the
    workload only, and the workload alone decides what it does: the
    records, the fault script and the random numbers stay. *)
Lemma installRelease_run chartName chartVersion ns provisionParams opts (wl0 : Workload) :
  exists reply wl tr,
    forall w, workload w = wl0 ->
    run b (installRelease yaml_Marshal c chartName chartVersion ns provisionParams opts) w =
    {| returned := Returned reply; after := withWorkload wl w; spawned := []; trace := tr |}.
Proof.
  assert (Hw : forall w, w = withWorkload (workload w) w) by now intros [].
  unfold installRelease, connectTiller.
  destruct (getChart b chartName chartVersion) as [chartDef|err] eqn:Hget.
  2:{ exists (Err err), wl0. eexists. intros w <-. walk. cbn. now rewrite <- Hw. }
  destruct (pingTiller b) as [[]|err] eqn:Hping.
  2:{ exists (Err err), wl0. eexists. intros w <-. walk. cbn. now rewrite <- Hw. }
  destruct (loadChart b chartDef) as [chart|err] eqn:Hload.
  2:{ exists (Err err), wl0. eexists. intros w <-. walk. cbn. now rewrite <- Hw. }
  destruct (yaml_Marshal provisionParams) as [valuesYaml|err] eqn:Hyaml.
  2:{ exists (Err err), wl0. eexists. intros w <-. walk. cbn. now rewrite <- Hw. }
  destruct (installReleaseFromChart b chart ns
              (helm.ValueOverrides valuesYaml :: helm.InstallReuseName true
                 :: helm.InstallDisableHooks true :: opts) wl0) as [reply wl] eqn:Hinst.
  exists reply, wl. eexists. intros w <-. walk. cbn. reflexivity.
Qed.

Local Abbreviation createdRecord := (newRecord c).

Lemma inProgress_lookup token description (data : gmap string string) :
  strIndex (applyData (inProgress token description) data) OperationNameKey = token /\
  strIndex (applyData (inProgress token description) data) OperationStateKey
    = osb.StateInProgress /\
  strIndex (applyData (inProgress token description) data) OperationDescriptionKey
    = description.
Proof. unfold strIndex. rewrite !applyData_lookup. now cbn. Qed.

Lemma settled_lookup state description (data : gmap string string) :
  strIndex (applyData (settled state description) data) OperationNameKey
    = strIndex data OperationNameKey /\
  strIndex (applyData (settled state description) data) OperationStateKey = state /\
  strIndex (applyData (settled state description) data) OperationDescriptionKey
    = description.
Proof. unfold strIndex. rewrite !applyData_lookup. now cbn. Qed.

(** [generateOperationName] draws one number and changes nothing else. *)
Lemma generateOperationName_run {A : Type} (prefix : string) (k : string -> prog A)
    (w : World) :
  exists n rest,
    run b (generateOperationName prefix ≫= k) w =
    {| returned := returned (run b (k (prefix +:+ formatHex n)) (withRands rest w));
       after := after (run b (k (prefix +:+ formatHex n)) (withRands rest w));
       spawned := spawned (run b (k (prefix +:+ formatHex n)) (withRands rest w));
       trace := Entry Rand_Int31 n
                  :: trace (run b (k (prefix +:+ formatHex n)) (withRands rest w)) |}.
Proof.
  unfold generateOperationName.
  cbn [mbind prog_mbind prog_bind perform mret prog_mret].
  rewrite run_Call. cbn [handle].
  destruct (rands w) as [|n rest] eqn:Hr.
  - exists 0%Z, []. cbn zeta.
    assert (Hw : w = withRands [] w) by (destruct w; cbn in *; now subst).
    now rewrite <- Hw.
  - exists (n mod 2 ^ 31)%Z, rest. reflexivity.
Qed.

(** An asynchronous [Provision] that is admitted: the record is created
    and marked in progress under a fresh token, one goroutine is
    started, the token is returned. *)
Lemma Provision_async_run instanceID serviceID planID ns provisionParams js (w : World) :
  json_Marshal provisionParams = Ok js ->
  faults w = [] ->
  configMaps w !! (namespace c, instanceID) = None ->
  exists n rest tr,
    run b (Provision json_Marshal yaml_Marshal Quote c instanceID serviceID planID ns true
             provisionParams) w =
    {| returned := Returned (Ok (OperationPrefixProvision +:+ formatHex n));
       after :=
         withConfigMaps
           (<[(namespace c, instanceID) :=
                updatedRecord
                  (inProgress (OperationPrefixProvision +:+ formatHex n)
                     ("provisioning service instance " +:+ Quote instanceID))
                  (createdRecord instanceID serviceID planID js)]> (configMaps w))
           (withRands rest w);
       spawned := [provisionInBackground yaml_Marshal Quote c instanceID serviceID
                     (chartVersionOf serviceID planID) ns provisionParams];
       trace := tr |}.
Proof.
  intros Hjs Hq Habs. unfold Provision. rewrite Hjs, run_bind, run_perform.
  cbn [corev1.cm_Namespace returned after spawned trace].
  fold (createdRecord instanceID serviceID planID js).
  rewrite (handle_Create_absent b _ (createdRecord instanceID serviceID planID js) w Hq Habs).
  cbn [fst snd]. cbn zeta. unfold provisionAdmitted.
  match goal with
  | |- context [run b (generateOperationName ?p ≫= ?k) ?w0] =>
      destruct (generateOperationName_run p k w0) as (n & rest & ->)
  end.
  exists n, rest. cbn [returned after spawned trace].
  set (w2 := withRands rest _).
  assert (Hq2 : faults w2 = []) by exact Hq.
  assert (Hrec2 : configMaps w2 !! (namespace c, instanceID)
                  = Some (createdRecord instanceID serviceID planID js)).
  { unfold w2. cbn. apply lookup_insert_eq. }
  rewrite run_bind.
  fold (inProgress (OperationPrefixProvision +:+ formatHex n)
          ("provisioning service instance " +:+ Quote instanceID)).
  rewrite (updateConfigMap_run b c instanceID _ _ w2 Hq2 Hrec2 eq_refl).
  cbn [returned after spawned trace run]. cbn zeta.
  eexists. f_equal. unfold w2, withConfigMaps, withRands. cbn.
  now rewrite insert_insert_eq.
Qed.

(** The goroutine of [Provision], with the record in place and the API
    calls going through: it ends, and leaves the record marked
    succeeded if the installation succeeded and failed if it did not,
    with the operation token as it was. *)
Lemma provisionInBackground_run instanceID chartName chartVersion ns provisionParams
    (config : corev1.ConfigMap) (w : World) :
  faults w = [] ->
  configMaps w !! (namespace c, instanceID) = Some config ->
  corev1.cm_Name config = instanceID ->
  let g := run b (provisionInBackground yaml_Marshal Quote c instanceID chartName chartVersion
                    ns provisionParams) w in
  let installed :=
    match returned (run b (installRelease yaml_Marshal c chartName chartVersion ns
                             provisionParams [helm.InstallWait true]) w) with
    | Returned (Ok _) => true
    | _ => false
    end in
  returned g = Returned tt /\
  spawned g = [] /\
  faults (after g) = [] /\
  exists config',
    configMaps (after g) !! (namespace c, instanceID) = Some config' /\
    strIndex (corev1.cm_Data config') OperationNameKey
      = strIndex (corev1.cm_Data config) OperationNameKey /\
    strIndex (corev1.cm_Data config') OperationStateKey
      = (if installed then osb.StateSucceeded else osb.StateFailed) /\
    strIndex (corev1.cm_Data config') OperationDescriptionKey
      = "service instance " +:+ Quote instanceID +:+
        (if installed then " provisioned" else " failed to provision").
Proof.
  intros Hq Hrec Hname g installed. subst g installed.
  unfold provisionInBackground. rewrite run_bind.
  destruct (installRelease_run chartName chartVersion ns provisionParams
              [helm.InstallWait true] (workload w)) as (reply & wl & tr & Hinst).
  rewrite (Hinst w eq_refl).
  cbn [returned after spawned trace]. cbn zeta.
  set (w1 := withWorkload wl w).
  assert (Hq1 : faults w1 = []) by exact Hq.
  assert (Hrec1 : configMaps w1 !! (namespace c, instanceID) = Some config) by exact Hrec.
  destruct reply as [resp|err].
  - rewrite run_bind.
    destruct (updateProvisioningState_run b c instanceID (helm.rel_Name resp)
                (helm.rel_Namespace resp) provisionParams config w1 Hq1 Hrec1 Hname)
      as (tr2 & ->).
    cbn [returned after spawned trace]. cbn zeta.
    match goal with
    | |- context [run b _ ?w0] => set (w2 := w0)
    end.
    rewrite run_bind.
    fold (settled osb.StateSucceeded
            ("service instance " +:+ Quote instanceID +:+ " provisioned")).
    rewrite (updateConfigMap_run b c instanceID _
               (updatedRecord (releaseData (helm.rel_Name resp) (helm.rel_Namespace resp))
                  config) w2 eq_refl).
    + cbn [returned after spawned trace run mret prog_mret]. cbn zeta.
      split; [reflexivity|]. split; [reflexivity|]. split; [reflexivity|].
      exists (updatedRecord
                (settled osb.StateSucceeded
                   ("service instance " +:+ Quote instanceID +:+ " provisioned"))
                (updatedRecord (releaseData (helm.rel_Name resp) (helm.rel_Namespace resp))
                   config)).
      split; [apply lookup_insert_eq|].
      cbn [updatedRecord corev1.cm_Data].
      destruct (settled_lookup osb.StateSucceeded
                  ("service instance " +:+ Quote instanceID +:+ " provisioned")
                  (applyData (releaseData (helm.rel_Name resp) (helm.rel_Namespace resp))
                     (corev1.cm_Data config))) as (H1 & H2 & H3).
      rewrite H1, H2, H3. split; [|now split].
      unfold strIndex. now rewrite releaseData_lookup.
    + unfold w2. cbn. apply lookup_insert_eq.
    + exact Hname.
  - unfold provisionFail. rewrite run_bind.
    fold (settled osb.StateFailed
            ("service instance " +:+ Quote instanceID +:+ " failed to provision")).
    rewrite (updateConfigMap_run b c instanceID _ config w1 Hq1 Hrec1 Hname).
    cbn [returned after spawned trace run mret prog_mret]. cbn zeta.
    split; [reflexivity|]. split; [reflexivity|]. split; [exact Hq|].
    exists (updatedRecord
              (settled osb.StateFailed
                 ("service instance " +:+ Quote instanceID +:+ " failed to provision"))
              config).
    split; [apply lookup_insert_eq|].
    cbn [updatedRecord corev1.cm_Data].
    destruct (settled_lookup osb.StateFailed
                ("service instance " +:+ Quote instanceID +:+ " failed to provision")
                (corev1.cm_Data config)) as (H1 & H2 & H3).
    rewrite H1, H2, H3. now repeat split.
Qed.

(** X12.  An asynchronous [Provision] on an instance without a record
    (the parameters marshal, the API calls go through) returns a token
    that starts with [provision-] and starts one goroutine.  Once that
    goroutine has run, a poll with the token no longer reports in
    progress: it reports succeeded, with the description
    [service instance "id" provisioned], if the installation of the
    decoded chart version succeeded, and failed, with
    [service instance "id" failed to provision], if it did not. *)
Theorem async_provision_settles instanceID serviceID planID ns provisionParams js (w : World) :
  json_Marshal provisionParams = Ok js ->
  faults w = [] ->
  configMaps w !! (namespace c, instanceID) = None ->
  let r := run b (Provision json_Marshal yaml_Marshal Quote c instanceID serviceID planID ns
                    true provisionParams) w in
  exists token body,
    returned r = Returned (Ok token) /\
    GoStrings.HasPrefix token OperationPrefixProvision = true /\
    spawned r = [body] /\
    let g := run b body (after r) in
    let installed :=
      match returned (run b (installRelease yaml_Marshal c serviceID
                               (chartVersionOf serviceID planID) ns provisionParams
                               [helm.InstallWait true]) (after r)) with
      | Returned (Ok _) => true
      | _ => false
      end in
    returned g = Returned tt /\
    spawned g = [] /\
    returned (run b (LastOperationState c instanceID (Some token)) (after g)) =
    Returned (Ok {| osb.State := if installed then osb.StateSucceeded else osb.StateFailed;
                    osb.resp_Description :=
                      Some ("service instance " +:+ Quote instanceID +:+
                            (if installed then " provisioned"
                             else " failed to provision")) |}).
Proof.
  intros Hjs Hq Habs r. subst r.
  destruct (Provision_async_run instanceID serviceID planID ns provisionParams js w
              Hjs Hq Habs) as (n & rest & tr & ->).
  cbn [returned after spawned].
  eexists. eexists. split; [reflexivity|].
  split; [apply GoStringsFacts.HasPrefix_app|]. split; [reflexivity|].
  set (record := updatedRecord
                   (inProgress (OperationPrefixProvision +:+ formatHex n)
                      ("provisioning service instance " +:+ Quote instanceID))
                   (createdRecord instanceID serviceID planID js)).
  set (w1 := withConfigMaps _ _).
  assert (Hq1 : faults w1 = []) by exact Hq.
  assert (Hrec1 : configMaps w1 !! (namespace c, instanceID) = Some record).
  { unfold w1. cbn. apply lookup_insert_eq. }
  destruct (provisionInBackground_run instanceID serviceID (chartVersionOf serviceID planID)
              ns provisionParams record w1 Hq1 Hrec1 eq_refl)
    as (Hg & Hs & Hqg & config' & Hrecg & Hname & Hstate & Hdesc).
  cbn zeta in *. split; [exact Hg|]. split; [exact Hs|].
  rewrite (LastOperationState_run b c instanceID _ config' _ Hqg Hrecg).
  rewrite Hname, Hstate, Hdesc. unfold record. cbn [updatedRecord corev1.cm_Data].
  destruct (inProgress_lookup (OperationPrefixProvision +:+ formatHex n)
              ("provisioning service instance " +:+ Quote instanceID)
              (corev1.cm_Data (createdRecord instanceID serviceID planID js))) as (-> & _).
  rewrite String.eqb_refl. reflexivity.
Qed.

(** A synchronous [Provision] that is admitted, up to the installation. *)
Lemma Provision_sync_run instanceID serviceID planID ns provisionParams js (w : World) :
  json_Marshal provisionParams = Ok js ->
  faults w = [] ->
  configMaps w !! (namespace c, instanceID) = None ->
  let w1 := withConfigMaps
              (<[(namespace c, instanceID) := createdRecord instanceID serviceID planID js]>
                 (configMaps w)) w in
  exists reply wl tr,
    run b (installRelease yaml_Marshal c serviceID (chartVersionOf serviceID planID) ns
             provisionParams []) w
    = {| returned := Returned reply; after := withWorkload wl w; spawned := []; trace := tr |} /\
    match reply with
    | Err err =>
        exists tr',
        run b (Provision json_Marshal yaml_Marshal Quote c instanceID serviceID planID ns false
                 provisionParams) w =
        {| returned := Returned (Err err); after := withWorkload wl w1;
           spawned := []; trace := tr' |}
    | Ok resp =>
        exists tr',
        run b (Provision json_Marshal yaml_Marshal Quote c instanceID serviceID planID ns false
                 provisionParams) w =
        {| returned := Returned (Ok "");
           after := after (run b (updateProvisioningState c (helm.rel_Name resp) instanceID
                                    (helm.rel_Namespace resp) provisionParams)
                             (withWorkload wl w1));
           spawned := []; trace := tr' |}
    end.
Proof.
  intros Hjs Hq Habs w1.
  destruct (installRelease_run serviceID (chartVersionOf serviceID planID) ns provisionParams
              [] (workload w)) as (reply & wl & tr & Hinst).
  exists reply, wl, tr. split; [apply Hinst; reflexivity|].
  assert (Hrun : exists tr0,
            run b (Provision json_Marshal yaml_Marshal Quote c instanceID serviceID planID ns
                     false provisionParams) w =
            let r2 := run b match reply with
                            | Ok resp =>
                                r ← updateProvisioningState c (helm.rel_Name resp) instanceID
                                      (helm.rel_Namespace resp) provisionParams;
                                match r with
                                | Err err => mret (Err err)
                                | Ok _ => mret (Ok "")
                                end
                            | Err err => mret (Err err)
                            end (withWorkload wl w1) in
            {| returned := returned r2; after := after r2; spawned := spawned r2;
               trace := tr0 |}).
  { unfold Provision. rewrite Hjs, run_bind, run_perform.
    cbn [corev1.cm_Namespace returned after spawned trace].
    fold (createdRecord instanceID serviceID planID js).
    rewrite (handle_Create_absent b _ (createdRecord instanceID serviceID planID js) w Hq Habs).
    cbn [fst snd]. cbn zeta. unfold provisionAdmitted. cbv beta iota zeta.
    change (corev1.cm_Name (createdRecord instanceID serviceID planID js)) with instanceID.
    fold w1. rewrite run_bind.
    rewrite (Hinst w1 eq_refl). cbn [returned after spawned trace]. cbn zeta.
    eexists. reflexivity. }
  destruct Hrun as (tr0 & Hrun). rewrite Hrun. clear Hrun.
  destruct reply as [resp|err].
  - cbn zeta. rewrite run_bind.
    assert (Hq1 : faults (withWorkload wl w1) = []) by exact Hq.
    assert (Hrec1 : configMaps (withWorkload wl w1) !! (namespace c, instanceID)
                    = Some (createdRecord instanceID serviceID planID js)).
    { cbn. apply lookup_insert_eq. }
    destruct (updateProvisioningState_run b c instanceID (helm.rel_Name resp)
                (helm.rel_Namespace resp) provisionParams _ _ Hq1 Hrec1 eq_refl)
      as (tr2 & ->).
    cbn [returned after spawned trace run mret prog_mret]. cbn zeta. eexists. reflexivity.
  - cbn. eexists. reflexivity.
Qed.

(** X13.  A synchronous [Provision] on an instance without a record
    (the parameters marshal, the API calls go through) whose
    installation succeeds returns the empty token and starts no
    goroutine; the record then holds the service, the plan, the
    marshalled parameters and the name and namespace of the installed
    release, and no operation token, so that a poll without a token
    reports an empty state. *)
Theorem sync_provision_records_release instanceID serviceID planID ns provisionParams js
    (resp : helm.Release) (w : World) :
  json_Marshal provisionParams = Ok js ->
  faults w = [] ->
  configMaps w !! (namespace c, instanceID) = None ->
  returned (run b (installRelease yaml_Marshal c serviceID (chartVersionOf serviceID planID) ns
                     provisionParams []) w) = Returned (Ok resp) ->
  let r := run b (Provision json_Marshal yaml_Marshal Quote c instanceID serviceID planID ns
                    false provisionParams) w in
  returned r = Returned (Ok "") /\
  spawned r = [] /\
  (exists config,
     configMaps (after r) !! (namespace c, instanceID) = Some config /\
     corev1.cm_Data config =
       <[ReleaseLabel := helm.rel_Name resp]>
         (<[ReleaseNamespaceKey := helm.rel_Namespace resp]>
            (<[ProvisionParamsKey := js]>
               (<[ServiceKey := serviceID]> (<[PlanKey := planID]> ∅))))) /\
  returned (run b (LastOperationState c instanceID None) (after r)) =
  Returned (Ok {| osb.State := ""; osb.resp_Description := Some "" |}).
Proof.
  intros Hjs Hq Habs Hok r. subst r.
  destruct (Provision_sync_run instanceID serviceID planID ns provisionParams js w Hjs Hq Habs)
    as (reply & wl & tr & Hinst & Hrun).
  rewrite Hinst in Hok. cbn [returned] in Hok. injection Hok as ->.
  destruct Hrun as (tr' & ->). cbn [returned after spawned].
  set (w1 := withWorkload wl _).
  assert (Hq1 : faults w1 = []) by exact Hq.
  assert (Hrec1 : configMaps w1 !! (namespace c, instanceID)
                  = Some (createdRecord instanceID serviceID planID js)).
  { cbn. apply lookup_insert_eq. }
  destruct (updateProvisioningState_run b c instanceID (helm.rel_Name resp)
              (helm.rel_Namespace resp) provisionParams _ _ Hq1 Hrec1 eq_refl)
    as (tr2 & ->).
  cbn [after]. split; [reflexivity|]. split; [reflexivity|].
  set (record := updatedRecord _ _).
  assert (Hdata : corev1.cm_Data record =
                  <[ReleaseLabel := helm.rel_Name resp]>
                    (<[ReleaseNamespaceKey := helm.rel_Namespace resp]>
                       (<[ProvisionParamsKey := js]>
                          (<[ServiceKey := serviceID]> (<[PlanKey := planID]> ∅))))).
  { apply map_eq. intros k. unfold record. cbn [updatedRecord corev1.cm_Data createdRecord].
    rewrite releaseData_lookup.
    destruct (decide (k = ReleaseLabel)) as [->|H1]; [now rewrite lookup_insert_eq|].
    rewrite (lookup_insert_ne _ ReleaseLabel) by congruence.
    destruct (decide (k = ReleaseNamespaceKey)) as [->|H2]; [now rewrite lookup_insert_eq|].
    now rewrite (lookup_insert_ne _ ReleaseNamespaceKey) by congruence. }
  split.
  - exists record. split; [apply lookup_insert_eq | exact Hdata].
  - rewrite (LastOperationState_run b c instanceID None record).
    + unfold strIndex. rewrite Hdata. reflexivity.
    + reflexivity.
    + apply lookup_insert_eq.
Qed.

(** X14.  A synchronous [Provision] whose installation fails returns the
    error of the installation as it is and leaves the record it has
    created: nothing is rolled back, and any later [Provision] for that
    instance ID (its parameters marshalling) is refused with Conflict. *)
Theorem failed_provision_blocks_retry instanceID serviceID planID ns provisionParams js
    (err : error) (w : World) :
  json_Marshal provisionParams = Ok js ->
  faults w = [] ->
  configMaps w !! (namespace c, instanceID) = None ->
  returned (run b (installRelease yaml_Marshal c serviceID (chartVersionOf serviceID planID) ns
                     provisionParams []) w) = Returned (Err err) ->
  let r := run b (Provision json_Marshal yaml_Marshal Quote c instanceID serviceID planID ns
                    false provisionParams) w in
  returned r = Returned (Err err) /\
  spawned r = [] /\
  configMaps (after r) !! (namespace c, instanceID)
    = Some (createdRecord instanceID serviceID planID js) /\
  forall serviceID' planID' ns' acceptsIncomplete params' js',
    json_Marshal params' = Ok js' ->
    returned (run b (Provision json_Marshal yaml_Marshal Quote c instanceID serviceID' planID'
                       ns' acceptsIncomplete params') (after r))
    = Returned (Err (HTTPStatusCodeError http.StatusConflict
                       (Some ConcurrencyErrorMessage) (Some ConcurrencyErrorDescription))).
Proof.
  intros Hjs Hq Habs Hfail r. subst r.
  destruct (Provision_sync_run instanceID serviceID planID ns provisionParams js w Hjs Hq Habs)
    as (reply & wl & tr & Hinst & Hrun).
  rewrite Hinst in Hfail. cbn [returned] in Hfail. injection Hfail as ->.
  destruct Hrun as (tr' & ->). cbn [returned after spawned].
  split; [reflexivity|]. split; [reflexivity|].
  set (w1 := withWorkload wl _).
  assert (Hrec1 : configMaps w1 !! (namespace c, instanceID)
                  = Some (createdRecord instanceID serviceID planID js)).
  { cbn. apply lookup_insert_eq. }
  split; [exact Hrec1|].
  intros serviceID' planID' ns' acceptsIncomplete params' js' Hjs'.
  unfold Provision. rewrite Hjs', run_bind, run_perform.
  cbn [corev1.cm_Namespace returned after spawned trace].
  match goal with
  | |- context [handle b (ConfigMaps_Create ?n ?cfg) w1] =>
      rewrite (handle_Create_present b n cfg _ w1 Hq Hrec1)
  end.
  reflexivity.
Qed.

Local Abbreviation deprovisioned := (Calls.deprovisioned b c).

Lemma deprovisionSynchronously_run instanceID release (config : corev1.ConfigMap) (w : World) :
  faults w = [] ->
  configMaps w !! (namespace c, instanceID) = Some config ->
  exists tr,
    run b (deprovisionSynchronously c instanceID release) w =
    {| returned := Returned (deprovisioned instanceID release w).1;
       after := (deprovisioned instanceID release w).2;
       spawned := []; trace := tr |}.
Proof.
  intros Hq Hrec. unfold deprovisionSynchronously, connectTiller, deprovisioned.
  destruct (pingTiller b) as [[]|err] eqn:Hping.
  2:{ walk. cbn. eexists. reflexivity. }
  destruct (deleteRelease b release _ (workload w)) as [[[]|err] wl] eqn:Hdel.
  2:{ walk. cbn. eexists. reflexivity. }
  assert (Hh : apiCall (deleteConfigMap (namespace c) instanceID) (withWorkload wl w) =
               (Ok tt, withConfigMaps (delete (namespace c, instanceID) (configMaps w))
                         (withWorkload wl w))).
  { rewrite apiCall_quiet by exact Hq. unfold deleteConfigMap. cbn. now rewrite Hrec. }
  walk. rewrite Hh. cbn. eexists. reflexivity.
Qed.

Lemma deprovisioned_failed instanceID release (w : World) err :
  (deprovisioned instanceID release w).1 = Err err ->
  configMaps (deprovisioned instanceID release w).2 = configMaps w /\
  faults (deprovisioned instanceID release w).2 = faults w.
Proof.
  unfold deprovisioned. destruct (pingTiller b) as [[]|err0]; [|now intros _].
  destruct (deleteRelease b release _ (workload w)) as [[[]|err0] wl]; [discriminate|].
  now intros _.
Qed.


(** X15.  A synchronous [Deprovision] during which Tiller fails (it
    does not answer, or it does not delete the release) returns an
    error and keeps the record of the instance as it was, and no
    goroutine is started: the instance can be deprovisioned again. *)
Theorem failed_deprovision_keeps_record instanceID (config : corev1.ConfigMap) (w : World)
    (err : error) :
  faults w = [] ->
  configMaps w !! (namespace c, instanceID) = Some config ->
  returned (run b (deprovisionSynchronously c instanceID
                     (strIndex (corev1.cm_Data config) ReleaseLabel)) w)
    = Returned (Err err) ->
  let r := run b (Deprovision Quote c instanceID false) w in
  returned r = Returned (Err err) /\
  spawned r = [] /\
  configMaps (after r) = configMaps w /\
  Forall (fun e => match e with
                   | Entry (ConfigMaps_Delete _ _) _ => False
                   | _ => True
                   end) (trace r).
Proof.
  intros Hq Hrec Hfail r. subst r. unfold Deprovision.
  rewrite run_bind, run_perform. cbn [returned after spawned trace].
  rewrite (handle_Get_present b _ _ config w Hq Hrec). cbn [fst snd negb]. cbn zeta.
  rewrite run_bind.
  destruct (deprovisionSynchronously_run instanceID
              (strIndex (corev1.cm_Data config) ReleaseLabel) config w Hq Hrec) as (tr0 & Hrun).
  rewrite Hrun in Hfail. cbn [returned] in Hfail. injection Hfail as Hfail. clear Hrun.
  destruct (deprovisioned_failed _ _ _ _ Hfail) as [Hc _].
  revert Hfail Hc. unfold deprovisionSynchronously, connectTiller, deprovisioned.
  destruct (pingTiller b) as [[]|err0] eqn:Hping.
  2:{ intros [= ->] _. walk. cbn. repeat split. repeat constructor. }
  destruct (deleteRelease b _ _ (workload w)) as [[[]|err0] wl] eqn:Hdel; [discriminate|].
  intros [= <-] _. walk. cbn. repeat split. repeat constructor.
Qed.



End Flow.

(** The sample provision of [i2], asynchronous: the goroutine installs
    the release and the poll reports succeeded. *)
Lemma async_provision_settles_witness :
  exists token body,
    returned (run Sample.backend (Sample.Provision Sample.client "i2" "pg" "pg-9-6" "apps"
                                    true Sample.a1) Sample.emptyWorld)
      = Returned (Ok token) /\
    spawned (run Sample.backend (Sample.Provision Sample.client "i2" "pg" "pg-9-6" "apps"
                                   true Sample.a1) Sample.emptyWorld) = [body] /\
    returned (run Sample.backend (LastOperationState Sample.client "i2" (Some token))
                (after (run Sample.backend body Sample.asyncWorld)))
      = Returned (Ok {| osb.State := osb.StateSucceeded;
                        osb.resp_Description :=
                          Some ("service instance " +:+ Sample.Quote "i2" +:+
                                " provisioned") |}).
Proof.
  destruct (async_provision_settles Sample.json_Marshal Sample.yaml_Marshal Sample.Quote
              Sample.backend Sample.client "i2" "pg" "pg-9-6" "apps" Sample.a1 "{a:1}"
              Sample.emptyWorld eq_refl eq_refl eq_refl)
    as (token & body & H1 & _ & H3 & _ & _ & H6).
  exists token, body. split; [exact H1|]. split; [exact H3|]. exact H6.
Defined.

(** The sample provision of [i1], synchronous. *)
Lemma sync_provision_records_release_witness :
  returned (run Sample.backend (Sample.Provision Sample.client "i1" "pg" "pg-9-6" "apps"
                                  false Sample.a1) Sample.emptyWorld)
    = Returned (Ok "") /\
  returned (run Sample.backend (LastOperationState Sample.client "i1" None)
              Sample.provisionedWorld)
    = Returned (Ok {| osb.State := ""; osb.resp_Description := Some "" |}).
Proof.
  destruct (sync_provision_records_release Sample.json_Marshal Sample.yaml_Marshal
              Sample.Quote Sample.backend Sample.client "i1" "pg" "pg-9-6" "apps" Sample.a1
              "{a:1}" Scenes.release Sample.emptyWorld eq_refl eq_refl eq_refl eq_refl)
    as (H1 & _ & _ & H4).
  split; [exact H1 | exact H4].
Defined.

(** A plan the sample repository does not have: the provision fails
    and a second one is refused. *)
Lemma failed_provision_blocks_retry_witness :
  returned (run Sample.backend (Sample.Provision Sample.client "i1" "pg" "pg-0-0" "apps"
                                  false Sample.a1) Sample.emptyWorld)
    = Returned (Err (errorString "no such chart")) /\
  returned (run Sample.backend (Sample.Provision Sample.client "i1" "pg" "pg-9-6" "apps"
                                  false Sample.a1)
              (after (run Sample.backend (Sample.Provision Sample.client "i1" "pg" "pg-0-0"
                                            "apps" false Sample.a1) Sample.emptyWorld)))
    = Returned (Err (HTTPStatusCodeError http.StatusConflict
                       (Some ConcurrencyErrorMessage) (Some ConcurrencyErrorDescription))).
Proof.
  destruct (failed_provision_blocks_retry Sample.json_Marshal Sample.yaml_Marshal
              Sample.Quote Sample.backend Sample.client "i1" "pg" "pg-0-0" "apps" Sample.a1
              "{a:1}" (errorString "no such chart") Sample.emptyWorld
              eq_refl eq_refl eq_refl eq_refl)
    as (H1 & _ & _ & H4).
  split; [exact H1|]. exact (H4 "pg" "pg-9-6" "apps" false Sample.a1 "{a:1}" eq_refl).
Defined.

(** With a Tiller that does not answer, the deprovision of the sample
    instance fails and its record stays. *)
Lemma failed_deprovision_keeps_record_witness :
  returned (run Scenes.silentTiller (Sample.Deprovision Sample.client "i1" false)
              Sample.provisionedWorld)
    = Returned (Err (errorString "tiller does not answer")) /\
  configMaps (after (run Scenes.silentTiller (Sample.Deprovision Sample.client "i1" false)
                       Sample.provisionedWorld))
    = configMaps Sample.provisionedWorld.
Proof.
  destruct (failed_deprovision_keeps_record Sample.Quote Scenes.silentTiller Sample.client
              "i1" (Sample.recordOf "i1" Sample.provisionedWorld) Sample.provisionedWorld
              (errorString "tiller does not answer"))
    as (H1 & _ & H3 & _).
  - reflexivity.
  - vm_compute. reflexivity.
  - vm_compute. reflexivity.
  - split; [exact H1 | exact H3].
Defined.


(** X17.  [LastOperationState] only reads: whatever the record, the
    token and the fault script, it makes one call, the get of the
    record, starts nothing, does not panic and leaves the records, the
    services, the secrets and the releases as they were. *)
Theorem poll_only_reads
    (b : Backend) (c : Client) (instanceID : string) (operationKey : option string)
    (w : World) :
  let r := run b (LastOperationState c instanceID operationKey) w in
  (exists answer, returned r = Returned answer /\
                  trace r = [Entry (ConfigMaps_Get (namespace c) instanceID)
                               (handle b (ConfigMaps_Get (namespace c) instanceID) w).1]) /\
  spawned r = [] /\
  configMaps (after r) = configMaps w /\
  workload (after r) = workload w.
Proof.
  intros r. subst r. unfold LastOperationState. rewrite run_bind_perform. cbn zeta.
  destruct (handle_Get_frame b (namespace c) instanceID w) as [Hc Hw].
  destruct (handle b (ConfigMaps_Get (namespace c) instanceID) w) as [[config|err] w1].
  - cbn [fst snd] in *.
    destruct (match operationKey with None => _ | Some _ => _ end); cbn; eauto 10.
  - cbn [fst snd] in *. destruct (apierrors.IsNotFound err); cbn; eauto 10.
Qed.

End FlowFacts.

(* ================================================================== *)
(** ** Credentials, and the errors of the first call *)
(* ================================================================== *)

Module CredentialFacts.
Import Cluster ClusterFacts Calls RunFacts minibroker PollFacts BindFacts LifecycleFacts
  RecordFacts LabelFacts FlowFacts.

(** One secret poured into [data]: its entries win. *)
Lemma pour_lookup (data : gmap string Value) (entries : gmap string string) (k : string) :
  map_fold (fun key value data => <[key := VStr value]> data) data entries !! k =
  match entries !! k with
  | Some value => Some (VStr value)
  | None => data !! k
  end.
Proof.
  apply (map_fold_weak_ind
           (fun r (m : gmap string string) =>
              r !! k = match m !! k with
                       | Some value => Some (VStr value)
                       | None => data !! k
                       end)).
  - now rewrite lookup_empty.
  - intros i x m r Hi IH. destruct (decide (i = k)) as [->|Hne].
    + now rewrite !lookup_insert_eq.
    + rewrite !lookup_insert_ne by assumption. exact IH.
Qed.

Lemma secretData_snoc (secrets : list corev1.Secret) (secret : corev1.Secret) (k : string) :
  secretData (secrets ++ [secret]) !! k =
  match corev1.sec_Data secret !! k with
  | Some value => Some (VStr value)
  | None => secretData secrets !! k
  end.
Proof. unfold secretData. rewrite fold_left_app. cbn [fold_left]. apply pour_lookup. Qed.

Lemma secretData_last_wins (pre : list corev1.Secret) (secret : corev1.Secret)
    (post : list corev1.Secret) (k value : string) :
  corev1.sec_Data secret !! k = Some value ->
  (forall later, later ∈ post -> corev1.sec_Data later !! k = None) ->
  secretData (pre ++ secret :: post) !! k = Some (VStr value).
Proof.
  intros Hk. induction post as [|x post IH] using rev_ind; intros Hpost.
  - change (pre ++ [secret]) with (pre ++ [secret]). rewrite secretData_snoc. now rewrite Hk.
  - change (pre ++ secret :: post ++ [x]) with (pre ++ (secret :: post) ++ [x]).
    rewrite app_assoc, secretData_snoc.
    rewrite (Hpost x) by (apply elem_of_app; right; apply list_elem_of_here).
    apply IH. intros later Hl. apply Hpost, elem_of_app. now left.
Qed.

Lemma secretData_absent (secrets : list corev1.Secret) (k : string) :
  (forall secret, secret ∈ secrets -> corev1.sec_Data secret !! k = None) ->
  secretData secrets !! k = None.
Proof.
  induction secrets as [|x secrets IH] using rev_ind; intros Hall.
  - unfold secretData. cbn. apply lookup_empty.
  - rewrite secretData_snoc.
    rewrite (Hall x) by (apply elem_of_app; right; apply list_elem_of_here).
    apply IH. intros secret Hs. apply Hall, elem_of_app. now left.
Qed.

Section Credentials.
Variable json_Unmarshal : string -> result (gmap string Value).
Variable b : Backend.
Variable c : Client.

(** X18.  The credentials of [Bind], on a record whose stored
    parameters decode, with a labelled service and a labelled secret
    (the API calls going through).  The entries of the listed secrets
    are collected as strings: a key held by a listed secret gets the
    value of the last listed secret holding it, a key no listed secret
    holds is absent.  Without a provider for the service these are the
    credentials; a registered provider gets them and, if it succeeds,
    its credentials are added on top, its values replacing those of the
    secrets; if it fails, its error is returned wrapped. *)
Theorem bind_credentials
    (instanceID serviceID : string) (bindParams provisionParams : gmap string Value)
    (config : corev1.ConfigMap) (w : World) :
  faults w = [] ->
  configMaps w !! (namespace c, instanceID) = Some config ->
  json_Unmarshal (strIndex (corev1.cm_Data config) ProvisionParamsKey) = Ok provisionParams ->
  let ns := strIndex (corev1.cm_Data config) ReleaseNamespaceKey in
  let svcs := Spec.labelledServices instanceID ns w in
  let secs := Spec.labelledSecrets instanceID ns w in
  svcs <> [] ->
  secs <> [] ->
  let r := returned (run b (Bind json_Unmarshal c instanceID serviceID bindParams) w) in
  (forall pre secret post k value,
     secs = pre ++ secret :: post ->
     corev1.sec_Data secret !! k = Some value ->
     (forall later, later ∈ post -> corev1.sec_Data later !! k = None) ->
     secretData secs !! k = Some (VStr value)) /\
  (forall k, (forall secret, secret ∈ secs -> corev1.sec_Data secret !! k = None) ->
             secretData secs !! k = None) /\
  match providers c !! serviceID with
  | None => r = Returned (Ok (secretData secs))
  | Some provider =>
      match provider svcs (mergeParams provisionParams bindParams) (secretData secs) with
      | Err err => r = Returned (Err (Wrapf err "unable to bind instance %s" [VStr instanceID]))
      | Ok creds =>
          exists data,
            r = Returned (Ok data) /\
            forall k, data !! k = match creds !! k with
                                  | Some v => Some v
                                  | None => secretData secs !! k
                                  end
      end
  end.
Proof.
  intros Hq Hrec Hjson ns svcs secs Hsvcs Hsecs r. subst r.
  split; [intros pre secret post k value ->; apply secretData_last_wins|].
  split; [intros k; apply secretData_absent|].
  rewrite (Bind_run json_Unmarshal b c instanceID serviceID bindParams provisionParams
             config w Hq Hrec Hjson).
  fold ns. fold svcs. fold secs.
  assert (Hl1 : Nat.eqb (length svcs) 0 = false) by (destruct svcs; [contradiction|reflexivity]).
  assert (Hl2 : Nat.eqb (length secs) 0 = false) by (destruct secs; [contradiction|reflexivity]).
  rewrite Hl1, Hl2.
  destruct (providers c !! serviceID) as [provider|]; [|reflexivity].
  destruct (provider _ _ _) as [creds|err]; [|reflexivity].
  eexists. split; [reflexivity|]. intros k.
  rewrite map_fold_insert_union, lookup_union.
  destruct (creds !! k), (secretData secs !! k); reflexivity.
Qed.

(** X19.  [Bind] stops at its first call when the instance has no
    record, with the HTTP status error 404 and the message
    [could not find configmap namespace/id], and right after it when
    the stored parameters do not decode, with the decoding error
    wrapped: in both cases no service and no secret is listed. *)
Theorem bind_fails_before_listing
    (instanceID serviceID : string) (bindParams : gmap string Value) (w : World) :
  faults w = [] ->
  let r := run b (Bind json_Unmarshal c instanceID serviceID bindParams) w in
  match configMaps w !! (namespace c, instanceID) with
  | None =>
      returned r =
      Returned (Err (HTTPStatusCodeError http.StatusNotFound
                       (Some ("could not find configmap " +:+ namespace c +:+ "/" +:+
                              instanceID)) None)) /\
      length (trace r) = 1
  | Some config =>
      forall err,
        json_Unmarshal (strIndex (corev1.cm_Data config) ProvisionParamsKey) = Err err ->
        returned r =
        Returned (Err (Wrapf err "could not unmarshall provision parameters for instance %q"
                         [VStr instanceID])) /\
        trace r = [Entry (ConfigMaps_Get (namespace c) instanceID) (Ok config)]
  end.
Proof.
  intros Hq r. subst r. unfold Bind.
  destruct (configMaps w !! (namespace c, instanceID)) as [config|] eqn:Hrec.
  - intros err Herr.
    rewrite run_bind_perform, (handle_Get_present b _ _ config w Hq Hrec).
    cbn zeta. cbn [fst snd]. rewrite Herr. now cbn.
  - rewrite run_bind_perform, (handle_Get_absent b _ _ w Hq Hrec). now cbn.
Qed.

Lemma handle_Get_fault (ns name : string) (err : error) (rest : list (option error))
    (w : World) :
  faults w = Some err :: rest ->
  handle b (ConfigMaps_Get ns name) w = (Err err, withFaults rest w).
Proof. intros Hf. simpl. unfold apiCall. now rewrite Hf. Qed.

(** X20.  An error of the first call that is not a NotFound of the API
    (here: the transport fails) is returned as it is by [Bind],
    [Deprovision] and [LastOperationState]: it is not turned into a
    status error, nothing is started and nothing is changed. *)
Theorem first_call_error_is_passed_on
    (Quote : string -> string)
    (instanceID serviceID : string) (bindParams : gmap string Value)
    (acceptsIncomplete : bool) (operationKey : option string)
    (err : error) (rest : list (option error)) (w : World) :
  faults w = Some err :: rest ->
  apierrors.IsNotFound err = false ->
  let bound := run b (Bind json_Unmarshal c instanceID serviceID bindParams) w in
  let removed := run b (Deprovision Quote c instanceID acceptsIncomplete) w in
  let polled := run b (LastOperationState c instanceID operationKey) w in
  (returned bound = Returned (Err err) /\ after bound = withFaults rest w /\
   spawned bound = []) /\
  (returned removed = Returned (Err err) /\ after removed = withFaults rest w /\
   spawned removed = []) /\
  (returned polled = Returned (Err err) /\ after polled = withFaults rest w /\
   spawned polled = []).
Proof.
  intros Hf Hnf bound removed polled. subst bound removed polled.
  unfold Bind, Deprovision, LastOperationState.
  rewrite !run_bind_perform, !(handle_Get_fault _ _ err rest w Hf).
  cbn zeta. cbn [fst snd]. rewrite Hnf. now cbn.
Qed.

End Credentials.

Section Refusals.
Variable json_Marshal : gmap string Value -> result string.
Variable yaml_Marshal : gmap string Value -> result string.
Variable Quote : string -> string.
Variable b : Backend.
Variable c : Client.

(** X21.  [Provision] gives up before any installation when it cannot
    persist the record: parameters that do not marshal are refused
    without a single call, and a create that fails for another reason
    than AlreadyExists gives that error wrapped; in both cases no
    record is left, nothing is installed and no goroutine is started. *)
Theorem provision_fails_before_install
    (instanceID serviceID planID ns : string) (acceptsIncomplete : bool)
    (provisionParams : gmap string Value) (w : World) :
  let r := run b (Provision json_Marshal yaml_Marshal Quote c instanceID serviceID planID ns
                    acceptsIncomplete provisionParams) w in
  match json_Marshal provisionParams with
  | Err err =>
      returned r =
      Returned (Err (Wrapf err "could not marshall provisioning parameters %v"
                       [VMap (map_to_list provisionParams)])) /\
      after r = w /\ spawned r = [] /\ trace r = []
  | Ok js =>
      forall err rest,
        faults w = Some err :: rest ->
        apierrors.IsAlreadyExists err = false ->
        returned r =
        Returned (Err (Wrapf err "could not persist the instance configmap for %q"
                         [VStr instanceID])) /\
        after r = withFaults rest w /\ spawned r = [] /\
        trace r = [Entry (ConfigMaps_Create (namespace c)
                            (newRecord c instanceID serviceID planID js)) (Err err)]
  end.
Proof.
  intros r. subst r. unfold Provision.
  destruct (json_Marshal provisionParams) as [js|err]; [|now cbn].
  intros err rest Hf Hae. rewrite run_bind_perform.
  cbn [corev1.cm_Namespace]. fold (newRecord c instanceID serviceID planID js).
  assert (Hh : handle b (ConfigMaps_Create (namespace c)
                           (newRecord c instanceID serviceID planID js)) w
               = (Err err, withFaults rest w)).
  { simpl. unfold apiCall. now rewrite Hf. }
  rewrite Hh. cbn zeta. cbn [fst snd]. unfold provisionAdmitted. rewrite Hae. now cbn.
Qed.

End Refusals.

(** The sample instance bound for a service without a provider: the
    credentials are the entries of its secret. *)
Lemma bind_credentials_witness :
  returned (run Sample.backend (Sample.Bind Sample.client "i1" "mysql" Sample.a2b3)
              Sample.provisionedWorld)
  = Returned (Ok (secretData (Spec.labelledSecrets "i1" "apps" Sample.provisionedWorld))).
Proof.
  exact (proj2 (proj2 (bind_credentials Sample.json_Unmarshal Sample.backend
                         Sample.client "i1" "mysql" Sample.a2b3 Sample.a1
                         (Sample.recordOf "i1" Sample.provisionedWorld)
                         Sample.provisionedWorld eq_refl eq_refl eq_refl
                         ltac:(vm_compute; discriminate)
                         ltac:(vm_compute; discriminate)))).
Defined.

(** On the empty sample world a bind finds no record. *)
Lemma bind_fails_before_listing_witness :
  returned (run Sample.backend (Sample.Bind Sample.client "i1" "pg" Sample.a2b3)
              Sample.emptyWorld)
  = Returned (Err (HTTPStatusCodeError http.StatusNotFound
                     (Some "could not find configmap minibroker/i1") None)).
Proof.
  exact (proj1 (bind_fails_before_listing Sample.json_Unmarshal Sample.backend Sample.client
                  "i1" "pg" Sample.a2b3 Sample.emptyWorld eq_refl)).
Defined.

(** With the transport down, the bind, the deprovision and the poll of
    the sample instance all return the error of the transport. *)
Lemma first_call_error_is_passed_on_witness :
  returned (run Sample.backend (Sample.Bind Sample.client "i1" "pg" Sample.a2b3)
              Scenes.offlineWorld) = Returned (Err (errorString "connection refused")) /\
  returned (run Sample.backend (Sample.Deprovision Sample.client "i1" false)
              Scenes.offlineWorld) = Returned (Err (errorString "connection refused")) /\
  returned (run Sample.backend (LastOperationState Sample.client "i1" None)
              Scenes.offlineWorld) = Returned (Err (errorString "connection refused")).
Proof.
  destruct (first_call_error_is_passed_on Sample.json_Unmarshal Sample.backend Sample.client
              Sample.Quote "i1" "pg" Sample.a2b3 false None
              (errorString "connection refused") [] Scenes.offlineWorld eq_refl eq_refl)
    as ((H1 & _) & (H2 & _) & (H3 & _)).
  split; [exact H1|]. split; [exact H2 | exact H3].
Defined.


End CredentialFacts.

(* ================================================================== *)
(** ** From a provision to a binding *)
(* ================================================================== *)

Module ComposeFacts.
Import Cluster ClusterFacts Calls RunFacts minibroker PollFacts BindFacts LifecycleFacts
  RecordFacts LabelFacts FlowFacts CredentialFacts.

Section Compose.
Variable json_Marshal : gmap string Value -> result string.
Variable json_Unmarshal : string -> result (gmap string Value).
Variable yaml_Marshal : gmap string Value -> result string.
Variable Quote : string -> string.
Variable b : Backend.
Variable c : Client.

(** X22.  A synchronous [Provision] followed by a [Bind] of the same
    instance.  When the provision goes through (no record before, the
    parameters marshal and what is stored decodes again, the API calls
    go through, the installation succeeds) and the release has brought
    at least one service and one secret with Tiller's labels into its
    namespace, the [Bind] does not fail with NotFound: it lists every
    service and every secret of the release, relabelled, and returns
    the entries of the listed secrets, or what the provider of the
    service makes of them. *)
Theorem provision_then_bind
    (instanceID serviceID planID ns : string)
    (provisionParams stored bindParams : gmap string Value) (js : string)
    (resp : helm.Release) (w : World) :
  json_Marshal provisionParams = Ok js ->
  json_Unmarshal js = Ok stored ->
  faults w = [] ->
  configMaps w !! (namespace c, instanceID) = None ->
  let install := run b (installRelease yaml_Marshal c serviceID
                          (chartVersionOf serviceID planID) ns provisionParams []) w in
  returned install = Returned (Ok resp) ->
  (exists svc, svc ∈ services (workload (after install)) /\
               corev1.svc_Namespace svc = helm.rel_Namespace resp /\
               ofRelease (helm.rel_Name resp) (corev1.svc_Labels svc)) ->
  (exists sec, sec ∈ secrets (workload (after install)) /\
               corev1.sec_Namespace sec = helm.rel_Namespace resp /\
               ofRelease (helm.rel_Name resp) (corev1.sec_Labels sec)) ->
  let r := run b (Provision json_Marshal yaml_Marshal Quote c instanceID serviceID planID ns
                    false provisionParams) w in
  let svcs := Spec.labelledServices instanceID (helm.rel_Namespace resp) (after r) in
  let secs := Spec.labelledSecrets instanceID (helm.rel_Namespace resp) (after r) in
  returned r = Returned (Ok "") /\
  (forall svc, svc ∈ services (workload (after install)) ->
               corev1.svc_Namespace svc = helm.rel_Namespace resp ->
               ofRelease (helm.rel_Name resp) (corev1.svc_Labels svc) ->
               exists svc', svc' ∈ svcs /\ serviceRelabelled instanceID svc svc') /\
  (forall sec, sec ∈ secrets (workload (after install)) ->
               corev1.sec_Namespace sec = helm.rel_Namespace resp ->
               ofRelease (helm.rel_Name resp) (corev1.sec_Labels sec) ->
               exists sec', sec' ∈ secs /\ secretRelabelled instanceID sec sec') /\
  returned (run b (Bind json_Unmarshal c instanceID serviceID bindParams) (after r)) =
  Returned
    match providers c !! serviceID with
    | None => Ok (secretData secs)
    | Some provider =>
        match provider svcs (mergeParams stored bindParams) (secretData secs) with
        | Err err => Err (Wrapf err "unable to bind instance %s" [VStr instanceID])
        | Ok creds => Ok (map_fold (fun k v data => <[k := v]> data) (secretData secs) creds)
        end
    end.
Proof.
  intros Hjs Hdec Hq Habs install Hok Hsvc Hsec r svcs secs.
  subst install r svcs secs.
  destruct (Provision_sync_run json_Marshal yaml_Marshal Quote b c instanceID serviceID planID
              ns provisionParams js w Hjs Hq Habs) as (reply & wl & tr & Hinst & Hrun).
  rewrite Hinst in Hok, Hsvc, Hsec |- *. cbn [returned after workload withWorkload] in *.
  injection Hok as ->. destruct Hrun as (tr' & ->). cbn [returned after].
  set (w1 := withWorkload wl _).
  assert (Hq1 : faults w1 = []) by exact Hq.
  assert (Hrec1 : configMaps w1 !! (namespace c, instanceID)
                  = Some (newRecord c instanceID serviceID planID js)).
  { cbn. apply lookup_insert_eq. }
  destruct (updateProvisioningState_run b c instanceID (helm.rel_Name resp)
              (helm.rel_Namespace resp) provisionParams _ _ Hq1 Hrec1 eq_refl)
    as (tr2 & ->).
  cbn [after]. change (services (workload w1)) with (services wl).
  change (secrets (workload w1)) with (secrets wl).
  set (listedServices := filter _ (services wl)).
  set (listedSecrets := filter _ (secrets wl)).
  set (record := updatedRecord _ _).
  set (w2 := Build_World _ _ _ _).
  assert (HinS : forall svc, svc ∈ services wl ->
                   corev1.svc_Namespace svc = helm.rel_Namespace resp ->
                   ofRelease (helm.rel_Name resp) (corev1.svc_Labels svc) ->
                   Calls.servicesPatched instanceID listedServices svc
                     ∈ Spec.labelledServices instanceID (helm.rel_Namespace resp) w2).
  { intros svc Hin Hns Hrel. unfold Spec.labelledServices. apply list_elem_of_filter. split.
    - split.
      + destruct (servicesPatched_relabelled instanceID listedServices svc) as (_ & -> & _).
        exact Hns.
      + apply servicesPatched_self. unfold listedServices. apply list_elem_of_filter.
        split; [|exact Hin]. apply andb_true_iff. split.
        * now apply String.eqb_eq.
        * now apply selects_release.
    - unfold w2. cbn. apply list_elem_of_fmap. now exists svc. }
  assert (HinC : forall sec, sec ∈ secrets wl ->
                   corev1.sec_Namespace sec = helm.rel_Namespace resp ->
                   ofRelease (helm.rel_Name resp) (corev1.sec_Labels sec) ->
                   Calls.secretsPatched instanceID listedSecrets sec
                     ∈ Spec.labelledSecrets instanceID (helm.rel_Namespace resp) w2).
  { intros sec Hin Hns Hrel. unfold Spec.labelledSecrets. apply list_elem_of_filter. split.
    - split.
      + destruct (secretsPatched_relabelled instanceID listedSecrets sec) as (_ & -> & _).
        exact Hns.
      + apply secretsPatched_self. unfold listedSecrets. apply list_elem_of_filter.
        split; [|exact Hin]. apply andb_true_iff. split.
        * now apply String.eqb_eq.
        * now apply selects_release.
    - unfold w2. cbn. apply list_elem_of_fmap. now exists sec. }
  split; [reflexivity|].
  split.
  { intros svc Hin Hns Hrel. eexists. split; [apply (HinS svc Hin Hns Hrel)|].
    apply servicesPatched_relabelled. }
  split.
  { intros sec Hin Hns Hrel. eexists. split; [apply (HinC sec Hin Hns Hrel)|].
    apply secretsPatched_relabelled. }
  assert (Hns : strIndex (corev1.cm_Data record) ReleaseNamespaceKey = helm.rel_Namespace resp).
  { unfold record, strIndex. cbn [updatedRecord corev1.cm_Data]. now rewrite releaseData_lookup. }
  assert (Hpp : strIndex (corev1.cm_Data record) ProvisionParamsKey = js).
  { unfold record, strIndex. cbn [updatedRecord corev1.cm_Data]. now rewrite releaseData_lookup. }
  assert (Hrec2 : configMaps w2 !! (namespace c, instanceID) = Some record).
  { unfold w2. cbn. apply lookup_insert_eq. }
  assert (Hdec2 : json_Unmarshal (strIndex (corev1.cm_Data record) ProvisionParamsKey)
                  = Ok stored) by (rewrite Hpp; exact Hdec).
  rewrite (Bind_run json_Unmarshal b c instanceID serviceID bindParams stored record w2
             eq_refl Hrec2 Hdec2).
  rewrite Hns.
  destruct Hsvc as (svc & Hin & Hsns & Hrel). pose proof (HinS svc Hin Hsns Hrel) as Hs1.
  destruct Hsec as (sec & Hin' & Hsns' & Hrel'). pose proof (HinC sec Hin' Hsns' Hrel') as Hs2.
  destruct (Spec.labelledServices instanceID (helm.rel_Namespace resp) w2) as [|s0 l0];
    [inversion Hs1|].
  destruct (Spec.labelledSecrets instanceID (helm.rel_Namespace resp) w2) as [|s1 l1];
    [inversion Hs2|].
  cbn [length Nat.eqb].
  destruct (providers c !! serviceID) as [provider|]; [|reflexivity].
  now destruct (provider _ _ _).
Qed.

End Compose.

(** The sample instance provisioned and then bound: the credentials are
    those of the release's secret under the merged parameters. *)
Lemma provision_then_bind_witness :
  returned (run Sample.backend (Sample.Bind Sample.client "i1" "pg" Sample.a2b3)
              Sample.provisionedWorld)
  = Returned (Ok (<["a" := VNum 2]> (<["b" := VNum 3]> (<["password" := VStr "secret"]> ∅)))).
Proof.
  pose proof (provision_then_bind Sample.json_Marshal Sample.json_Unmarshal
                Sample.yaml_Marshal Sample.Quote Sample.backend Sample.client
                "i1" "pg" "pg-9-6" "apps" Sample.a1 Sample.a1 Sample.a2b3 "{a:1}"
                Scenes.release Sample.emptyWorld eq_refl eq_refl eq_refl eq_refl eq_refl) as H.
  destruct H as (_ & _ & _ & H).
  - eexists. split; [apply list_elem_of_here|]. split; [reflexivity|].
    split; vm_compute; reflexivity.
  - eexists. split; [apply list_elem_of_here|]. split; [reflexivity|].
    split; vm_compute; reflexivity.
  - change (after (run Sample.backend
                     (Provision Sample.json_Marshal Sample.yaml_Marshal Sample.Quote
                        Sample.client "i1" "pg" "pg-9-6" "apps" false Sample.a1)
                     Sample.emptyWorld)) with Sample.provisionedWorld in H.
    unfold Sample.Bind. rewrite H. vm_compute. reflexivity.
Defined.

End ComposeFacts.

(* ================================================================== *)
(** ** The catalog: ties, and one service per chart *)
(* ================================================================== *)

Module ListingFacts.
Import Cluster ClusterFacts Calls RunFacts minibroker CatalogFacts Ties.

Section TieProofs.
Variable SemVersion : Type.
Variable NewVersion : string -> option SemVersion.
Variable GreaterThan : SemVersion -> SemVersion -> bool.

Local Abbreviation keepHighest := (minibroker.keepHighest SemVersion NewVersion GreaterThan).
Local Abbreviation collectAppVersions :=
  (minibroker.collectAppVersions SemVersion NewVersion GreaterThan).
Local Abbreviation valid := (Spec.valid SemVersion NewVersion).
Local Abbreviation notExceededBy := (Spec.notExceededBy SemVersion NewVersion GreaterThan).
Local Abbreviation exceeds := (Ties.exceeds SemVersion NewVersion GreaterThan).
Local Abbreviation firstHighest := (Ties.firstHighest SemVersion NewVersion GreaterThan).

(** The state of the loop after the descriptors [seen]. *)
Local Abbreviation keepsFirst :=
  (fun (seen : list repo.ChartVersion) (m : gmap string repo.ChartVersion) =>
     (forall a cv, m !! a = Some cv -> firstHighest seen a cv) /\
     (forall cv, cv ∈ seen -> valid cv -> is_Some (m !! repo.AppVersion cv))).

Lemma firstHighest_snoc seen a cv x :
  firstHighest seen a cv ->
  (repo.AppVersion x = a -> notExceededBy cv x) ->
  firstHighest (seen ++ [x]) a cv.
Proof.
  intros (pre & post & -> & Ha & Hv & Hpre & Hpost) Hx.
  exists pre, (post ++ [x]). split; [now rewrite <- app_assoc|].
  split; [exact Ha|]. split; [exact Hv|]. split; [exact Hpre|].
  intros e [He|He%list_elem_of_singleton]%elem_of_app Hea.
  - now apply Hpost.
  - subst e. now apply Hx.
Qed.

Lemma keepsFirst_same seen m x :
  keepsFirst seen m ->
  (forall cv, m !! repo.AppVersion x = Some cv -> notExceededBy cv x) ->
  (valid x -> is_Some (m !! repo.AppVersion x)) ->
  keepsFirst (seen ++ [x]) m.
Proof.
  intros [H1 H2] Hx Hvx. split.
  - intros a cv Hcv. apply firstHighest_snoc; [now apply H1|].
    intros Ha. apply Hx. now rewrite Ha.
  - intros e [He|He%list_elem_of_singleton]%elem_of_app Hv; [now apply H2|].
    subst e. now apply Hvx.
Qed.

Hypothesis GreaterThan_trans :
  forall u v w, GreaterThan u v = true -> GreaterThan v w = true -> GreaterThan u w = true.
Hypothesis GreaterThan_negtrans :
  forall u v w, GreaterThan u v = false -> GreaterThan v w = false -> GreaterThan u w = false.

Lemma keepsFirst_replace seen m x curV :
  keepsFirst seen m ->
  repo.AppVersion x <> EmptyString ->
  NewVersion (repo.Version x) = Some curV ->
  (forall currentMax, m !! repo.AppVersion x = Some currentMax ->
     exists maxV, NewVersion (repo.Version currentMax) = Some maxV /\
                  GreaterThan curV maxV = true) ->
  keepsFirst (seen ++ [x]) (<[repo.AppVersion x := x]> m).
Proof.
  intros [H1 H2] Hne Hcur Hgt.
  assert (Hvx : valid x) by (split; [exact Hne | now rewrite Hcur]).
  split.
  - intros a cv Hcv. destruct (decide (repo.AppVersion x = a)) as [<-|Hna].
    + rewrite lookup_insert_eq in Hcv. injection Hcv as <-.
      exists seen, []. split; [reflexivity|]. split; [reflexivity|]. split; [exact Hvx|].
      split; [|intros e He; inversion He].
      intros e He Hea [_ [v' Hv']].
      exists curV, v'. split; [exact Hcur|]. split; [exact Hv'|].
      destruct (H2 e He) as [currentMax Hlook]; [split; [congruence | now rewrite Hv']|].
      rewrite Hea in Hlook.
      destruct (Hgt currentMax Hlook) as (maxV & HmaxV & Hbig).
      destruct (H1 _ _ Hlook) as (pre & post & -> & _ & _ & Hpre & Hpost).
      apply elem_of_app in He as [He|He]; [|apply elem_of_cons in He as [->|He]].
      * destruct (Hpre e He Hea) as (v1 & v2 & Hv1 & Hv2 & Hlt);
          [split; [congruence | now rewrite Hv']|].
        assert (v1 = maxV) by congruence. assert (v2 = v') by congruence. subst v1 v2.
        exact (GreaterThan_trans _ _ _ Hbig Hlt).
      * assert (v' = maxV) by congruence. now subst v'.
      * specialize (Hpost e He Hea maxV v' HmaxV Hv').
        destruct (GreaterThan curV v') eqn:Hc; [reflexivity|].
        rewrite (GreaterThan_negtrans _ _ _ Hc Hpost) in Hbig. discriminate.
    + rewrite lookup_insert_ne in Hcv by assumption.
      apply firstHighest_snoc; [now apply H1 | congruence].
  - intros e [He|He%list_elem_of_singleton]%elem_of_app Hv.
    + destruct (decide (repo.AppVersion x = repo.AppVersion e)) as [<-|Hna].
      * rewrite lookup_insert_eq. eauto.
      * rewrite lookup_insert_ne by assumption. now apply H2.
    + subst e. rewrite lookup_insert_eq. eauto.
Qed.

Lemma keepHighest_keepsFirst seen m x :
  keepsFirst seen m -> exists m', keepHighest m x = Some m' /\ keepsFirst (seen ++ [x]) m'.
Proof.
  intros Hm. unfold minibroker.keepHighest.
  destruct (String.eqb_spec (repo.AppVersion x) "") as [He|Hne].
  { exists m. split; [reflexivity|]. apply keepsFirst_same; [exact Hm | |].
    - intros cv Hcv. destruct (proj1 Hm _ _ Hcv) as (_ & _ & _ & Ha & [Hnz _] & _).
      congruence.
    - intros [Hnz _]. congruence. }
  destruct (NewVersion (repo.Version x)) as [curV|] eqn:Hcur.
  2:{ exists m. split; [reflexivity|]. apply keepsFirst_same; [exact Hm | |].
      - intros cv _ v v' _ Hv'. congruence.
      - intros [_ [v Hv]]. congruence. }
  destruct (m !! repo.AppVersion x) as [currentMax|] eqn:Hlook.
  2:{ eexists. split; [reflexivity|]. apply (keepsFirst_replace seen m x curV); try assumption.
      intros ? Habs. congruence. }
  destruct (proj1 Hm _ _ Hlook) as (_ & _ & _ & _ & [_ [maxV HmaxV]] & _). rewrite HmaxV.
  destruct (GreaterThan curV maxV) eqn:Hgt.
  - eexists. split; [reflexivity|]. apply (keepsFirst_replace seen m x curV); try assumption.
    intros y Hy. exists maxV. split; congruence.
  - exists m. split; [reflexivity|]. apply keepsFirst_same; [exact Hm | |].
    + intros cv Hcv v v' Hv Hv'. congruence.
    + intros _. now rewrite Hlook.
Qed.

(** X23.  When the comparison of versions is transitive and so is its
    negation (versions that are not greater form a chain, as those of
    semver do), the loop over the descriptors keeps for each appVersion
    the first of its highest descriptors: every valid descriptor of that
    appVersion listed before the kept one has a lower version, and none
    listed after it has a greater one.  So, no version being greater
    than itself, of two descriptors with equal versions the one listed
    first is kept. *)
Theorem ties_keep_the_first (cvs : list repo.ChartVersion) :
  exists retained,
    collectAppVersions ∅ cvs = Some retained /\
    forall a cv, retained !! a = Some cv -> firstHighest cvs a cv.
Proof.
  destruct (collect_invariant SemVersion NewVersion GreaterThan keepsFirst
              keepHighest_keepsFirst cvs [] ∅) as [m [Hc Hm]].
  - split; [intros a cv H; now rewrite lookup_empty in H|].
    intros cv H. inversion H.
  - exists m. split; [exact Hc | exact (proj1 Hm)].
Qed.

End TieProofs.

Lemma Sample_GreaterThan_negtrans (u v w : Sample.SemVersion) :
  Sample.GreaterThan u v = false -> Sample.GreaterThan v w = false ->
  Sample.GreaterThan u w = false.
Proof.
  destruct u as [[a1 b1] c1], v as [[a2 b2] c2], w as [[a3 b3] c3]. simpl.
  destruct (N.compare_spec a1 a2), (N.compare_spec a2 a3), (N.compare_spec a1 a3);
    try discriminate; try reflexivity; try lia;
    destruct (N.compare_spec b1 b2), (N.compare_spec b2 b3), (N.compare_spec b1 b3);
    try discriminate; try reflexivity; try lia;
    destruct (N.compare_spec c1 c2), (N.compare_spec c2 c3), (N.compare_spec c1 c3);
    try discriminate; try reflexivity; lia.
Qed.

(** Two descriptors with the version 1.1.0 and the appVersion 9.6: the
    loop keeps some descriptor for them, the first of the highest. *)
Lemma ties_keep_the_first_witness :
  exists retained,
    minibroker.collectAppVersions Sample.SemVersion Sample.NewVersion Sample.GreaterThan ∅
      [Sample.pg "1.1.0" "9.6"; Spec.pgDescriptor "1.1.0" "9.6" "second" []] = Some retained /\
    forall a cv, retained !! a = Some cv ->
      Ties.firstHighest Sample.SemVersion Sample.NewVersion Sample.GreaterThan
        [Sample.pg "1.1.0" "9.6"; Spec.pgDescriptor "1.1.0" "9.6" "second" []] a cv.
Proof.
  apply (ties_keep_the_first Sample.SemVersion Sample.NewVersion Sample.GreaterThan
           Sample_GreaterThan_trans Sample_GreaterThan_negtrans).
Defined.


Section Listing.
Variable SemVersion : Type.
Variable NewVersion : string -> option SemVersion.
Variable GreaterThan : SemVersion -> SemVersion -> bool.
Variable c : Client.

Lemma buildService_fields chart cvs svc :
  buildService SemVersion NewVersion GreaterThan chart cvs = Some svc ->
  osb.ID svc = chart /\ osb.Name svc = chart /\
  osb.Description svc = "Helm Chart for " +:+ chart /\
  osb.Bindable svc = true /\ osb.Tags svc = getTagIntersection cvs.
Proof.
  unfold buildService.
  destruct (minibroker.collectAppVersions _ _ _ _ _); [|discriminate].
  intros [= <-]. now cbn.
Qed.

(** The services that the loop adds come in the order of the charts,
    each under the name of its chart. *)
Lemma listServicesLoop_ids (charts : list (string * list repo.ChartVersion)) :
  forall services listed,
    listServicesLoop SemVersion NewVersion GreaterThan c charts services = Some listed ->
    exists added, listed = services ++ added /\
                  sublist (map osb.ID added) (map fst charts).
Proof.
  induction charts as [|[chart cvs] charts IH]; intros services listed; cbn [listServicesLoop].
  - intros [= <-]. exists []. split; [now rewrite app_nil_r | constructor].
  - destruct (negb _ && _).
    + intros H. destruct (IH _ _ H) as (added & -> & Hsub).
      exists added. split; [reflexivity|]. cbn. now apply sublist_cons.
    + destruct (buildService _ _ _ chart cvs) as [svc|] eqn:Hb; [|discriminate].
      destruct (Nat.eqb (length (osb.Plans svc)) 0).
      * intros H. destruct (IH _ _ H) as (added & -> & Hsub).
        exists added. split; [reflexivity|]. cbn. now apply sublist_cons.
      * intros H. destruct (IH _ _ H) as (added & -> & Hsub).
        exists (svc :: added). split; [now rewrite <- app_assoc|]. cbn.
        rewrite (proj1 (buildService_fields _ _ _ Hb)). now apply sublist_skip.
Qed.

(** X24.  [ListServices] makes one call, to the chart repository,
    changes nothing and never panics.  An error of the repository is
    returned as it is.  Otherwise it returns at most one service per
    chart: the IDs of the listed services are pairwise distinct; each
    listed service has a chart of the repository as ID and as name, the
    description [Helm Chart for] followed by the name, is bindable, has
    at least one plan and has the keyword intersection of its chart as
    tags; and when only charts with a provider are to be listed, each
    listed service has a provider. *)
Theorem catalog_lists_each_chart_once (b : Backend) (w : World) :
  let r := run b (ListServices SemVersion NewVersion GreaterThan c) w in
  after r = w /\ spawned r = [] /\
  trace r = [Entry Helm_ListCharts (listCharts b)] /\
  match listCharts b with
  | Err err => returned r = Returned (Err err)
  | Ok charts =>
      exists listed,
        returned r = Returned (Ok listed) /\
        NoDup (map osb.ID listed) /\
        forall svc, svc ∈ listed ->
          osb.Name svc = osb.ID svc /\
          osb.Description svc = "Helm Chart for " +:+ osb.ID svc /\
          osb.Bindable svc = true /\
          osb.Plans svc <> [] /\
          (exists cvs, charts !! osb.ID svc = Some cvs /\
                       osb.Tags svc = getTagIntersection cvs) /\
          (serviceCatalogEnabledOnly c = true -> is_Some (providers c !! osb.ID svc))
  end.
Proof.
  intros r. subst r. unfold ListServices. rewrite run_bind_perform. cbn [handle fst snd].
  cbn zeta. destruct (listCharts b) as [charts|err] eqn:Hcharts; [|now cbn].
  destruct (listServicesLoop_lists SemVersion NewVersion GreaterThan c (map_to_list charts) [])
    as [listed [Hl Hin]].
  rewrite Hl. cbn [run mret prog_mret returned after spawned trace].
  split; [reflexivity|]. split; [reflexivity|]. split; [reflexivity|].
  exists listed. split; [reflexivity|]. split.
  - destruct (listServicesLoop_ids _ _ _ Hl) as (added & -> & Hsub).
    rewrite app_nil_l. pose proof (NoDup_fst_map_to_list charts) as Hnd.
    eapply sublist_NoDup; eassumption.
  - intros svc Hsvc. apply Hin in Hsvc as [Hsvc|(chart & cvs & Hc & Hp & Hb & Hn)];
      [inversion Hsvc|].
    destruct (buildService_fields _ _ _ Hb) as (Hid & Hname & Hdesc & Hbind & Htags).
    rewrite Hid. split; [exact Hname|]. split; [exact Hdesc|]. split; [exact Hbind|].
    split; [exact Hn|]. split.
    + exists cvs. split; [now apply elem_of_map_to_list | exact Htags].
    + intros Hflag. destruct Hp as [Hp|Hp]; [exact Hp | congruence].
Qed.

End Listing.

End ListingFacts.

(* ================================================================== *)
(** ** Operation names *)
(* ================================================================== *)

Module NameFacts.
Import Cluster ClusterFacts Calls RunFacts minibroker.

Lemma hexDigitValue_hexDigit (d : Z) :
  (0 <= d < 16)%Z -> hexDigitValue (hexDigit d) = d.
Proof.
  intros Hd.
  assert (H : (d = 0 \/ d = 1 \/ d = 2 \/ d = 3 \/ d = 4 \/ d = 5 \/ d = 6 \/ d = 7 \/
               d = 8 \/ d = 9 \/ d = 10 \/ d = 11 \/ d = 12 \/ d = 13 \/ d = 14 \/
               d = 15)%Z) by lia.
  repeat destruct H as [->|H]; try reflexivity; subst d; reflexivity.
Qed.

Lemma hexLoop_acc (fuel : nat) :
  forall n acc, hexLoop fuel n acc = hexLoop fuel n "" +:+ acc.
Proof.
  induction fuel as [|fuel IH]; intros n acc; [reflexivity|].
  cbn [hexLoop]. cbn zeta. destruct (n / 16 =? 0)%Z; [reflexivity|].
  rewrite (IH _ (String _ acc)), (IH _ (String _ "")).
  now rewrite <- ProvisionFacts.append_assoc.
Qed.

Lemma hexValue_app (s t : string) :
  forall acc, hexValue (s +:+ t) acc = hexValue t (hexValue s acc).
Proof.
  induction s as [|ch s IH]; intros acc; [reflexivity|].
  change (String ch s +:+ t) with (String ch (s +:+ t)). cbn [hexValue]. apply IH.
Qed.

(** Reading back what [%x] wrote gives the number. *)
Lemma hexValue_hexLoop (fuel : nat) :
  forall n, (0 <= n < 16 ^ Z.of_nat fuel)%Z -> (1 <= fuel)%nat ->
            hexValue (hexLoop fuel n "") 0 = n.
Proof.
  induction fuel as [|fuel IH]; intros n Hn Hfuel; [lia|].
  cbn [hexLoop]. cbn zeta.
  assert (Hmod : (0 <= n mod 16 < 16)%Z) by (apply Z.mod_pos_bound; lia).
  destruct (Z.eqb_spec (n / 16) 0) as [Hq|Hq].
  - cbn [hexValue]. rewrite hexDigitValue_hexDigit by exact Hmod.
    pose proof (Z.div_mod n 16 ltac:(lia)). lia.
  - rewrite hexLoop_acc, hexValue_app. cbn [hexValue].
    rewrite hexDigitValue_hexDigit by exact Hmod.
    assert (Hpow : (16 ^ Z.of_nat (S fuel) = 16 * 16 ^ Z.of_nat fuel)%Z).
    { rewrite Nat2Z.inj_succ, Z.pow_succ_r by lia. reflexivity. }
    assert (Hdiv : (0 <= n / 16 < 16 ^ Z.of_nat fuel)%Z).
    { split; [apply Z.div_pos; lia|]. apply Z.div_lt_upper_bound; lia. }
    rewrite IH.
    + pose proof (Z.div_mod n 16 ltac:(lia)). lia.
    + exact Hdiv.
    + destruct fuel; [|lia]. cbn in Hdiv. lia.
Qed.

Lemma formatHex_injective (n m : Z) :
  (0 <= n < 2 ^ 31)%Z -> (0 <= m < 2 ^ 31)%Z -> formatHex n = formatHex m -> n = m.
Proof.
  intros Hn Hm Heq. unfold formatHex in Heq.
  rewrite <- (hexValue_hexLoop 8 n), <- (hexValue_hexLoop 8 m) by (cbn; lia).
  now rewrite Heq.
Qed.

Lemma append_injective (prefix s t : string) : prefix +:+ s = prefix +:+ t -> s = t.
Proof.
  induction prefix as [|ch prefix IH]; [now intros H|].
  change (String ch prefix +:+ s) with (String ch (prefix +:+ s)).
  change (String ch prefix +:+ t) with (String ch (prefix +:+ t)).
  intros [= H]. now apply IH.
Qed.

(** X25.  Operation names: [generateOperationName] returns its prefix
    followed by the number it drew, and two names with the same prefix
    are equal only if the numbers drawn are equal in their low 31 bits;
    a name for a provision never equals one for a deprovision. *)
Theorem operation_names_distinct
    (b : Backend) (prefix : string) (w1 w2 : World) (n1 n2 : Z) (rest1 rest2 : list Z) :
  rands w1 = n1 :: rest1 ->
  rands w2 = n2 :: rest2 ->
  let name1 := returned (run b (generateOperationName prefix) w1) in
  let name2 := returned (run b (generateOperationName prefix) w2) in
  (exists token, name1 = Returned token /\ GoStrings.HasPrefix token prefix = true) /\
  (name1 = name2 -> (n1 mod 2 ^ 31 = n2 mod 2 ^ 31)%Z) /\
  returned (run b (generateOperationName OperationPrefixProvision) w1) <>
  returned (run b (generateOperationName OperationPrefixDeprovision) w2).
Proof.
  intros H1 H2 name1 name2. subst name1 name2. unfold generateOperationName.
  cbn [mbind prog_mbind prog_bind perform mret prog_mret].
  rewrite !run_Call. cbn [handle]. rewrite H1, H2. cbn zeta.
  cbn [fst snd run returned mret prog_mret].
  split; [|split].
  - eexists. split; [reflexivity | apply GoStringsFacts.HasPrefix_app].
  - intros [= Heq]. apply append_injective in Heq.
    apply formatHex_injective; [apply Z.mod_pos_bound; lia .. | exact Heq].
  - intros Heq. inversion Heq.
Qed.

(** A draw of 26 for a provision gives a name with the prefix
    [provision-]. *)
Lemma operation_names_distinct_witness :
  exists token,
    returned (run Sample.backend (generateOperationName OperationPrefixProvision)
                (withRands [26%Z] Sample.emptyWorld)) = Returned token /\
    GoStrings.HasPrefix token OperationPrefixProvision = true.
Proof.
  exact (proj1 (operation_names_distinct Sample.backend OperationPrefixProvision
                  (withRands [26%Z] Sample.emptyWorld)
                  (withRands [10%Z] Sample.emptyWorld)
                  26%Z 10%Z [] [] eq_refl eq_refl)).
Defined.

End NameFacts.
